(** * magic-spell: the gesture-to-combat pipeline

    A shallow embedding of the pieces of the repository that carry state
    and arithmetic:

    - [detectGesture] and the body of [detectHands]
                        (src/hooks/useTensorFlowHandTracking.ts)
    - the callbacks of [MagicSpellSystem]
                        (src/components/MagicSpellSystem.tsx)
    - the mana and experience ledger of [App] (src/App.tsx)
    - the health bar of [Scarecrow] (src/components/Scarecrow.tsx)

    Numbers.  The landmark classifier only ever compares coordinates, so its
    inputs are rationals (every finite double is one) and the classifier
    computes.  The simulation takes a square root and divides, so positions,
    damage and health are real numbers: JavaScript's doubles are idealised
    as exact reals there.  A double differs from the real number it stands
    for by a rounding error, so a statement about a distance, a frame
    count or a scaled coordinate that an error of that size could overturn
    is made with a tolerance, [rounding], for coordinates of the size of
    a screen, and away from the inputs where the rounding decides; it is
    then a statement about the doubles as well.  Mana, experience, level
    and the counters only ever hold integers and are modelled in [Z].

    State.  Every callback is a function on one record, [World], that
    holds the [useState] and [useRef] cells of both components; a [set...]
    call is a write to its cell.  Values a closure captured at render
    ([handData], [scarecrow] and [mana] in [castSpell]) are arguments of
    the callback.  [Date.now()] and [Math.random()] are inputs, and a timer
    is an action that fires when the run says so: clock time is not
    modelled.  The cells of [Scarecrow] are a record of their own,
    [ScarecrowView.t]; one pass of [detectHands] is a function of what
    the handpose model returned. *)

From Stdlib Require Import List String Bool ZArith QArith Qround Reals Lra Lia.
Import ListNotations.

Local Open Scope string_scope.

(** ** 1. Gesture classifier *)

(** [number[][]]: one row per landmark, [x, y, z] in each row. *)
Definition Landmarks := list (list Q).

Definition Qlt_bool (a b : Q) : bool := negb (Qle_bool b a).

(** [a < b] on values that may be [undefined]: the comparison with
    [undefined] converts it to NaN and is false. *)
Definition js_lt (a b : option Q) : bool :=
  match a, b with
  | Some u, Some v => Qlt_bool u v
  | _, _ => false
  end.

(** [landmarks[i][1]].  Indexing the outer array out of range yields
    [undefined], and reading [[1]] of it throws a TypeError: the outer
    [None].  A row that is too short only yields [undefined]. *)
Definition coordY (landmarks : Landmarks) (i : nat) : option (option Q) :=
  match nth_error landmarks i with
  | None => None
  | Some row => Some (nth_error row 1)
  end.

(** [landmarks[tip][1] < landmarks[joint][1]] *)
Definition isExtended (landmarks : Landmarks) (tip joint : nat) : option bool :=
  match coordY landmarks tip, coordY landmarks joint with
  | Some a, Some b => Some (js_lt a b)
  | _, _ => None
  end.

(** The chain of [if]s of [detectGesture], once the five flags are known. *)
Definition classify
    (isThumbExtended isIndexExtended isMiddleExtended
     isRingExtended isPinkyExtended : bool) : string :=
  let extendedCount :=
    List.length (filter (fun b : bool => b)
      [isThumbExtended; isIndexExtended; isMiddleExtended;
       isRingExtended; isPinkyExtended]) in
  if negb isIndexExtended && negb isMiddleExtended
     && negb isRingExtended && negb isPinkyExtended then "fist"
  else if Nat.eqb extendedCount 5 then "palm"
  else if isIndexExtended && negb isMiddleExtended
          && negb isRingExtended && negb isPinkyExtended then "point"
  else if isIndexExtended && isMiddleExtended
          && negb isRingExtended && negb isPinkyExtended then "peace"
  else if isThumbExtended && isIndexExtended && isPinkyExtended
          && negb isMiddleExtended && negb isRingExtended then "rock"
  else "unknown".

(** [detectGesture]; [None] is the TypeError of a landmark array that is
    not empty but lacks one of the rows 2, 4, 6, 8, 10, 12, 14, 16, 18, 20. *)
Definition detectGesture (landmarks : Landmarks) : option string :=
  if Nat.eqb (List.length landmarks) 0 then Some "none"
  else
    match isExtended landmarks 4 2, isExtended landmarks 8 6,
          isExtended landmarks 12 10, isExtended landmarks 16 14,
          isExtended landmarks 20 18 with
    | Some isThumbExtended, Some isIndexExtended, Some isMiddleExtended,
      Some isRingExtended, Some isPinkyExtended =>
        Some (classify isThumbExtended isIndexExtended isMiddleExtended
                       isRingExtended isPinkyExtended)
    | _, _, _, _, _ => None
    end.

(** One landmark row [[0, y, 0]]: only the y-coordinate is ever read. *)
Definition atY (y : Q) : list Q := [0%Q; y; 0%Q].

(** Thumb and index raised (tip above its joint: smaller y), middle, ring
    and pinky folded (tip below its joint).  Rows 0..20 in order; the rows
    the classifier reads are 2/4 (thumb), 6/8 (index), 10/12 (middle),
    14/16 (ring) and 18/20 (pinky). *)
Definition thumbAndIndex : Landmarks :=
  [ atY 0;                                   (* 0  wrist *)
    atY 0; atY 5; atY 0; atY 1;              (* 1-4   thumb:  tip 1 < 5 *)
    atY 0; atY 5; atY 0; atY 1;              (* 5-8   index:  tip 1 < 5 *)
    atY 0; atY 5; atY 0; atY 9;              (* 9-12  middle: tip 9 > 5 *)
    atY 0; atY 5; atY 0; atY 9;              (* 13-16 ring:   tip 9 > 5 *)
    atY 0; atY 5; atY 0; atY 9 ]%Q.          (* 17-20 pinky:  tip 9 > 5 *)

(** ** 2. Data model of the spell system *)

Local Open Scope R_scope.

(** [interface Spell].  [name] and [icon] are display strings outside ASCII;
    they are kept as their ASCII transliteration and never read. *)
Module Spell.
Record t := mk {
  id : string;
  name : string;
  element : string;
  damage : R;
  manaCost : Z;
  color : string;
  particleColor : string;
  gesture : string;
  chargeTime : Z;
  icon : string
}.
End Spell.

(** [interface Target] *)
Module Target.
Record t := mk {
  x : R;
  y : R;
  health : R;
  maxHealth : R
}.
End Target.

(** [interface Particle] *)
Module Particle.
Record t := mk {
  x : R;
  y : R;
  vx : R;
  vy : R;
  life : R;
  color : string;
  size : R
}.
End Particle.

(** [interface SpellProjectile] *)
Module SpellProjectile.
Record t := mk {
  id : Z;
  spell : Spell.t;
  x : R;
  y : R;
  targetX : R;
  targetY : R;
  speed : R;
  particles : list Particle.t
}.
End SpellProjectile.

(** [interface HandKeypoint] and [interface HandData] (src/types/hand.ts) *)
Module HandKeypoint.
Record t := mk {
  x : R;
  y : R;
  z : R;
  name : string
}.
End HandKeypoint.

Module HandData.
Record t := mk {
  keypoints : list HandKeypoint.t;
  gesture : string;
  confidence : R;
  topLeft : R * R;
  bottomRight : R * R
}.
End HandData.

(** [const SPELLS] *)
Definition fireball : Spell.t :=
  Spell.mk "fireball" "Fireball" "fire" 30 15 "#ff6b35" "#ffa500"
           "point" 1000 "fire".

Definition waterwave : Spell.t :=
  Spell.mk "waterwave" "Water Wave" "water" 20 10 "#4fc3f7" "#29b6f6"
           "peace" 800 "water".

Definition lightning : Spell.t :=
  Spell.mk "lightning" "Lightning" "lightning" 40 20 "#ffd54f" "#ffeb3b"
           "rock" 1500 "lightning".

Definition SPELLS : list Spell.t := [fireball; waterwave; lightning].

(** Everything the callbacks read or write: the [useState] cells of [App]
    and of [MagicSpellSystem], its [useRef] cells, the timeouts that are
    pending, and the browser window. *)
Record World := mkWorld {
  (* App.tsx, useState *)
  mana : Z;
  experience : Z;
  level : Z;
  (* MagicSpellSystem.tsx, useState *)
  scarecrow : Target.t;
  projectiles : list SpellProjectile.t;
  currentSpell : option Spell.t;
  isCharging : bool;
  chargeProgress : R;
  comboCount : Z;
  hitCount : Z;
  (* MagicSpellSystem.tsx, useRef *)
  chargeStartTime : Z;
  lastGestureRef : string;
  comboCountRef : Z;
  (* setTimeout callbacks not yet fired: combo decay (5000 ms) and
     respawn (1500 ms).  All callbacks of one kind do the same thing, so a
     count is enough. *)
  comboTimers : nat;
  respawnTimers : nat;
  (* which closure [handleExperienceGain] is: App.tsx builds a new one on
     every render of [App] (it is not wrapped in useCallback) *)
  onExperienceGain : nat;
  (* the dependency array [scarecrow.health, onExperienceGain] as the
     respawn effect last saw it; [None] before the first commit *)
  respawnDeps : option (R * nat);
  (* window.innerWidth, window.innerHeight *)
  innerWidth : R;
  innerHeight : R
}.

(** Writes to single cells ([setMana], [setScarecrow], [ref.current = ...]). *)
Definition setMana (v : Z) (w : World) : World :=
  mkWorld v (experience w) (level w) (scarecrow w) (projectiles w)
    (currentSpell w) (isCharging w) (chargeProgress w) (comboCount w)
    (hitCount w) (chargeStartTime w) (lastGestureRef w) (comboCountRef w)
    (comboTimers w) (respawnTimers w) (onExperienceGain w) (respawnDeps w)
    (innerWidth w) (innerHeight w).

Definition setExperience (v : Z) (w : World) : World :=
  mkWorld (mana w) v (level w) (scarecrow w) (projectiles w)
    (currentSpell w) (isCharging w) (chargeProgress w) (comboCount w)
    (hitCount w) (chargeStartTime w) (lastGestureRef w) (comboCountRef w)
    (comboTimers w) (respawnTimers w) (onExperienceGain w) (respawnDeps w)
    (innerWidth w) (innerHeight w).

Definition setLevel (v : Z) (w : World) : World :=
  mkWorld (mana w) (experience w) v (scarecrow w) (projectiles w)
    (currentSpell w) (isCharging w) (chargeProgress w) (comboCount w)
    (hitCount w) (chargeStartTime w) (lastGestureRef w) (comboCountRef w)
    (comboTimers w) (respawnTimers w) (onExperienceGain w) (respawnDeps w)
    (innerWidth w) (innerHeight w).

Definition setScarecrow (v : Target.t) (w : World) : World :=
  mkWorld (mana w) (experience w) (level w) v (projectiles w)
    (currentSpell w) (isCharging w) (chargeProgress w) (comboCount w)
    (hitCount w) (chargeStartTime w) (lastGestureRef w) (comboCountRef w)
    (comboTimers w) (respawnTimers w) (onExperienceGain w) (respawnDeps w)
    (innerWidth w) (innerHeight w).

Definition setProjectiles (v : list SpellProjectile.t) (w : World) : World :=
  mkWorld (mana w) (experience w) (level w) (scarecrow w) v
    (currentSpell w) (isCharging w) (chargeProgress w) (comboCount w)
    (hitCount w) (chargeStartTime w) (lastGestureRef w) (comboCountRef w)
    (comboTimers w) (respawnTimers w) (onExperienceGain w) (respawnDeps w)
    (innerWidth w) (innerHeight w).

Definition setCurrentSpell (v : option Spell.t) (w : World) : World :=
  mkWorld (mana w) (experience w) (level w) (scarecrow w) (projectiles w)
    v (isCharging w) (chargeProgress w) (comboCount w)
    (hitCount w) (chargeStartTime w) (lastGestureRef w) (comboCountRef w)
    (comboTimers w) (respawnTimers w) (onExperienceGain w) (respawnDeps w)
    (innerWidth w) (innerHeight w).

Definition setIsCharging (v : bool) (w : World) : World :=
  mkWorld (mana w) (experience w) (level w) (scarecrow w) (projectiles w)
    (currentSpell w) v (chargeProgress w) (comboCount w)
    (hitCount w) (chargeStartTime w) (lastGestureRef w) (comboCountRef w)
    (comboTimers w) (respawnTimers w) (onExperienceGain w) (respawnDeps w)
    (innerWidth w) (innerHeight w).

Definition setChargeProgress (v : R) (w : World) : World :=
  mkWorld (mana w) (experience w) (level w) (scarecrow w) (projectiles w)
    (currentSpell w) (isCharging w) v (comboCount w)
    (hitCount w) (chargeStartTime w) (lastGestureRef w) (comboCountRef w)
    (comboTimers w) (respawnTimers w) (onExperienceGain w) (respawnDeps w)
    (innerWidth w) (innerHeight w).

Definition setComboCount (v : Z) (w : World) : World :=
  mkWorld (mana w) (experience w) (level w) (scarecrow w) (projectiles w)
    (currentSpell w) (isCharging w) (chargeProgress w) v
    (hitCount w) (chargeStartTime w) (lastGestureRef w) (comboCountRef w)
    (comboTimers w) (respawnTimers w) (onExperienceGain w) (respawnDeps w)
    (innerWidth w) (innerHeight w).

Definition setHitCount (v : Z) (w : World) : World :=
  mkWorld (mana w) (experience w) (level w) (scarecrow w) (projectiles w)
    (currentSpell w) (isCharging w) (chargeProgress w) (comboCount w)
    v (chargeStartTime w) (lastGestureRef w) (comboCountRef w)
    (comboTimers w) (respawnTimers w) (onExperienceGain w) (respawnDeps w)
    (innerWidth w) (innerHeight w).

Definition setChargeStartTime (v : Z) (w : World) : World :=
  mkWorld (mana w) (experience w) (level w) (scarecrow w) (projectiles w)
    (currentSpell w) (isCharging w) (chargeProgress w) (comboCount w)
    (hitCount w) v (lastGestureRef w) (comboCountRef w)
    (comboTimers w) (respawnTimers w) (onExperienceGain w) (respawnDeps w)
    (innerWidth w) (innerHeight w).

Definition setLastGestureRef (v : string) (w : World) : World :=
  mkWorld (mana w) (experience w) (level w) (scarecrow w) (projectiles w)
    (currentSpell w) (isCharging w) (chargeProgress w) (comboCount w)
    (hitCount w) (chargeStartTime w) v (comboCountRef w)
    (comboTimers w) (respawnTimers w) (onExperienceGain w) (respawnDeps w)
    (innerWidth w) (innerHeight w).

Definition setComboCountRef (v : Z) (w : World) : World :=
  mkWorld (mana w) (experience w) (level w) (scarecrow w) (projectiles w)
    (currentSpell w) (isCharging w) (chargeProgress w) (comboCount w)
    (hitCount w) (chargeStartTime w) (lastGestureRef w) v
    (comboTimers w) (respawnTimers w) (onExperienceGain w) (respawnDeps w)
    (innerWidth w) (innerHeight w).

Definition setComboTimers (v : nat) (w : World) : World :=
  mkWorld (mana w) (experience w) (level w) (scarecrow w) (projectiles w)
    (currentSpell w) (isCharging w) (chargeProgress w) (comboCount w)
    (hitCount w) (chargeStartTime w) (lastGestureRef w) (comboCountRef w)
    v (respawnTimers w) (onExperienceGain w) (respawnDeps w)
    (innerWidth w) (innerHeight w).

Definition setRespawnTimers (v : nat) (w : World) : World :=
  mkWorld (mana w) (experience w) (level w) (scarecrow w) (projectiles w)
    (currentSpell w) (isCharging w) (chargeProgress w) (comboCount w)
    (hitCount w) (chargeStartTime w) (lastGestureRef w) (comboCountRef w)
    (comboTimers w) v (onExperienceGain w) (respawnDeps w)
    (innerWidth w) (innerHeight w).

Definition setOnExperienceGain (v : nat) (w : World) : World :=
  mkWorld (mana w) (experience w) (level w) (scarecrow w) (projectiles w)
    (currentSpell w) (isCharging w) (chargeProgress w) (comboCount w)
    (hitCount w) (chargeStartTime w) (lastGestureRef w) (comboCountRef w)
    (comboTimers w) (respawnTimers w) v (respawnDeps w)
    (innerWidth w) (innerHeight w).

Definition setRespawnDeps (v : option (R * nat)) (w : World) : World :=
  mkWorld (mana w) (experience w) (level w) (scarecrow w) (projectiles w)
    (currentSpell w) (isCharging w) (chargeProgress w) (comboCount w)
    (hitCount w) (chargeStartTime w) (lastGestureRef w) (comboCountRef w)
    (comboTimers w) (respawnTimers w) (onExperienceGain w) v
    (innerWidth w) (innerHeight w).

(** The state both components mount with ([useState] and [useRef]
    initialisers), for a window of the given size. *)
Definition initialWorld (width height : R) : World :=
  mkWorld 100 0 1
    (Target.mk (width * 0.75) (height / 2) 500 500)
    [] None false 0 0 0
    0 "none" 0
    0 0
    0 None
    width height.

(** ** 3. The resource ledger (App.tsx) *)

(** [handleExperienceGain]: one level-up at most per call. *)
Definition handleExperienceGain (exp : Z) (w : World) : World :=
  let newExp := (experience w + exp)%Z in
  if (newExp >=? 100)%Z
  then setExperience (newExp - 100) (setLevel (level w + 1) w)
  else setExperience newExp w.

(** The [setInterval] callback, every 1000 ms:
    [setMana(prev => Math.min(100, prev + 2))]. *)
Definition manaRegeneration (w : World) : World :=
  setMana (Z.min 100 (mana w + 2)) w.

(** A render of [App] evaluates [const handleExperienceGain = (exp) => ...]
    again: the child receives a closure it has not seen before. *)
Definition renderApp (w : World) : World :=
  setOnExperienceGain (S (onExperienceGain w)) w.

(** ** 4. The callbacks of MagicSpellSystem *)

(** [castSpell].  A [useCallback] closure over [handData], [scarecrow] and
    [mana] as they were rendered: they are its first arguments.  [now] is
    what [Date.now()] returns.  [None] is the TypeError of
    [handData.keypoints[8].x] on a hand with fewer than nine keypoints.
    The audio playback is fire-and-forget and leaves no trace in the
    state. *)
Definition castSpell (now : Z) (handData : option HandData.t)
    (scarecrow0 : Target.t) (mana0 : Z) (spell : Spell.t) (w : World)
  : option World :=
  match handData with
  | None => Some w
  | Some hd =>
      if (mana0 <? Spell.manaCost spell)%Z then Some w
      else
        let w := setMana (mana0 - Spell.manaCost spell) w in
        match nth_error (HandData.keypoints hd) 8 with
        | None => None
        | Some tip =>
            let projectile :=
              SpellProjectile.mk now spell
                (HandKeypoint.x tip) (HandKeypoint.y tip)
                (Target.x scarecrow0) (Target.y scarecrow0)
                15 [] in
            let w := setProjectiles (projectiles w ++ [projectile]) w in
            let w := setComboCountRef (comboCountRef w + 1) w in
            let w := setComboCount (comboCountRef w) w in
            let w := setComboTimers (S (comboTimers w)) w in
            Some (setCurrentSpell None w)
        end
  end.

(** What [castSpell] writes once past its guard: it pays, spawns one
    projectile at the tip of the index finger, bumps the combo with its
    decay timer and clears the selection. *)
Definition cast (now : Z) (tip : HandKeypoint.t) (scarecrow0 : Target.t)
    (mana0 : Z) (spell : Spell.t) (w : World) : World :=
  setCurrentSpell None
    (setComboTimers (S (comboTimers w))
       (setComboCount (comboCountRef w + 1)
          (setComboCountRef (comboCountRef w + 1)
             (setProjectiles
                (projectiles w ++
                 [SpellProjectile.mk now spell
                    (HandKeypoint.x tip) (HandKeypoint.y tip)
                    (Target.x scarecrow0) (Target.y scarecrow0) 15 []])
                (setMana (mana0 - Spell.manaCost spell) w))))).

(** The callback of the 5000 ms timeout that every cast schedules. *)
Definition comboTimeout (w : World) : World :=
  match comboTimers w with
  | O => w
  | S n =>
      let w := setComboTimers n w in
      let w := setComboCountRef (Z.max 0 (comboCountRef w - 1)) w in
      setComboCount (comboCountRef w) w
  end.

(** The respawn effect: [if (scarecrow.health <= 0) setTimeout(..., 1500)].
    It has no cleanup, so a timeout once scheduled always fires. *)
Definition respawnEffect (w : World) : World :=
  if Rle_dec (Target.health (scarecrow w)) 0
  then setRespawnTimers (S (respawnTimers w)) w
  else w.

(** The callback of one such timeout. *)
Definition respawnTimeout (w : World) : World :=
  match respawnTimers w with
  | O => w
  | S n =>
      let w := setRespawnTimers n w in
      let w := setScarecrow
                 (Target.mk (innerWidth w * 0.75) (innerHeight w / 2) 500 500)
                 w in
      handleExperienceGain 50 w
  end.

(** React compares the dependency array [scarecrow.health, onExperienceGain]
    of the respawn effect with the one of the previous commit. *)
Definition sameDeps (old : option (R * nat)) (new : R * nat) : bool :=
  match old with
  | None => false
  | Some (h, f) =>
      (if Req_dec_T h (fst new) then true else false) && Nat.eqb f (snd new)
  end.

(** A commit of [MagicSpellSystem]: the respawn effect runs when one of its
    dependencies changed. *)
Definition commit (w : World) : World :=
  let deps := (Target.health (scarecrow w), onExperienceGain w) in
  if sameDeps (respawnDeps w) deps then w
  else respawnEffect (setRespawnDeps (Some deps) w).

(** First block of the gesture effect: the gesture changed from a fist to
    something else, and a spell answers to it that mana can pay for. *)
Definition startCharge (now : Z) (gesture : string) (w : World) : World :=
  if (lastGestureRef w =? "fist")%string && negb (gesture =? "fist")%string
     && negb (gesture =? "none")%string
  then
    match find (fun s => (Spell.gesture s =? gesture)%string) SPELLS with
    | Some spell =>
        if (mana w >=? Spell.manaCost spell)%Z
        then setChargeStartTime now
               (setIsCharging true (setCurrentSpell (Some spell) w))
        else w
    | None => w
    end
  else w.

(** The gesture effect.  [isCharging], [currentSpell] and [mana] are the
    rendered values for the whole run (the [set...] calls of the first
    block only take effect at the next render), so the release test reads
    them from [w], while its writes are queued behind those of the first
    block, on [w1]. *)
Definition gestureEffect (now : Z) (handData : option HandData.t) (w : World)
  : option World :=
  match handData with
  | None => Some (setChargeProgress 0 (setIsCharging false w))
  | Some hd =>
      let gesture := HandData.gesture hd in
      let w1 := startCharge now gesture w in
      let released :=
        match currentSpell w with
        | Some spell =>
            if isCharging w && (gesture =? "palm")%string
            then
              match castSpell now handData (scarecrow w) (mana w) spell w1 with
              | Some w2 => Some (setChargeProgress 0 (setIsCharging false w2))
              | None => None
              end
            else Some w1
        | None => Some w1
        end in
      match released with
      | Some w3 => Some (setLastGestureRef gesture w3)
      | None => None
      end
  end.

(** The two states of the cast state machine, as the component shows them:
    the charging ring is drawn, and a palm releases, when
    [isCharging && currentSpell]. *)
Inductive CastState :=
| Idle
| Charging (spell : Spell.t).

Definition castState (w : World) : CastState :=
  match currentSpell w with
  | Some spell => if isCharging w then Charging spell else Idle
  | None => Idle
  end.

(** ** 5. The transitions of the cast state machine *)

(** The five things a run of the gesture effect can do, as a step relation
    read off the branches of [gestureEffect]: the hand is lost; the
    gesture is only noted; a charge starts; a palm release is rejected by
    the guard of [castSpell]; a palm release casts. *)
Inductive Transition (now : Z) (w : World)
  : option HandData.t -> World -> Prop :=
| HandLost :
    Transition now w None (setChargeProgress 0 (setIsCharging false w))
| Noted (hd : HandData.t) :
    startCharge now (HandData.gesture hd) w = w ->
    castState w = Idle \/ HandData.gesture hd <> "palm" ->
    Transition now w (Some hd) (setLastGestureRef (HandData.gesture hd) w)
| ChargeStarted (hd : HandData.t) (spell : Spell.t) :
    lastGestureRef w = "fist" ->
    find (fun s => (Spell.gesture s =? HandData.gesture hd)%string) SPELLS
      = Some spell ->
    (Spell.manaCost spell <= mana w)%Z ->
    Transition now w (Some hd)
      (setLastGestureRef (HandData.gesture hd)
         (setChargeStartTime now
            (setIsCharging true (setCurrentSpell (Some spell) w))))
| ReleaseRejected (hd : HandData.t) (spell : Spell.t) :
    castState w = Charging spell ->
    HandData.gesture hd = "palm" ->
    (mana w < Spell.manaCost spell)%Z ->
    Transition now w (Some hd)
      (setLastGestureRef "palm"
         (setChargeProgress 0 (setIsCharging false w)))
| Released (hd : HandData.t) (spell : Spell.t) (tip : HandKeypoint.t) :
    castState w = Charging spell ->
    HandData.gesture hd = "palm" ->
    (Spell.manaCost spell <= mana w)%Z ->
    nth_error (HandData.keypoints hd) 8 = Some tip ->
    Transition now w (Some hd)
      (setLastGestureRef "palm"
         (setChargeProgress 0
            (setIsCharging false
               (cast now tip (scarecrow w) (mana w) spell w)))).

(** ** 6. The frame callback: projectiles, particles, hits *)

(** [Math.hypot(dx, dy)] *)
Definition hypot (dx dy : R) : R := sqrt (dx * dx + dy * dy).

(** Distance of a projectile to the target point it was given at spawn. *)
Definition distToTarget (p : SpellProjectile.t) : R :=
  hypot (SpellProjectile.targetX p - SpellProjectile.x p)
        (SpellProjectile.targetY p - SpellProjectile.y p).

(** One iteration of the particle loop; [rnd k], [rnd (k+1)], [rnd (k+2)]
    are the three values [Math.random()] returns in it. *)
Definition newParticle (rnd : nat -> R) (k : nat) (p : SpellProjectile.t)
  : Particle.t :=
  Particle.mk (SpellProjectile.x p) (SpellProjectile.y p)
    ((rnd k - 0.5) * 2) ((rnd (k + 1)%nat - 0.5) * 2)
    1 (Spell.particleColor (SpellProjectile.spell p))
    (rnd (k + 2)%nat * 4 + 2).

(** [p => ({...p, x: p.x + p.vx, y: p.y + p.vy, life: p.life - 0.02})] *)
Definition ageParticle (q : Particle.t) : Particle.t :=
  Particle.mk (Particle.x q + Particle.vx q) (Particle.y q + Particle.vy q)
    (Particle.vx q) (Particle.vy q) (Particle.life q - 0.02)
    (Particle.color q) (Particle.size q).

Definition alive (q : Particle.t) : bool :=
  if Rgt_dec (Particle.life q) 0 then true else false.

(** What the [map] callback does with one projectile: it either returns
    [null] after queueing a hit of the computed damage, or the projectile
    moved on by [speed]. *)
Inductive Outcome :=
| Hit (damage : R)
| Moved (p : SpellProjectile.t).

(** The body of the [map] callback.  [combo] is [comboCountRef.current] as
    read during this frame; [k] counts the calls to [Math.random()] made
    so far in the frame. *)
Definition updateProjectile (rnd : nat -> R) (k : nat) (combo : Z)
    (projectile : SpellProjectile.t) : Outcome :=
  let dx := SpellProjectile.targetX projectile - SpellProjectile.x projectile in
  let dy := SpellProjectile.targetY projectile - SpellProjectile.y projectile in
  let dist := hypot dx dy in
  if Rlt_dec dist 30 then
    Hit (Spell.damage (SpellProjectile.spell projectile)
         * (1 + IZR combo * 0.1))
  else
    let newParticles :=
      [newParticle rnd k projectile;
       newParticle rnd (k + 3) projectile;
       newParticle rnd (k + 6) projectile] in
    Moved (SpellProjectile.mk
             (SpellProjectile.id projectile)
             (SpellProjectile.spell projectile)
             (SpellProjectile.x projectile
              + (dx / dist) * SpellProjectile.speed projectile)
             (SpellProjectile.y projectile
              + (dy / dist) * SpellProjectile.speed projectile)
             (SpellProjectile.targetX projectile)
             (SpellProjectile.targetY projectile)
             (SpellProjectile.speed projectile)
             (filter alive
                (map ageParticle
                   (SpellProjectile.particles projectile ++ newParticles)))).

(** [prev.map(...)], left to right; a projectile that moves on consumes
    nine random numbers. *)
Fixpoint updateEach (rnd : nat -> R) (k : nat) (combo : Z)
    (prev : list SpellProjectile.t) : list Outcome :=
  match prev with
  | [] => []
  | projectile :: rest =>
      let o := updateProjectile rnd k combo projectile in
      o :: updateEach rnd (match o with Hit _ => k | Moved _ => k + 9 end)%nat
                      combo rest
  end.

(** [.filter(Boolean)] *)
Fixpoint survivors (os : list Outcome) : list SpellProjectile.t :=
  match os with
  | [] => []
  | Hit _ :: rest => survivors rest
  | Moved p :: rest => p :: survivors rest
  end.

Fixpoint damages (os : list Outcome) : list R :=
  match os with
  | [] => []
  | Hit d :: rest => d :: damages rest
  | Moved _ :: rest => damages rest
  end.

(** The three updates a hit queues:
    [setScarecrow(prev => ({...prev,
                            health: Math.max(0, prev.health - damage)}))],
    [setHitCount(prev => prev + 1)] and [onExperienceGain(5)]. *)
Definition applyHit (w : World) (damage : R) : World :=
  let prev := scarecrow w in
  let w := setScarecrow
             (Target.mk (Target.x prev) (Target.y prev)
                (Rmax 0 (Target.health prev - damage))
                (Target.maxHealth prev)) w in
  let w := setHitCount (hitCount w + 1) w in
  handleExperienceGain 5 w.

(** [updateProjectiles]: one simulation frame. *)
Definition updateProjectiles (rnd : nat -> R) (w : World) : World :=
  match projectiles w with
  | [] => w
  | prev =>
      let outcomes := updateEach rnd 0 (comboCountRef w) prev in
      setProjectiles (survivors outcomes)
        (fold_left applyHit (damages outcomes) w)
  end.

(** ** 7. Vocabulary of the specification *)

(** [ceil]; [Int_part] of the standard library is the floor. *)
Definition ceilZ (r : R) : Z := (- Int_part (- r))%Z.

(** The frame in which a projectile that starts at distance [D] and moves
    15 per frame is resolved as a hit, frames counted from 1: the first
    one that finds it closer than 30, which is frame [floor (D / 15)] from
    30 on.  This is the count in exact arithmetic.  When [D] is a multiple
    of 15 the projectile passes through the distance 30 itself, and a
    double on the other side of 30 is resolved one frame earlier: from
    (675, 220) to (750, 400), 195 away, the doubles are at
    29.999999999999886 in frame 12, where this count says 13. *)
Definition hitFrame (D : R) : nat := Z.to_nat (Z.max 1 (Int_part (D / 15))).

(** The error allowed for a double: a thousandth of a pixel. *)
Definition rounding : R := 1 / 1000.

(** Coordinates of the size of a screen.  Below 100000 a double is exact
    to better than 2e-11, and the errors of a whole flight stay far below
    [rounding]. *)
Definition screenSized (p : SpellProjectile.t) : Prop :=
  -100000 <= SpellProjectile.x p <= 100000 /\
  -100000 <= SpellProjectile.y p <= 100000 /\
  -100000 <= SpellProjectile.targetX p <= 100000 /\
  -100000 <= SpellProjectile.targetY p <= 100000.

(** A distance that is not within [rounding] of 30, 45, 60, ...: on its
    way down in steps of 15 it never comes that close to the hit radius,
    so that no rounding error decides on which side of 30 a frame finds
    the projectile. *)
Definition clearOfBoundary (D : R) : Prop :=
  forall k : Z, (2 <= k)%Z -> rounding <= Rabs (D - 15 * IZR k).

(** The projectiles a frame resolves as hits. *)
Definition colliding (p : SpellProjectile.t) : bool :=
  if Rlt_dec (distToTarget p) 30 then true else false.

(** ** 8. Runs *)

(** The callbacks the browser and React invoke.  The program is
    single-threaded, so an execution is a sequence of them.  A callback
    that reads rendered values ([gestureEffect] and the [castSpell] it
    calls) reads them from the state it starts in: an effect runs on the
    commit of the render it belongs to.  [AppRender] and [Commit] are the
    render of [App] and the commit of [MagicSpellSystem] that follow a
    change of [App]'s state; of the effects that a commit may run, the
    respawn effect is part of [Commit], the gesture effect and the frame
    callback are actions of their own.  [AnimationFrame] is one call of
    [updateProjectiles], one simulation frame: the browser makes one per
    animation frame, and one more is made whenever the projectile effect
    starts again, which it does after every render of [App], its
    dependency [onExperienceGain] being a new function each time.  The
    frames of the charge ring ([updateCharge]) write [chargeProgress]
    only and are not among the actions; [Happening] adds them. *)
Inductive Action :=
| ManaTick                                   (* setInterval, 1000 ms *)
| AppRender                                  (* App re-renders *)
| Commit                                     (* MagicSpellSystem commits *)
| GestureEffect (now : Z) (handData : option HandData.t)
| AnimationFrame (rnd : nat -> R)            (* updateProjectiles() *)
| ComboTimeout                               (* setTimeout, 5000 ms *)
| RespawnTimeout.                            (* setTimeout, 1500 ms *)

Definition act (a : Action) (w : World) : option World :=
  match a with
  | ManaTick => Some (manaRegeneration w)
  | AppRender => Some (renderApp w)
  | Commit => Some (commit w)
  | GestureEffect now handData => gestureEffect now handData w
  | AnimationFrame rnd => Some (updateProjectiles rnd w)
  | ComboTimeout => Some (comboTimeout w)
  | RespawnTimeout => Some (respawnTimeout w)
  end.

(** A run; [None] when a callback threw. *)
Fixpoint run (actions : list Action) (w : World) : option World :=
  match actions with
  | [] => Some w
  | a :: rest =>
      match act a w with
      | Some w' => run rest w'
      | None => None
      end
  end.

(** A projectile through a sequence of frames, each with its own random
    source, random-call offset and combo value: [None] once it has hit. *)
Fixpoint flight (frames : list ((nat -> R) * nat * Z))
    (p : SpellProjectile.t) : option SpellProjectile.t :=
  match frames with
  | [] => Some p
  | (rnd, k, combo) :: rest =>
      match updateProjectile rnd k combo p with
      | Hit _ => None
      | Moved p' => flight rest p'
      end
  end.

(** Consecutive frames of the whole state, one random source each. *)
Definition animate (rnds : list (nat -> R)) (w : World) : World :=
  fold_left (fun w rnd => updateProjectiles rnd w) rnds w.

(** [n] frames in which every random number is 0.5. *)
Definition quietFrames (n : nat) : list (nat -> R) := repeat (fun _ => 0.5) n.

(** ** 9. Sample inputs and states *)

(** A detected hand with all 21 keypoints at one screen position. *)
Definition handAt (x y : R) (gesture : string) : HandData.t :=
  HandData.mk (repeat (HandKeypoint.mk x y 0 "keypoint") 21)
              gesture 1 (x, y) (x, y).

(** The fireball being charged, in a window of 1000 by 800. *)
Definition chargingFireball : World :=
  setLastGestureRef "point"
    (setChargeStartTime 1
       (setIsCharging true
          (setCurrentSpell (Some fireball)
             (setLastGestureRef "fist" (initialWorld 1000 800))))).

(** Ten mana left, a fist just seen, nothing selected. *)
Definition poorAfterFist : World :=
  setLastGestureRef "fist" (setMana 10 (initialWorld 1000 800)).

(** The fireball being charged with only ten mana left. *)
Definition poorCharging : World := setMana 10 chargingFireball.

(** Fist, point, palm, with the hand at a given screen position. *)
Definition castAt (x y : R) : list Action :=
  [GestureEffect 0 (Some (handAt x y "fist"));
   GestureEffect 1 (Some (handAt x y "point"));
   GestureEffect 2 (Some (handAt x y "palm"))].

(** The fireball this spawns in a window of 1000 by 800. *)
Definition fireballFrom (x y : R) : SpellProjectile.t :=
  SpellProjectile.mk 2 fireball x y (1000 * 0.75) (800 / 2) 15 [].

(** The state it leaves the freshly mounted program in: 15 mana spent, the
    fireball in flight, combo 1 with its decay pending. *)
Definition afterCastAt (x y : R) : World :=
  mkWorld 85 0 1
    (Target.mk (1000 * 0.75) (800 / 2) 500 500)
    [fireballFrom x y] None false 0 1 0
    1 "palm" 1
    1 0
    0 None
    1000 800.

(** A fireball cast with the hand on the scarecrow, at (750, 400). *)
Definition fireballAtTarget : SpellProjectile.t := fireballFrom 750 400.

(** One exchange of a fight, in the order of the clock: a fireball is cast
    with the hand on the scarecrow and lands in the next frame, while the
    combo is still 1; five seconds later the combo decays; mana
    regenerates for eight seconds in all; [App] has re-rendered and the
    component has committed. *)
Definition volley : list Action :=
  castAt 750 400
  ++ [AnimationFrame (fun _ => 0)]
  ++ repeat ManaTick 5 ++ [ComboTimeout] ++ repeat ManaTick 3
  ++ [AppRender; Commit].

Fixpoint volleys (n : nat) : list Action :=
  match n with
  | O => []
  | S m => volleys m ++ volley
  end.

(** The state after [n] such exchanges, each worth 33 damage. *)
Definition afterVolleys (n : nat) : World :=
  mkWorld 100 (5 * Z.of_nat n) 1
    (Target.mk (1000 * 0.75) (800 / 2) (500 - 33 * INR n) 500)
    [] None false 0 0 (Z.of_nat n)
    (match n with O => 0 | S _ => 1 end)
    (match n with O => "none" | S _ => "palm" end) 0
    0 0
    n (match n with
       | O => None
       | S _ => Some (500 - 33 * INR n, n)
       end)
    1000 800.

(** Late in the fight: after fifteen exchanges the scarecrow is down to 5
    health and 75 experience has been earned; a sixteenth fireball has
    been cast and is about to land. *)
Definition worn : World :=
  mkWorld 85 75 1
    (Target.mk (1000 * 0.75) (800 / 2) 5 500)
    [fireballAtTarget] None false 0 1 15
    1 "palm" 1
    1 0
    15%nat (Some (5, 15%nat))
    1000 800.

(** The frame that lands it, the render of [App] for the 5 experience, and
    the commit. *)
Definition defeated : World :=
  mkWorld 85 80 1
    (Target.mk (1000 * 0.75) (800 / 2) 0 500)
    [] None false 0 1 16
    1 "palm" 1
    1 1
    16%nat (Some (0, 16%nat))
    1000 800.

(** One regeneration tick later, with its render of [App] and commit. *)
Definition defeatedAndTicked : World :=
  mkWorld 87 80 1
    (Target.mk (1000 * 0.75) (800 / 2) 0 500)
    [] None false 0 1 16
    1 "palm" 1
    1 2
    17%nat (Some (0, 17%nat))
    1000 800.

(** After the pending respawn timeouts have fired. *)
Definition respawned : World :=
  mkWorld 87 80 2
    (Target.mk (1000 * 0.75) (800 / 2) 500 500)
    [] None false 0 1 16
    1 "palm" 1
    1 0
    19%nat (Some (500, 19%nat))
    1000 800.

(** ** 10. Invariants of the runs *)

(** Mana and the cast state machine are as they were. *)
Definition castUntouched (w w' : World) : Prop :=
  mana w' = mana w /\
  currentSpell w' = currentSpell w /\
  isCharging w' = isCharging w.

(** The selected spell is always an entry of the catalogue. *)
Definition spellFromCatalogue (w : World) : Prop :=
  forall spell, currentSpell w = Some spell -> In spell SPELLS.

Definition manaInRange (w : World) : Prop :=
  (0 <= mana w <= 100)%Z /\ spellFromCatalogue w.

(** Mana covers the cost of the spell being charged. *)
Definition chargingAffordable (w : World) : Prop :=
  forall spell,
    castState w = Charging spell -> (Spell.manaCost spell <= mana w)%Z.


(** ** 11. The charge ring *)

(** [updateCharge], the frame callback of the charge effect.  [spell] is
    the [currentSpell] its closure captured; [chargeStartTime] is a ref and
    is read when the callback runs.  The second component says whether the
    callback asked for another frame.  Every spell of the catalogue has a
    positive [chargeTime]; for a [chargeTime] of 0 JavaScript's division
    yields NaN or an infinity, which this definition does not model. *)
Definition updateCharge (now : Z) (spell : Spell.t) (w : World)
  : World * bool :=
  let elapsed := (now - chargeStartTime w)%Z in
  let progress := Rmin (IZR elapsed / IZR (Spell.chargeTime spell)) 1 in
  (setChargeProgress progress w, if Rlt_dec progress 1 then true else false).

(** The charge effect: [if (isCharging && currentSpell) updateCharge()]. *)
Definition chargeEffect (now : Z) (w : World) : World * bool :=
  match currentSpell w with
  | Some spell => if isCharging w then updateCharge now spell w else (w, false)
  | None => (w, false)
  end.

(** ** 12. Hand detection (useTensorFlowHandTracking.ts) *)

(** [const KEYPOINT_NAMES] *)
Definition KEYPOINT_NAMES : list string :=
  ["wrist";
   "thumb_cmc"; "thumb_mcp"; "thumb_ip"; "thumb_tip";
   "index_mcp"; "index_pip"; "index_dip"; "index_tip";
   "middle_mcp"; "middle_pip"; "middle_dip"; "middle_tip";
   "ring_mcp"; "ring_pip"; "ring_dip"; "ring_tip";
   "pinky_mcp"; "pinky_pip"; "pinky_dip"; "pinky_tip"].

(** [interface HandPoseAnnotation], one hand as the handpose model reports
    it.  [handInViewConfidence] may be missing; the [boundingBox] of the
    model is never read. *)
Module HandPoseAnnotation.
Record t := mk {
  handInViewConfidence : option Q;
  landmarks : Landmarks
}.
End HandPoseAnnotation.

(** The callback of [landmarks.map]: a landmark of the video frame becomes
    a keypoint of the window, mirrored horizontally.  [None] when the
    result is no [HandKeypoint]: a coordinate is NaN because the row lacks
    [landmark[0]] or [landmark[1]], or the name is [undefined] because
    [KEYPOINT_NAMES] has no entry [index].  The product and the difference
    are exact here; the program rounds each of them to a double. *)
Definition toKeypoint (windowWidth scaleX scaleY : R) (index : nat)
    (landmark : list Q) : option HandKeypoint.t :=
  match nth_error landmark 0, nth_error landmark 1,
        nth_error KEYPOINT_NAMES index with
  | Some lx, Some ly, Some name =>
      Some (HandKeypoint.mk
              (windowWidth - Q2R lx * scaleX)
              (Q2R ly * scaleY)
              (match nth_error landmark 2 with
               | Some lz => if Qeq_bool lz 0 then 0 else Q2R lz
               | None => 0
               end)
              name)
  | _, _, _ => None
  end.

(** [landmarks.map((landmark, index) => ...)], from [index] on. *)
Fixpoint toKeypoints (windowWidth scaleX scaleY : R) (index : nat)
    (landmarks : Landmarks) : option (list HandKeypoint.t) :=
  match landmarks with
  | [] => Some []
  | landmark :: rest =>
      match toKeypoint windowWidth scaleX scaleY index landmark,
            toKeypoints windowWidth scaleX scaleY (S index) rest with
      | Some keypoint, Some keypoints => Some (keypoint :: keypoints)
      | _, _ => None
      end
  end.

(** [Math.min(...xs)] and [Math.max(...xs)]; [None] is the infinity they
    return for no arguments. *)
Definition spreadMin (xs : list R) : option R :=
  match xs with
  | [] => None
  | x :: rest => Some (fold_left Rmin rest x)
  end.

Definition spreadMax (xs : list R) : option R :=
  match xs with
  | [] => None
  | x :: rest => Some (fold_left Rmax rest x)
  end.

(** What one pass of [detectHands] does to [handData], once the model is
    loaded and the video is ready. *)
Inductive Detection :=
| NoHand                      (* setHandData(null) *)
| Hand (data : HandData.t)    (* setHandData({...}) *)
| Thrown                      (* detectGesture threw: the catch logs it
                                 and handData stays as it was *)
| Irregular.                  (* setHandData with a value that is no
                                 HandData: a coordinate is NaN or
                                 infinite, or a name is undefined *)

(** The body of [detectHands] after [model.estimateHands]: only the first
    hand is used.  A video of width or height 0 makes a scale factor
    infinite or NaN, and with it every coordinate it multiplies. *)
Definition detectHands (windowWidth windowHeight videoWidth videoHeight : R)
    (predictions : list HandPoseAnnotation.t) : Detection :=
  match predictions with
  | [] => NoHand
  | hand :: _ =>
      let landmarks := HandPoseAnnotation.landmarks hand in
      let scaleX := windowWidth / videoWidth in
      let scaleY := windowHeight / videoHeight in
      match detectGesture landmarks with
      | None => Thrown
      | Some gesture =>
          if Req_dec_T videoWidth 0 then Irregular
          else if Req_dec_T videoHeight 0 then Irregular
          else
            match toKeypoints windowWidth scaleX scaleY 0 landmarks with
            | None => Irregular
            | Some keypoints =>
                let xs := map HandKeypoint.x keypoints in
                let ys := map HandKeypoint.y keypoints in
                match spreadMin xs, spreadMax xs,
                      spreadMin ys, spreadMax ys with
                | Some minX, Some maxX, Some minY, Some maxY =>
                    Hand (HandData.mk keypoints gesture
                            (match HandPoseAnnotation.handInViewConfidence
                                     hand with
                             | Some c => if Qeq_bool c 0 then 1 else Q2R c
                             | None => 1
                             end)
                            (minX, minY) (maxX, maxY))
                | _, _, _, _ => Irregular
                end
            end
      end
  end.

(** ** 13. What the components show *)

(** The condition under which [App] shows its "Level Up!" notification:
    [experience >= 100]. *)
Definition levelUpShown (w : World) : bool := (experience w >=? 100)%Z.

(** [const healthPercentage = (health / maxHealth) * 100] (Scarecrow.tsx),
    the width of the health bar in percent. *)
Definition healthPercentage (health maxHealth : R) : R :=
  health / maxHealth * 100.

(** The cells of [Scarecrow] (Scarecrow.tsx), and whether the 500 ms
    timeout of its effect is pending. *)
Module ScarecrowView.
Record t := mk {
  isHit : bool;
  lastDamage : R;
  prevHealthRef : R;
  hitTimer : bool
}.
End ScarecrowView.


(** One run of the effect of [Scarecrow]: first the cleanup that the
    previous run returned ([clearTimeout(timer)], if that run saw a hit),
    then the body. *)
Definition hitEffect (health : R) (v : ScarecrowView.t) : ScarecrowView.t :=
  if Rlt_dec health (ScarecrowView.prevHealthRef v)
  then ScarecrowView.mk true (ScarecrowView.prevHealthRef v - health)
                        health true
  else ScarecrowView.mk (ScarecrowView.isHit v) (ScarecrowView.lastDamage v)
                        health false.

(** A render of [Scarecrow] with the given [health] and the commit that
    follows.  The effect has the dependency array [[health]], and
    [prevHealthRef] holds the health its last run saw. *)
Definition renderScarecrow (health : R) (v : ScarecrowView.t)
  : ScarecrowView.t :=
  if Req_dec_T health (ScarecrowView.prevHealthRef v) then v
  else hitEffect health v.

(** The callback of the timeout: [setIsHit(false)]. *)
Definition hitTimeout (v : ScarecrowView.t) : ScarecrowView.t :=
  if ScarecrowView.hitTimer v
  then ScarecrowView.mk false (ScarecrowView.lastDamage v)
                        (ScarecrowView.prevHealthRef v) false
  else v.


(** ** 14. More vocabulary, samples and invariants *)

(** The answers of the classifier for a hand that has landmarks. *)
Definition GESTURES : list string :=
  ["fist"; "palm"; "point"; "peace"; "rock"; "unknown"].

(** A landmark row with its x sent through [fx] and its y through [fy],
    the rest of the row as it is. *)
Definition moveRow (fx fy : Q -> Q) (landmark : list Q) : list Q :=
  match landmark with
  | x :: y :: rest => fx x :: fy y :: rest
  | [x] => [fx x]
  | [] => []
  end.

(** Two such changes of coordinates.  The first mirrors x in a frame 640
    wide, doubles y and moves it up by 7, all in exact arithmetic.  The
    second rounds y down to a whole number: it keeps the order of the y
    coordinates but makes some of them equal, as the rounding of a product
    of doubles can. *)
Definition mirrored : list Q -> list Q :=
  moveRow (fun x => (640 - x)%Q) (fun y => (2 * y - 7)%Q).

Definition wholePixels : list Q -> list Q :=
  moveRow (fun x => x) (fun y => inject_Z (Qfloor y)).

(** The hand of [thumbAndIndex] with every y squeezed to [4 + y / 10]: thumb
    and index are still raised, by less than half a pixel. *)
Definition nearlyLevel : Landmarks :=
  map (fun row => match row with
                  | [x; y; z] => [x; (4 + y / 10)%Q; z]
                  | _ => row
                  end) thumbAndIndex.

(** A hand of the model in the middle column of a 640 by 480 video,
    showing thumb and index. *)
Definition thumbAndIndexHand : HandPoseAnnotation.t :=
  HandPoseAnnotation.mk (Some (9 # 10)%Q)
    (map (fun row => (320 :: tl row)%Q) thumbAndIndex).

(** Landmark rows that carry no y coordinate. *)
Definition flatHand : Landmarks := repeat [1%Q] 21.

Definition isGestureEffect (a : Action) : bool :=
  match a with
  | GestureEffect _ _ => true
  | _ => false
  end.

(** The cells that only the gesture effect writes are as they were. *)
Definition sessionUntouched (w w' : World) : Prop :=
  lastGestureRef w' = lastGestureRef w /\
  currentSpell w' = currentSpell w /\
  isCharging w' = isCharging w /\
  chargeProgress w' = chargeProgress w /\
  chargeStartTime w' = chargeStartTime w.

(** What can happen between two runs of the gesture effect: a callback of
    the run model, or a frame of a charge loop.  The loop that the charge
    effect starts has no cleanup: [updateCharge] keeps asking for the next
    frame until its progress reaches 1, whether or not the session it was
    started for is still there.  [spell] is the spell its closure
    captured, [now] what [Date.now()] returns in the frame. *)
Inductive Happening :=
| Callback (a : Action)
| ChargeFrame (now : Z) (spell : Spell.t).

Definition happen (h : Happening) (w : World) : option World :=
  match h with
  | Callback a => act a w
  | ChargeFrame now spell => Some (fst (updateCharge now spell w))
  end.

Fixpoint happenings (hs : list Happening) (w : World) : option World :=
  match hs with
  | [] => Some w
  | h :: rest =>
      match happen h w with
      | Some w' => happenings rest w'
      | None => None
      end
  end.

Definition isRerun (h : Happening) : bool :=
  match h with
  | Callback a => isGestureEffect a
  | ChargeFrame _ _ => false
  end.

Definition isChargeFrame (h : Happening) : bool :=
  match h with
  | Callback _ => false
  | ChargeFrame _ _ => true
  end.

(** The cells the gesture effect reads are as they were. *)
Definition sessionKept (w w' : World) : Prop :=
  lastGestureRef w' = lastGestureRef w /\
  currentSpell w' = currentSpell w /\
  isCharging w' = isCharging w /\
  chargeStartTime w' = chargeStartTime w.

(** The combo is the number of casts whose decay is still pending, and the
    displayed copy agrees with the ref. *)
Definition comboCounted (w : World) : Prop :=
  comboCountRef w = Z.of_nat (comboTimers w) /\ comboCount w = comboCountRef w.

(** All experience earned so far: 100 for each level above the first, and
    what the current level holds. *)
Definition totalExperience (w : World) : Z :=
  (100 * (level w - 1) + experience w)%Z.

Definition experienceInRange (w : World) : Prop :=
  (0 <= experience w < 100)%Z /\ (1 <= level w)%Z /\
  (0 <= hitCount w)%Z /\ (5 * hitCount w <= totalExperience w)%Z.

(** What an action earns: 5 for each projectile that a frame resolves as a
    hit, 50 for a respawn timeout that fires. *)
Definition experienceGained (a : Action) (w : World) : Z :=
  match a with
  | AnimationFrame _ =>
      5 * Z.of_nat (List.length (filter colliding (projectiles w)))
  | RespawnTimeout =>
      match respawnTimers w with
      | O => 0
      | S _ => 50
      end
  | _ => 0
  end.


(** One frame, with every random number 0.5, no random number drawn yet
    and combo 1. *)
Definition oneFrame : list ((nat -> R) * nat * Z) :=
  [(fun _ => 0.5, 0%nat, 1%Z)].

(** The view of a scarecrow that was hit for 33 less than 500 ms ago. *)
Definition justHit : ScarecrowView.t := ScarecrowView.mk true 33 467 true.

Definition healthInRange (w : World) : Prop :=
  0 <= Target.health (scarecrow w) <= Target.maxHealth (scarecrow w) /\
  Target.maxHealth (scarecrow w) = 500.

Definition projectilesFromCatalogue (w : World) : Prop :=
  Forall (fun p => In (SpellProjectile.spell p) SPELLS) (projectiles w).

(** The scarecrow stands at its place in a window of the given size, and
    every projectile flies there. *)
Definition aimedAtScarecrow (width height : R) (w : World) : Prop :=
  innerWidth w = width /\ innerHeight w = height /\
  Target.x (scarecrow w) = width * 0.75 /\
  Target.y (scarecrow w) = height / 2 /\
  Forall (fun p => SpellProjectile.targetX p = width * 0.75 /\
                   SpellProjectile.targetY p = height / 2) (projectiles w).

(** The life of a particle that has been aged [j] times: it starts at 1
    and loses 0.02 per frame. *)
Definition lifeAfter (j : nat) : R := 1 - 0.02 * INR j.

(** The ages of the particles of a trail that is [m] frames long, oldest
    first: three particles per frame. *)
Fixpoint ages (m : nat) : list nat :=
  match m with
  | O => []
  | S n => ([S n; S n; S n] ++ ages n)%list
  end.

Definition trailOf (m : nat) (p : SpellProjectile.t) : Prop :=
  map Particle.life (SpellProjectile.particles p) = map lifeAfter (ages m).

Definition trails (w : World) : Prop :=
  Forall (fun p => exists m, (m <= 49)%nat /\ trailOf m p) (projectiles w).

(** * Theorems *)

(** ** Gesture classifier *)

Lemma isExtended_nonempty (ls : Landmarks) (tip joint : nat) (b : bool) :
  isExtended ls tip joint = Some b -> Nat.eqb (List.length ls) 0 = false.
Proof.
  unfold isExtended, coordY. destruct ls as [|row rest]; simpl.
  - destruct tip; discriminate.
  - reflexivity.
Qed.

(** Once the five flags exist, the classifier is [classify] of them. *)
Lemma detectGesture_classify (ls : Landmarks) (t i m r p : bool) :
  isExtended ls 4 2 = Some t ->
  isExtended ls 8 6 = Some i ->
  isExtended ls 12 10 = Some m ->
  isExtended ls 16 14 = Some r ->
  isExtended ls 20 18 = Some p ->
  detectGesture ls = Some (classify t i m r p).
Proof.
  intros Ht Hi Hm Hr Hp. unfold detectGesture.
  rewrite (isExtended_nonempty _ _ _ _ Ht), Ht, Hi, Hm, Hr, Hp.
  reflexivity.
Qed.

(** The point rule never looks at the thumb. *)
Lemma classify_point (t i m r p : bool) :
  classify t i m r p = "point" <->
  i = true /\ m = false /\ r = false /\ p = false.
Proof.
  destruct t, i, m, r, p; vm_compute; split;
    solve [ discriminate | intuition discriminate | intuition reflexivity ].
Qed.

(** C7, as the claim has it, fails: with thumb and index raised and the
    other three digits folded the classifier answers [point], not
    [unknown]. *)
Lemma detectGesture_thumb_index_is_point :
  isExtended thumbAndIndex 4 2 = Some true /\
  isExtended thumbAndIndex 8 6 = Some true /\
  isExtended thumbAndIndex 12 10 = Some false /\
  isExtended thumbAndIndex 16 14 = Some false /\
  isExtended thumbAndIndex 20 18 = Some false /\
  detectGesture thumbAndIndex = Some "point" /\
  detectGesture thumbAndIndex <> Some "unknown".
Proof.
  repeat split; try (vm_compute; reflexivity).
  vm_compute. discriminate.
Qed.

(** C7 (amended): on a hand whose ten landmarks exist, [detectGesture]
    answers [point] exactly when the index is extended and middle, ring and
    pinky are not; the thumb is not consulted, so thumb and index raised
    with the rest folded is [point] as well. *)
Theorem detectGesture_point_iff (ls : Landmarks) (t i m r p : bool) :
  isExtended ls 4 2 = Some t ->
  isExtended ls 8 6 = Some i ->
  isExtended ls 12 10 = Some m ->
  isExtended ls 16 14 = Some r ->
  isExtended ls 20 18 = Some p ->
  (detectGesture ls = Some "point" <->
   i = true /\ m = false /\ r = false /\ p = false)
  /\ (t = true -> i = true -> m = false -> r = false -> p = false ->
      detectGesture ls = Some "point").
Proof.
  intros Ht Hi Hm Hr Hp.
  rewrite (detectGesture_classify ls t i m r p Ht Hi Hm Hr Hp).
  split.
  - rewrite <- classify_point. split.
    + intros H. injection H as H. exact H.
    + intros H. rewrite H. reflexivity.
  - intros -> -> -> -> ->. reflexivity.
Qed.

(** An instance: the hand with thumb and index raised. *)
Lemma detectGesture_point_iff_witness :
  (detectGesture thumbAndIndex = Some "point" <->
   true = true /\ false = false /\ false = false /\ false = false)
  /\ (true = true -> true = true -> false = false -> false = false ->
      false = false -> detectGesture thumbAndIndex = Some "point").
Proof.
  apply (detectGesture_point_iff thumbAndIndex true true false false false);
    vm_compute; reflexivity.
Defined.

(** ** Cast state machine *)

(** Evaluates the writes and reads of single cells, and nothing else: the
    state becomes one record again; numbers are left as they stand. *)
Ltac flat :=
  cbv [setMana setExperience setLevel setScarecrow setProjectiles
       setCurrentSpell setIsCharging setChargeProgress setComboCount
       setHitCount setChargeStartTime setLastGestureRef setComboCountRef
       setComboTimers setRespawnTimers setOnExperienceGain setRespawnDeps
       mana experience level scarecrow projectiles currentSpell isCharging
       chargeProgress comboCount hitCount chargeStartTime lastGestureRef
       comboCountRef comboTimers respawnTimers onExperienceGain respawnDeps
       innerWidth innerHeight
       Target.x Target.y Target.health Target.maxHealth].

Lemma world_eta (w : World) :
  mkWorld (mana w) (experience w) (level w) (scarecrow w) (projectiles w)
    (currentSpell w) (isCharging w) (chargeProgress w) (comboCount w)
    (hitCount w) (chargeStartTime w) (lastGestureRef w) (comboCountRef w)
    (comboTimers w) (respawnTimers w) (onExperienceGain w) (respawnDeps w)
    (innerWidth w) (innerHeight w) = w.
Proof. destruct w; reflexivity. Qed.

Lemma setLastGestureRef_same (g : string) (w : World) :
  lastGestureRef w = g -> setLastGestureRef g w = w.
Proof. intros <-. apply world_eta. Qed.

Lemma find_SPELLS_gesture (g : string) (spell : Spell.t) :
  find (fun s => (Spell.gesture s =? g)%string) SPELLS = Some spell ->
  In spell SPELLS /\ Spell.gesture spell = g.
Proof.
  intros H. apply find_some in H. destruct H as [Hin Heq].
  split; [exact Hin | now apply String.eqb_eq].
Qed.

(** [startCharge] changes something only in its innermost branch. *)
Lemma startCharge_cases (now : Z) (g : string) (w : World) :
  startCharge now g w = w \/
  exists spell,
    lastGestureRef w = "fist" /\ g <> "fist" /\ g <> "none" /\
    find (fun s => (Spell.gesture s =? g)%string) SPELLS = Some spell /\
    (Spell.manaCost spell <= mana w)%Z /\
    startCharge now g w =
      setChargeStartTime now
        (setIsCharging true (setCurrentSpell (Some spell) w)).
Proof.
  unfold startCharge.
  destruct (lastGestureRef w =? "fist")%string eqn:El; [|now left].
  destruct (g =? "fist")%string eqn:Ef; [now left|].
  destruct (g =? "none")%string eqn:En; [now left|]. cbn [andb negb].
  destruct (find _ SPELLS) as [spell|] eqn:Hfind; [|now left].
  destruct (mana w >=? Spell.manaCost spell)%Z eqn:Hm; [|now left].
  right. exists spell.
  apply String.eqb_eq in El. apply String.eqb_neq in Ef, En.
  rewrite Z.geb_leb in Hm. apply Z.leb_le in Hm. repeat split; auto.
Qed.

Lemma startCharge_not_fist (now : Z) (g : string) (w : World) :
  lastGestureRef w <> "fist" -> startCharge now g w = w.
Proof.
  intros H. unfold startCharge. apply String.eqb_neq in H. now rewrite H.
Qed.

Lemma startCharge_fist (now : Z) (w : World) : startCharge now "fist" w = w.
Proof.
  unfold startCharge. now destruct (lastGestureRef w =? "fist")%string.
Qed.

Lemma startCharge_palm (now : Z) (w : World) : startCharge now "palm" w = w.
Proof.
  unfold startCharge. now destruct (lastGestureRef w =? "fist")%string.
Qed.

Lemma startCharge_poor (now : Z) (g : string) (w : World) (spell : Spell.t) :
  find (fun s => (Spell.gesture s =? g)%string) SPELLS = Some spell ->
  (mana w < Spell.manaCost spell)%Z ->
  startCharge now g w = w.
Proof.
  intros Hf Hm. unfold startCharge. rewrite Hf.
  replace (mana w >=? Spell.manaCost spell)%Z with false
    by (symmetry; rewrite Z.geb_leb; apply Z.leb_gt; exact Hm).
  now destruct (_ && _ && _)%bool.
Qed.

Lemma startCharge_point (now : Z) (w : World) :
  lastGestureRef w = "fist" -> (15 <= mana w)%Z ->
  startCharge now "point" w =
  setChargeStartTime now
    (setIsCharging true (setCurrentSpell (Some fireball) w)).
Proof.
  intros Hl Hm. unfold startCharge. rewrite Hl. simpl.
  replace (mana w >=? 15)%Z with true
    by (symmetry; apply Z.geb_le; exact Hm).
  reflexivity.
Qed.

Lemma castState_Charging (w : World) (spell : Spell.t) :
  castState w = Charging spell <->
  isCharging w = true /\ currentSpell w = Some spell.
Proof.
  unfold castState. split.
  - destruct (currentSpell w); [|discriminate].
    destruct (isCharging w); [|discriminate].
    intros H. injection H as ->. now split.
  - intros [-> ->]. reflexivity.
Qed.

(** The guard of [castSpell]: without a hand, or with less mana than the
    spell costs, nothing is written. *)
Lemma castSpell_guard (now : Z) (handData : option HandData.t)
    (scarecrow0 : Target.t) (mana0 : Z) (spell : Spell.t) (w : World) :
  handData = None \/ (mana0 < Spell.manaCost spell)%Z ->
  castSpell now handData scarecrow0 mana0 spell w = Some w.
Proof.
  intros [->|Hm]; [reflexivity|]. unfold castSpell.
  destruct handData; [|reflexivity].
  now replace (mana0 <? Spell.manaCost spell)%Z with true
    by (symmetry; apply Z.ltb_lt; exact Hm).
Qed.

Lemma castSpell_cases (now : Z) (hd : HandData.t)
    (scarecrow0 : Target.t) (mana0 : Z) (spell : Spell.t) (w w2 : World) :
  castSpell now (Some hd) scarecrow0 mana0 spell w = Some w2 ->
  ((mana0 < Spell.manaCost spell)%Z /\ w2 = w) \/
  ((Spell.manaCost spell <= mana0)%Z /\
   exists tip,
     nth_error (HandData.keypoints hd) 8 = Some tip /\
     w2 = cast now tip scarecrow0 mana0 spell w).
Proof.
  unfold castSpell.
  destruct (mana0 <? Spell.manaCost spell)%Z eqn:Hm.
  { intros H. injection H as <-. left. apply Z.ltb_lt in Hm. now split. }
  destruct (nth_error (HandData.keypoints hd) 8) as [tip|] eqn:Htip;
    [|discriminate].
  intros H. injection H as <-. right.
  apply Z.ltb_ge in Hm. split; [exact Hm|]. now exists tip.
Qed.

Lemma castSpell_cast (now : Z) (hd : HandData.t) (tip : HandKeypoint.t)
    (scarecrow0 : Target.t) (mana0 : Z) (spell : Spell.t) (w : World) :
  (Spell.manaCost spell <= mana0)%Z ->
  nth_error (HandData.keypoints hd) 8 = Some tip ->
  castSpell now (Some hd) scarecrow0 mana0 spell w
  = Some (cast now tip scarecrow0 mana0 spell w).
Proof.
  intros Hm Htip. unfold castSpell. rewrite Htip.
  now replace (mana0 <? Spell.manaCost spell)%Z with false
    by (symmetry; apply Z.ltb_ge; exact Hm).
Qed.

(** The release test fails: the effect is [startCharge] and the note of the
    gesture. *)
Lemma gestureEffect_no_release (now : Z) (hd : HandData.t) (w : World) :
  castState w = Idle \/ HandData.gesture hd <> "palm" ->
  gestureEffect now (Some hd) w =
  Some (setLastGestureRef (HandData.gesture hd)
          (startCharge now (HandData.gesture hd) w)).
Proof.
  intros Hrel. unfold gestureEffect.
  destruct Hrel as [Hidle|Hg].
  - unfold castState in Hidle. destruct (currentSpell w); [|reflexivity].
    destruct (isCharging w); [discriminate|reflexivity].
  - apply String.eqb_neq in Hg. rewrite Hg, Bool.andb_false_r.
    destruct (currentSpell w); reflexivity.
Qed.

(** The release test succeeds: a palm while [isCharging && currentSpell]. *)
Lemma gestureEffect_release (now : Z) (hd : HandData.t) (w : World)
    (spell : Spell.t) :
  isCharging w = true ->
  currentSpell w = Some spell ->
  HandData.gesture hd = "palm" ->
  gestureEffect now (Some hd) w =
  match castSpell now (Some hd) (scarecrow w) (mana w) spell w with
  | Some w2 =>
      Some (setLastGestureRef "palm"
              (setChargeProgress 0 (setIsCharging false w2)))
  | None => None
  end.
Proof.
  intros Hc Hs Hg. unfold gestureEffect.
  rewrite Hg, Hs, Hc, startCharge_palm.
  cbn [andb String.eqb Ascii.eqb Bool.eqb].
  destruct (castSpell now (Some hd) (scarecrow w) (mana w) spell w);
    reflexivity.
Qed.

(** The step relation is the gesture effect: every run of the effect that
    returns is one of the five transitions, and every transition is what
    the effect does. *)
Lemma gestureEffect_Transition (now : Z) (handData : option HandData.t)
    (w w' : World) :
  gestureEffect now handData w = Some w' <-> Transition now w handData w'.
Proof.
  split.
  - destruct handData as [hd|].
    2:{ unfold gestureEffect. intros H. injection H as <-. constructor. }
    destruct (castState w) as [|spell] eqn:Hst.
    + rewrite gestureEffect_no_release by (left; exact Hst).
      intros H. injection H as <-.
      destruct (startCharge_cases now (HandData.gesture hd) w)
        as [E|(sp & Hl & _ & _ & Hf & Hm & E)]; rewrite E.
      * apply Noted; [exact E|now left].
      * now apply ChargeStarted.
    + destruct (proj1 (castState_Charging w spell) Hst) as [Hc Hs].
      destruct (string_dec (HandData.gesture hd) "palm") as [Hg|Hg].
      * rewrite (gestureEffect_release now hd w spell Hc Hs Hg).
        destruct (castSpell now (Some hd) (scarecrow w) (mana w) spell w)
          as [w2|] eqn:Hcast; [|discriminate].
        intros H. injection H as <-.
        destruct (castSpell_cases _ _ _ _ _ _ _ Hcast)
          as [[Hm ->]|(Hm & tip & Htip & ->)].
        -- now apply (ReleaseRejected now w hd spell).
        -- now apply (Released now w hd spell tip).
      * rewrite gestureEffect_no_release by (right; exact Hg).
        intros H. injection H as <-.
        destruct (startCharge_cases now (HandData.gesture hd) w)
          as [E|(sp & Hl & _ & _ & Hf & Hm & E)]; rewrite E.
        -- apply Noted; [exact E|now right].
        -- now apply ChargeStarted.
  - intros T. destruct T as [|hd E Hrel|hd spell Hl Hf Hm
                             |hd spell Hst Hg Hm|hd spell tip Hst Hg Hm Htip].
    + reflexivity.
    + rewrite gestureEffect_no_release by exact Hrel. now rewrite E.
    + destruct (find_SPELLS_gesture _ _ Hf) as [Hin Heq].
      rewrite gestureEffect_no_release.
      * unfold startCharge. rewrite Hl, Hf.
        replace (mana w >=? Spell.manaCost spell)%Z with true
          by (symmetry; apply Z.geb_le; exact Hm).
        rewrite <- Heq. simpl in Hin.
        destruct Hin as [<-|[<-|[<-|[]]]]; reflexivity.
      * right. rewrite <- Heq. simpl in Hin.
        destruct Hin as [<-|[<-|[<-|[]]]]; discriminate.
    + destruct (proj1 (castState_Charging w spell) Hst) as [Hc Hs].
      rewrite (gestureEffect_release now hd w spell Hc Hs Hg).
      now rewrite castSpell_guard by (right; exact Hm).
    + destruct (proj1 (castState_Charging w spell) Hst) as [Hc Hs].
      rewrite (gestureEffect_release now hd w spell Hc Hs Hg).
      now rewrite (castSpell_cast now hd tip _ _ _ _ Hm Htip).
Qed.

(** C1: from Idle with mana for the fireball, a fist and then a point start
    charging the fireball (the re-run that the state change triggers
    changes nothing); the palm that follows spends exactly 15 mana, appends
    exactly one fireball projectile, and ends the session, and the re-run
    after it casts nothing further. *)
Theorem fist_point_palm_casts_fireball
    (w : World) (t1 t2 t3 : Z) (fist point palm : HandData.t)
    (tip : HandKeypoint.t) :
  castState w = Idle ->
  (Spell.manaCost fireball <= mana w)%Z ->
  HandData.gesture fist = "fist" ->
  HandData.gesture point = "point" ->
  HandData.gesture palm = "palm" ->
  nth_error (HandData.keypoints palm) 8 = Some tip ->
  exists w1 w2 w3,
    gestureEffect t1 (Some fist) w = Some w1 /\
    gestureEffect t2 (Some point) w1 = Some w2 /\
    castState w2 = Charging fireball /\
    mana w2 = mana w /\ projectiles w2 = projectiles w /\
    (forall t, gestureEffect t (Some point) w2 = Some w2) /\
    gestureEffect t3 (Some palm) w2 = Some w3 /\
    mana w3 = (mana w - 15)%Z /\
    projectiles w3 =
      (projectiles w ++
       [SpellProjectile.mk t3 fireball
          (HandKeypoint.x tip) (HandKeypoint.y tip)
          (Target.x (scarecrow w)) (Target.y (scarecrow w)) 15 []])%list /\
    comboCountRef w3 = (comboCountRef w + 1)%Z /\
    castState w3 = Idle /\
    (forall t, gestureEffect t (Some palm) w3 = Some w3).
Proof.
  intros Hidle Hmana Hf Hp Hpalm Htip.
  pose (w1 := setLastGestureRef "fist" w).
  pose (w2 := setLastGestureRef "point"
                (setChargeStartTime t2
                   (setIsCharging true (setCurrentSpell (Some fireball) w1)))).
  assert (E1 : gestureEffect t1 (Some fist) w = Some w1).
  { rewrite gestureEffect_no_release by (left; exact Hidle).
    rewrite Hf, startCharge_fist. reflexivity. }
  assert (E2 : gestureEffect t2 (Some point) w1 = Some w2).
  { rewrite gestureEffect_no_release
      by (right; rewrite Hp; discriminate).
    rewrite Hp, startCharge_point by (try reflexivity; exact Hmana).
    reflexivity. }
  assert (E3 : gestureEffect t3 (Some palm) w2 =
               match castSpell t3 (Some palm) (scarecrow w2) (mana w2)
                               fireball w2 with
               | Some w' =>
                   Some (setLastGestureRef "palm"
                           (setChargeProgress 0 (setIsCharging false w')))
               | None => None
               end).
  { apply gestureEffect_release; [reflexivity|reflexivity|exact Hpalm]. }
  rewrite (castSpell_cast t3 palm tip _ _ _ _ Hmana Htip) in E3.
  eexists w1, w2, _. split; [exact E1|]. split; [exact E2|].
  split; [reflexivity|]. split; [reflexivity|]. split; [reflexivity|].
  split.
  { intros t. rewrite gestureEffect_no_release
      by (right; rewrite Hp; discriminate).
    rewrite Hp, startCharge_not_fist by (simpl; discriminate).
    rewrite setLastGestureRef_same by reflexivity. reflexivity. }
  split; [exact E3|].
  split; [reflexivity|]. split; [reflexivity|]. split; [reflexivity|].
  split; [reflexivity|].
  intros t. rewrite gestureEffect_no_release by (left; reflexivity).
  rewrite Hpalm, startCharge_palm.
  rewrite setLastGestureRef_same by reflexivity. reflexivity.
Qed.

(** An instance: the freshly mounted program in a window of 1000 by 800,
    the palm shown at (120, 90). *)
Lemma fist_point_palm_casts_fireball_witness :
  exists w1 w2 w3,
    gestureEffect 0 (Some (handAt 100 100 "fist")) (initialWorld 1000 800)
      = Some w1 /\
    gestureEffect 1 (Some (handAt 100 100 "point")) w1 = Some w2 /\
    castState w2 = Charging fireball /\
    mana w2 = mana (initialWorld 1000 800) /\
    projectiles w2 = projectiles (initialWorld 1000 800) /\
    (forall t, gestureEffect t (Some (handAt 100 100 "point")) w2 = Some w2) /\
    gestureEffect 2 (Some (handAt 120 90 "palm")) w2 = Some w3 /\
    mana w3 = (mana (initialWorld 1000 800) - 15)%Z /\
    projectiles w3 =
      (projectiles (initialWorld 1000 800) ++
       [SpellProjectile.mk 2 fireball
          (HandKeypoint.x (HandKeypoint.mk 120 90 0 "keypoint"))
          (HandKeypoint.y (HandKeypoint.mk 120 90 0 "keypoint"))
          (Target.x (scarecrow (initialWorld 1000 800)))
          (Target.y (scarecrow (initialWorld 1000 800))) 15 []])%list /\
    comboCountRef w3 = (comboCountRef (initialWorld 1000 800) + 1)%Z /\
    castState w3 = Idle /\
    (forall t, gestureEffect t (Some (handAt 120 90 "palm")) w3 = Some w3).
Proof.
  apply (fist_point_palm_casts_fireball
           (initialWorld 1000 800) 0 1 2
           (handAt 100 100 "fist") (handAt 100 100 "point")
           (handAt 120 90 "palm") (HandKeypoint.mk 120 90 0 "keypoint"));
    try reflexivity.
  simpl. lia.
Defined.

(** C2, as the claim has it, fails: a fist and a point take the freshly
    mounted program to charging the fireball, and a detection cycle
    without a hand then ends the session. *)
Lemma lost_hand_ends_charging :
  run [GestureEffect 0 (Some (handAt 100 100 "fist"));
       GestureEffect 1 (Some (handAt 100 100 "point"))]
      (initialWorld 1000 800)
  = Some chargingFireball /\
  castState chargingFireball = Charging fireball /\
  exists w',
    gestureEffect 2 None chargingFireball = Some w' /\
    castState w' = Idle /\
    castState w' <> castState chargingFireball.
Proof.
  split; [reflexivity|]. split; [reflexivity|].
  eexists. split; [reflexivity|]. split; [reflexivity|]. discriminate.
Qed.

(** C2 (amended): when no hand is detected the gesture effect clears
    [isCharging] and the charge progress, so the machine is Idle
    afterwards whatever it was before, and writes nothing else: the
    selected spell, the remembered last gesture (it is not replaced by
    [none]), mana, projectiles and combo keep their values. *)
Theorem gestureEffect_no_hand (now : Z) (w : World) :
  exists w',
    gestureEffect now None w = Some w' /\
    w' = setChargeProgress 0 (setIsCharging false w) /\
    castState w' = Idle /\
    isCharging w' = false /\ chargeProgress w' = 0 /\
    currentSpell w' = currentSpell w /\
    lastGestureRef w' = lastGestureRef w /\
    mana w' = mana w /\
    projectiles w' = projectiles w /\
    comboCountRef w' = comboCountRef w /\
    scarecrow w' = scarecrow w.
Proof.
  eexists. split; [reflexivity|]. split; [reflexivity|].
  split; [|repeat split].
  unfold castState. simpl. now destruct (currentSpell w).
Qed.

(** C8: a gesture whose spell costs more mana than there is starts
    nothing.  The effect only notes the gesture in [lastGestureRef]; the
    machine stays Idle, and mana, the selected spell, projectiles and
    combo are untouched. *)
Theorem poor_charge_is_rejected
    (now : Z) (hd : HandData.t) (w : World) (spell : Spell.t) :
  castState w = Idle ->
  lastGestureRef w = "fist" ->
  find (fun s => (Spell.gesture s =? HandData.gesture hd)%string) SPELLS
    = Some spell ->
  (mana w < Spell.manaCost spell)%Z ->
  exists w',
    gestureEffect now (Some hd) w = Some w' /\
    w' = setLastGestureRef (HandData.gesture hd) w /\
    castState w' = Idle /\
    mana w' = mana w /\
    isCharging w' = isCharging w /\
    currentSpell w' = currentSpell w /\
    chargeProgress w' = chargeProgress w /\
    projectiles w' = projectiles w /\
    comboCountRef w' = comboCountRef w.
Proof.
  intros Hidle _ Hfind Hm. eexists. split.
  - rewrite gestureEffect_no_release by (left; exact Hidle).
    rewrite (startCharge_poor now _ w spell Hfind Hm). reflexivity.
  - split; [reflexivity|]. split; [exact Hidle|]. repeat split.
Qed.

(** An instance: ten mana, a fist seen, then a point for the fireball that
    costs 15. *)
Lemma poor_charge_is_rejected_witness :
  exists w',
    gestureEffect 7 (Some (handAt 100 100 "point")) poorAfterFist = Some w' /\
    w' = setLastGestureRef (HandData.gesture (handAt 100 100 "point"))
           poorAfterFist /\
    castState w' = Idle /\
    mana w' = mana poorAfterFist /\
    isCharging w' = isCharging poorAfterFist /\
    currentSpell w' = currentSpell poorAfterFist /\
    chargeProgress w' = chargeProgress poorAfterFist /\
    projectiles w' = projectiles poorAfterFist /\
    comboCountRef w' = comboCountRef poorAfterFist.
Proof.
  apply (poor_charge_is_rejected 7 (handAt 100 100 "point")
           poorAfterFist fireball);
    try reflexivity.
Defined.

(** C10: a palm while charging a spell that mana can no longer pay for
    casts nothing (mana, projectiles and combo are as before) and still
    ends the session: the machine is Idle with the progress reset.  The
    other half of the guard, a missing hand, leaves the state to
    [castSpell]'s caller untouched as well. *)
Theorem failed_recheck_consumes_session
    (now : Z) (hd : HandData.t) (w : World) (spell : Spell.t) :
  isCharging w = true ->
  currentSpell w = Some spell ->
  HandData.gesture hd = "palm" ->
  (mana w < Spell.manaCost spell)%Z ->
  (exists w',
     gestureEffect now (Some hd) w = Some w' /\
     w' = setLastGestureRef "palm"
            (setChargeProgress 0 (setIsCharging false w)) /\
     mana w' = mana w /\
     projectiles w' = projectiles w /\
     comboCountRef w' = comboCountRef w /\
     comboCount w' = comboCount w /\
     comboTimers w' = comboTimers w /\
     castState w' = Idle /\
     isCharging w' = false /\
     chargeProgress w' = 0)
  /\ (forall sc m, castSpell now None sc m spell w = Some w).
Proof.
  intros Hc Hs Hg Hm. split; [|reflexivity].
  eexists. split.
  - rewrite (gestureEffect_release now hd w spell Hc Hs Hg).
    rewrite castSpell_guard by (right; exact Hm). reflexivity.
  - split; [reflexivity|]. repeat split.
    unfold castState. simpl. now destruct (currentSpell w).
Qed.

(** An instance: the fireball selected and charging, ten mana, a palm. *)
Lemma failed_recheck_consumes_session_witness :
  (exists w',
     gestureEffect 9 (Some (handAt 100 100 "palm")) poorCharging = Some w' /\
     w' = setLastGestureRef "palm"
            (setChargeProgress 0 (setIsCharging false poorCharging)) /\
     mana w' = mana poorCharging /\
     projectiles w' = projectiles poorCharging /\
     comboCountRef w' = comboCountRef poorCharging /\
     comboCount w' = comboCount poorCharging /\
     comboTimers w' = comboTimers poorCharging /\
     castState w' = Idle /\
     isCharging w' = false /\
     chargeProgress w' = 0)
  /\ (forall sc m, castSpell 9 None sc m fireball poorCharging
                   = Some poorCharging).
Proof.
  apply (failed_recheck_consumes_session 9 (handAt 100 100 "palm")
           poorCharging fireball);
    reflexivity.
Defined.

(** ** What the other callbacks leave alone *)

Lemma handleExperienceGain_frame (exp : Z) (w : World) :
  castUntouched w (handleExperienceGain exp w) /\
  scarecrow (handleExperienceGain exp w) = scarecrow w /\
  projectiles (handleExperienceGain exp w) = projectiles w.
Proof.
  unfold handleExperienceGain, castUntouched.
  destruct (experience w + exp >=? 100)%Z; repeat split.
Qed.

Lemma castUntouched_trans (w1 w2 w3 : World) :
  castUntouched w1 w2 -> castUntouched w2 w3 -> castUntouched w1 w3.
Proof.
  unfold castUntouched. intros (-> & -> & ->) (-> & -> & ->). repeat split.
Qed.

Lemma applyHit_frame (w : World) (d : R) :
  castUntouched w (applyHit w d) /\
  projectiles (applyHit w d) = projectiles w.
Proof.
  unfold applyHit. cbv zeta.
  match goal with |- context [handleExperienceGain 5 ?v] =>
    destruct (handleExperienceGain_frame 5 v) as (Hc & _ & ->);
    split; [|reflexivity];
    apply (castUntouched_trans w v _); [repeat split|exact Hc]
  end.
Qed.

Lemma fold_applyHit_frame (ds : list R) (w : World) :
  castUntouched w (fold_left applyHit ds w) /\
  projectiles (fold_left applyHit ds w) = projectiles w.
Proof.
  revert w. induction ds as [|d ds IH]; intros w; simpl; [repeat split|].
  destruct (IH (applyHit w d)) as [Hc ->].
  destruct (applyHit_frame w d) as [Hc' ->].
  split; [exact (castUntouched_trans _ _ _ Hc' Hc)|reflexivity].
Qed.

(** Frames, timeouts, renders and commits touch neither mana nor the cast
    state machine. *)
Lemma act_castUntouched (a : Action) (w w' : World) :
  act a w = Some w' ->
  match a with
  | ManaTick | GestureEffect _ _ => True
  | _ => castUntouched w w'
  end.
Proof.
  destruct a; simpl; intros H; try exact I; injection H as <-.
  - repeat split.
  - unfold commit, respawnEffect. destruct (sameDeps _ _); [repeat split|].
    destruct (Rle_dec _ 0); repeat split.
  - unfold updateProjectiles. destruct (projectiles w); [repeat split|].
    match goal with |- context [fold_left applyHit ?ds w] =>
      destruct (fold_applyHit_frame ds w) as [Hc _];
      apply (castUntouched_trans w (fold_left applyHit ds w) _);
        [exact Hc|repeat split]
    end.
  - unfold comboTimeout. destruct (comboTimers w); repeat split.
  - unfold respawnTimeout. destruct (respawnTimers w); [repeat split|].
    match goal with |- context [handleExperienceGain 50 ?v] =>
      destruct (handleExperienceGain_frame 50 v) as (Hc & _);
      apply (castUntouched_trans w v _); [repeat split|exact Hc]
    end.
Qed.

Lemma castUntouched_castState (w w' : World) :
  castUntouched w w' -> castState w' = castState w.
Proof. unfold castState. now intros (_ & -> & ->). Qed.

(** ** Mana *)

Lemma SPELLS_cost_nonneg (spell : Spell.t) :
  In spell SPELLS -> (0 <= Spell.manaCost spell)%Z.
Proof.
  simpl. intros [<-|[<-|[<-|[]]]]; simpl; lia.
Qed.

Lemma Charging_from_catalogue (w : World) (spell : Spell.t) :
  spellFromCatalogue w -> castState w = Charging spell -> In spell SPELLS.
Proof.
  intros Hc Hst. apply Hc. now apply castState_Charging in Hst.
Qed.


Lemma act_manaInRange (a : Action) (w w' : World) :
  manaInRange w -> act a w = Some w' -> manaInRange w'.
Proof.
  intros [Hm Hc] H. pose proof (act_castUntouched a w w' H) as Hu.
  unfold manaInRange, spellFromCatalogue.
  destruct a; simpl in H;
    try (destruct Hu as (-> & -> & _); now split).
  - injection H as <-. simpl. split; [lia|exact Hc].
  - apply gestureEffect_Transition in H.
    destruct H as [|hd E Hrel|hd spell Hl Hf Hle
                   |hd spell Hst Hg Hlt|hd spell tip Hst Hg Hle Htip];
      try (split; [exact Hm|exact Hc]).
    + split; [exact Hm|]. intros sp E. simpl in E. injection E as <-.
      apply (find_SPELLS_gesture _ _ Hf).
    + pose proof (SPELLS_cost_nonneg _ (Charging_from_catalogue _ _ Hc Hst)).
      split; [simpl; lia|]. intros sp E. discriminate.
Qed.


Lemma initialWorld_manaInRange (width height : R) :
  manaInRange (initialWorld width height).
Proof. split; [simpl; lia|]. intros spell H. discriminate. Qed.

(** Mana never falls during a charging session: what the session started
    with, it still has at the release. *)
Lemma act_chargingAffordable (a : Action) (w w' : World) :
  manaInRange w -> chargingAffordable w -> act a w = Some w' ->
  chargingAffordable w'.
Proof.
  intros [Hm _] Hinv H. pose proof (act_castUntouched a w w' H) as Hu.
  unfold chargingAffordable.
  destruct a; simpl in H;
    try (intros spell; rewrite (castUntouched_castState _ _ Hu);
         destruct Hu as (-> & _); apply Hinv).
  - injection H as <-. intros spell Hst.
    change (castState (manaRegeneration w)) with (castState w) in Hst.
    specialize (Hinv spell Hst). simpl. lia.
  - apply gestureEffect_Transition in H.
    destruct H as [|hd E Hrel|hd spell Hl Hf Hle
                   |hd spell Hst Hg Hlt|hd spell tip Hst Hg Hle Htip];
      intros sp Hsp.
    + unfold castState in Hsp. simpl in Hsp.
      destruct (currentSpell w); discriminate.
    + exact (Hinv sp Hsp).
    + unfold castState in Hsp. simpl in Hsp. injection Hsp as <-. exact Hle.
    + unfold castState in Hsp. simpl in Hsp.
      destruct (currentSpell w); discriminate.
    + discriminate.
Qed.

Lemma run_chargingAffordable (actions : list Action) (w w' : World) :
  manaInRange w -> chargingAffordable w -> run actions w = Some w' ->
  chargingAffordable w'.
Proof.
  revert w. induction actions as [|a rest IH]; intros w Hm Hinv; simpl.
  - intros H. injection H as <-. exact Hinv.
  - destruct (act a w) as [w1|] eqn:Ha; [|discriminate].
    apply IH.
    + exact (act_manaInRange a w w1 Hm Ha).
    + exact (act_chargingAffordable a w w1 Hm Hinv Ha).
Qed.

(** So the second check of mana, in [castSpell], never fails in a run of
    the program: no reachable state takes the [ReleaseRejected]
    transition. *)
Lemma release_never_rejected
    (width height : R) (actions : list Action) (w : World) (spell : Spell.t) :
  run actions (initialWorld width height) = Some w ->
  castState w = Charging spell ->
  (Spell.manaCost spell <= mana w)%Z.
Proof.
  intros Hrun. apply (run_chargingAffordable actions _ w
                        (initialWorld_manaInRange width height)); [|exact Hrun].
  intros sp H. discriminate.
Qed.



(** ** Flight of a projectile *)

Lemma hypot_nonneg (a b : R) : 0 <= hypot a b.
Proof. apply sqrt_pos. Qed.

Lemma hypot_scale (k a b : R) :
  0 <= k -> hypot (k * a) (k * b) = k * hypot a b.
Proof.
  intros Hk. unfold hypot.
  replace (k * a * (k * a) + k * b * (k * b))
    with ((k * k) * (a * a + b * b)) by ring.
  rewrite sqrt_mult by nra.
  rewrite sqrt_square by exact Hk. reflexivity.
Qed.

Lemma distToTarget_nonneg (p : SpellProjectile.t) : 0 <= distToTarget p.
Proof. apply hypot_nonneg. Qed.

(** Moving by [s] along the normalised direction takes [s] off the
    distance, as long as the step does not overshoot. *)
Lemma step_distance (px py tx ty s : R) :
  let dx := tx - px in
  let dy := ty - py in
  let dist := hypot dx dy in
  0 < dist -> s <= dist ->
  hypot (tx - (px + dx / dist * s)) (ty - (py + dy / dist * s)) = dist - s.
Proof.
  intros dx dy dist Hpos Hs.
  replace (tx - (px + dx / dist * s)) with ((1 - s / dist) * dx)
    by (unfold dx; field; lra).
  replace (ty - (py + dy / dist * s)) with ((1 - s / dist) * dy)
    by (unfold dy; field; lra).
  rewrite hypot_scale.
  - fold dist. field. lra.
  - apply Rmult_le_reg_r with dist; [exact Hpos|].
    replace ((1 - s / dist) * dist) with (dist - s) by (field; lra). lra.
Qed.

Section OneFrame.

Variable rnd : nat -> R.
Variable k : nat.
Variable combo : Z.

Lemma updateProjectile_hit (p : SpellProjectile.t) :
  distToTarget p < 30 ->
  updateProjectile rnd k combo p =
  Hit (Spell.damage (SpellProjectile.spell p) * (1 + IZR combo * 0.1)).
Proof.
  intros H. unfold updateProjectile. fold (distToTarget p).
  destruct (Rlt_dec (distToTarget p) 30); [reflexivity|contradiction].
Qed.

Lemma updateProjectile_moved (p : SpellProjectile.t) :
  30 <= distToTarget p ->
  exists p',
    updateProjectile rnd k combo p = Moved p' /\
    SpellProjectile.targetX p' = SpellProjectile.targetX p /\
    SpellProjectile.targetY p' = SpellProjectile.targetY p /\
    SpellProjectile.speed p' = SpellProjectile.speed p /\
    SpellProjectile.spell p' = SpellProjectile.spell p /\
    (SpellProjectile.speed p <= distToTarget p ->
     distToTarget p' = distToTarget p - SpellProjectile.speed p).
Proof.
  intros H. unfold updateProjectile. fold (distToTarget p).
  destruct (Rlt_dec (distToTarget p) 30) as [Hlt|_]; [lra|].
  eexists. split; [reflexivity|]. repeat split.
  intros Hs. unfold distToTarget at 1. cbn [SpellProjectile.targetX
    SpellProjectile.targetY SpellProjectile.x SpellProjectile.y].
  unfold distToTarget.
  apply (step_distance (SpellProjectile.x p) (SpellProjectile.y p)
           (SpellProjectile.targetX p) (SpellProjectile.targetY p)
           (SpellProjectile.speed p)).
  - fold (distToTarget p). lra.
  - exact Hs.
Qed.

(** A frame does not change the speed. *)
Lemma updateProjectile_speed (p p' : SpellProjectile.t) :
  updateProjectile rnd k combo p = Moved p' ->
  SpellProjectile.speed p' = SpellProjectile.speed p.
Proof.
  unfold updateProjectile. destruct (Rlt_dec _ 30); [discriminate|].
  intros E. injection E as <-. reflexivity.
Qed.

End OneFrame.





Lemma hypot_sqr (a b : R) : hypot a b * hypot a b = a * a + b * b.
Proof. unfold hypot. apply sqrt_sqrt. nra. Qed.

(** The triangle inequality of the plane. *)
Lemma hypot_triangle (a b c d : R) :
  hypot (a + c) (b + d) <= hypot a b + hypot c d.
Proof.
  pose proof (hypot_nonneg a b) as H1.
  pose proof (hypot_nonneg c d) as H2.
  pose proof (hypot_nonneg (a + c) (b + d)) as H3.
  pose proof (hypot_sqr a b) as E1.
  pose proof (hypot_sqr c d) as E2.
  pose proof (hypot_sqr (a + c) (b + d)) as E3.
  assert (CS : a * c + b * d <= hypot a b * hypot c d).
  { destruct (Rle_or_lt (a * c + b * d) 0) as [Hn|Hp]; [nra|].
    apply Rsqr_incr_0_var; [|nra].
    unfold Rsqr.
    replace (hypot a b * hypot c d * (hypot a b * hypot c d))
      with ((hypot a b * hypot a b) * (hypot c d * hypot c d)) by ring.
    rewrite E1, E2.
    pose proof (Rle_0_sqr (a * d - b * c)) as Hsq. unfold Rsqr in Hsq. nra. }
  apply Rsqr_incr_0_var; [|lra]. unfold Rsqr. nra.
Qed.

Lemma hypot_opp (a b : R) : hypot (- a) (- b) = hypot a b.
Proof. unfold hypot. f_equal. ring. Qed.

(** The step is stable: a position within [e] of the one a frame computes
    is within [e] of being 15 closer to the target. *)
Lemma moved_nearby (rnd : nat -> R) (k : nat) (combo : Z)
    (p p' q : SpellProjectile.t) (e : R) :
  SpellProjectile.speed p = 15 ->
  30 <= distToTarget p ->
  updateProjectile rnd k combo p = Moved p' ->
  SpellProjectile.targetX q = SpellProjectile.targetX p ->
  SpellProjectile.targetY q = SpellProjectile.targetY p ->
  hypot (SpellProjectile.x q - SpellProjectile.x p')
        (SpellProjectile.y q - SpellProjectile.y p') <= e ->
  distToTarget p - 15 - e <= distToTarget q <= distToTarget p - 15 + e.
Proof.
  intros Hs Hge E Hx Hy He.
  destruct (updateProjectile_moved rnd k combo p Hge)
    as (p0 & E0 & Hx0 & Hy0 & _ & _ & Hd).
  rewrite E in E0. injection E0 as <-.
  rewrite Hs in Hd. specialize (Hd ltac:(lra)).
  unfold distToTarget in *. rewrite Hx, Hy. rewrite Hx0, Hy0 in Hd.
  set (tx := SpellProjectile.targetX p) in *.
  set (ty := SpellProjectile.targetY p) in *.
  set (x' := SpellProjectile.x p') in *.
  set (y' := SpellProjectile.y p') in *.
  set (qx := SpellProjectile.x q) in *.
  set (qy := SpellProjectile.y q) in *.
  pose proof (hypot_triangle (tx - x') (ty - y') (x' - qx) (y' - qy)) as T1.
  pose proof (hypot_triangle (tx - qx) (ty - qy) (qx - x') (qy - y')) as T2.
  replace (tx - x' + (x' - qx)) with (tx - qx) in T1 by ring.
  replace (ty - y' + (y' - qy)) with (ty - qy) in T1 by ring.
  replace (tx - qx + (qx - x')) with (tx - x') in T2 by ring.
  replace (ty - qy + (qy - y')) with (ty - y') in T2 by ring.
  rewrite <- (hypot_opp (x' - qx) (y' - qy)) in T1.
  replace (- (x' - qx)) with (qx - x') in T1 by ring.
  replace (- (y' - qy)) with (qy - y') in T1 by ring.
  lra.
Qed.





(** [Int_part] is the floor. *)
Lemma Int_part_spec (r : R) (z : Z) :
  IZR z <= r < IZR z + 1 -> Int_part r = z.
Proof.
  intros [Hlo Hhi]. unfold Int_part.
  assert (E : (z + 1)%Z = up r).
  { apply tech_up; rewrite plus_IZR; simpl; lra. }
  rewrite <- E. lia.
Qed.

Lemma Int_part_bounds (r : R) : IZR (Int_part r) <= r < IZR (Int_part r) + 1.
Proof. destruct (base_Int_part r). lra. Qed.

Lemma floor_le_ceil (r : R) :
  (Int_part r <= ceilZ r <= Int_part r + 1)%Z.
Proof.
  unfold ceilZ.
  pose proof (Int_part_bounds r) as [H1 H2].
  pose proof (Int_part_bounds (- r)) as [H3 H4].
  split.
  - apply le_IZR. rewrite opp_IZR. lra.
  - apply Z.lt_succ_r. apply lt_IZR.
    unfold Z.succ. rewrite !plus_IZR, opp_IZR. simpl. lra.
Qed.

(** Below two steps' distance the projectile is within the hit radius. *)
Lemma hitFrame_near (D : R) : 0 <= D -> D < 30 -> hitFrame D = 1%nat.
Proof.
  intros H0 H. unfold hitFrame.
  assert (Int_part (D / 15) <= 1)%Z.
  { apply Z.lt_succ_r. apply lt_IZR.
    pose proof (Int_part_bounds (D / 15)) as [Hlo _].
    unfold Z.succ. rewrite plus_IZR. simpl. lra. }
  replace (Z.max 1 (Int_part (D / 15))) with 1%Z by lia. reflexivity.
Qed.

Lemma hitFrame_far (D : R) : 30 <= D -> hitFrame D = S (hitFrame (D - 15)).
Proof.
  intros H. unfold hitFrame.
  pose proof (Int_part_bounds ((D - 15) / 15)) as [Hlo Hhi].
  assert (E : Int_part (D / 15) = (Int_part ((D - 15) / 15) + 1)%Z).
  { apply Int_part_spec. rewrite plus_IZR. simpl. lra. }
  assert (1 <= Int_part ((D - 15) / 15))%Z.
  { apply Z.lt_pred_le. apply lt_IZR. simpl. lra. }
  rewrite E. rewrite !Z.max_r by lia.
  rewrite Z2Nat.inj_add by lia. simpl. lia.
Qed.

(** A projectile of speed 15 is gone after [frames] exactly when there are
    at least [hitFrame] of them. *)
Lemma flight_hitFrame (frames : list ((nat -> R) * nat * Z))
    (p : SpellProjectile.t) :
  SpellProjectile.speed p = 15 ->
  (flight frames p = None <->
   (hitFrame (distToTarget p) <= List.length frames)%nat).
Proof.
  revert p. induction frames as [|[[rnd k] combo] rest IH]; intros p Hs.
  - simpl. split; [discriminate|].
    intros H. exfalso. unfold hitFrame in H.
    assert (0 < Z.to_nat (Z.max 1 (Int_part (distToTarget p / 15))))%nat
      by (apply Nat2Z.inj_lt; rewrite Z2Nat.id; lia).
    lia.
  - cbn [flight List.length].
    destruct (Rlt_dec (distToTarget p) 30) as [Hlt|Hge].
    + rewrite (updateProjectile_hit rnd k combo p Hlt).
      rewrite (hitFrame_near _ (distToTarget_nonneg p) Hlt).
      split; [lia|reflexivity].
    + apply Rnot_lt_le in Hge.
      destruct (updateProjectile_moved rnd k combo p Hge)
        as (p' & E & _ & _ & Hsp & _ & Hd).
      rewrite E, (hitFrame_far _ Hge).
      rewrite Hs in Hd, Hsp.
      rewrite <- Hd by lra.
      rewrite (IH p' Hsp). lia.
Qed.

(** A state with one projectile in flight, through one frame. *)
Lemma updateProjectiles_single (rnd : nat -> R) (w : World)
    (p : SpellProjectile.t) :
  projectiles w = [p] ->
  updateProjectiles rnd w =
  match updateProjectile rnd 0 (comboCountRef w) p with
  | Hit d => setProjectiles [] (applyHit w d)
  | Moved p' => setProjectiles [p'] w
  end.
Proof.
  intros Hp. unfold updateProjectiles. rewrite Hp. cbn [updateEach].
  destruct (updateProjectile rnd 0 (comboCountRef w) p); reflexivity.
Qed.

Lemma updateProjectiles_single_hit (rnd : nat -> R) (w : World)
    (p : SpellProjectile.t) :
  projectiles w = [p] -> distToTarget p < 30 ->
  updateProjectiles rnd w =
  setProjectiles []
    (applyHit w (Spell.damage (SpellProjectile.spell p)
                 * (1 + IZR (comboCountRef w) * 0.1))).
Proof.
  intros Hp Hlt. rewrite (updateProjectiles_single rnd w p Hp).
  now rewrite (updateProjectile_hit rnd 0 _ p Hlt).
Qed.

Lemma applyHit_hitCount (w : World) (d : R) :
  hitCount (applyHit w d) = (hitCount w + 1)%Z.
Proof.
  unfold applyHit, handleExperienceGain. cbv zeta.
  match goal with |- context [if ?c then _ else _] => destruct c end;
    reflexivity.
Qed.

Lemma hitFrame_pos (D : R) : (1 <= hitFrame D)%nat.
Proof.
  unfold hitFrame. apply Nat2Z.inj_le. rewrite Z2Nat.id; lia.
Qed.

(** The same through consecutive frames: the projectile is in the list,
    moved on, for fewer than [hitFrame] frames, and frame number
    [hitFrame] takes it out of the list and counts one hit. *)
Lemma animate_single (rnds : list (nat -> R)) (w : World)
    (p : SpellProjectile.t) :
  projectiles w = [p] ->
  SpellProjectile.speed p = 15 ->
  ((List.length rnds < hitFrame (distToTarget p))%nat ->
   exists p',
     projectiles (animate rnds w) = [p'] /\
     hitCount (animate rnds w) = hitCount w) /\
  (List.length rnds = hitFrame (distToTarget p) ->
   projectiles (animate rnds w) = [] /\
   hitCount (animate rnds w) = (hitCount w + 1)%Z).
Proof.
  revert w p. induction rnds as [|rnd rest IH]; intros w p Hp Hs.
  - pose proof (hitFrame_pos (distToTarget p)). split.
    + intros _. now exists p.
    + simpl. lia.
  - unfold animate. cbn [fold_left List.length]. fold (animate rest).
    rewrite (updateProjectiles_single rnd w p Hp).
    destruct (Rlt_dec (distToTarget p) 30) as [Hlt|Hge].
    + rewrite (updateProjectile_hit rnd 0 _ p Hlt).
      rewrite (hitFrame_near _ (distToTarget_nonneg p) Hlt).
      split; [lia|]. intros Hlen. destruct rest; [|discriminate].
      split; [reflexivity|]. simpl. apply applyHit_hitCount.
    + apply Rnot_lt_le in Hge.
      destruct (updateProjectile_moved rnd 0 (comboCountRef w) p Hge)
        as (p' & E & _ & _ & Hsp & _ & Hd).
      rewrite E, (hitFrame_far _ Hge).
      rewrite Hs in Hd, Hsp. rewrite <- Hd by lra.
      destruct (IH (setProjectiles [p'] w) p' eq_refl Hsp) as [IH1 IH2].
      split; intros Hlen.
      * apply IH1. lia.
      * apply IH2. lia.
Qed.

(** Two flights worked out.  From 45 away the projectile moves to 30, which
    is not yet inside the radius, then to 15, and is resolved in frame 3,
    which is [ceil (45 / 15)].  From 50 away it moves to 35 and to 20 and
    is resolved in frame 3 as well, one frame before [ceil (50 / 15) = 4]. *)
Example hitFrame_45_50 :
  hitFrame 45 = 3%nat /\ ceilZ (45 / 15) = 3%Z /\
  hitFrame 50 = 3%nat /\ ceilZ (50 / 15) = 4%Z.
Proof.
  unfold hitFrame, ceilZ.
  rewrite (Int_part_spec (45 / 15) 3) by (simpl; lra).
  rewrite (Int_part_spec (- (45 / 15)) (-3)) by (simpl; lra).
  rewrite (Int_part_spec (50 / 15) 3) by (simpl; lra).
  rewrite (Int_part_spec (- (50 / 15)) (-4)) by (simpl; lra).
  repeat split.
Qed.

(** Away from the multiples of 15, and from 30 on, the frame of the hit is
    the one before [ceil (D / 15)]. *)
Lemma hitFrame_ceil (D : R) :
  30 <= D -> clearOfBoundary D ->
  Z.of_nat (hitFrame D) = (ceilZ (D / 15) - 1)%Z.
Proof.
  intros Hge Hclear. unfold hitFrame, ceilZ.
  pose proof (Int_part_bounds (D / 15)) as [Hlo Hhi].
  assert (H2 : (2 <= Int_part (D / 15))%Z).
  { apply Z.lt_pred_le. apply lt_IZR. simpl. lra. }
  rewrite Z2Nat.id by lia. rewrite Z.max_r by lia.
  pose proof (Hclear (Int_part (D / 15)) H2) as Hk.
  unfold rounding in Hk.
  assert (Hpos : 0 <= D - 15 * IZR (Int_part (D / 15))) by lra.
  rewrite (Rabs_pos_eq _ Hpos) in Hk.
  rewrite (Int_part_spec (- (D / 15)) (- Int_part (D / 15) - 1)); [lia|].
  unfold Z.sub. rewrite plus_IZR, opp_IZR. simpl. lra.
Qed.

(** The fireball cast from (100, 100) starts between 715 and 716 away,
    clear of 705 and of 720. *)
Lemma fireballFrom_100_100_distance :
  715 < distToTarget (fireballFrom 100 100) < 716.
Proof.
  unfold distToTarget, hypot. simpl.
  replace ((1000 * 0.75 - 100) * (1000 * 0.75 - 100)
           + (800 / 2 - 100) * (800 / 2 - 100)) with 512500 by lra.
  split.
  - rewrite <- (sqrt_square 715) at 1 by lra. apply sqrt_lt_1_alt. lra.
  - rewrite <- (sqrt_square 716) at 1 by lra. apply sqrt_lt_1_alt. lra.
Qed.

Lemma fireballFrom_100_100_clear :
  clearOfBoundary (distToTarget (fireballFrom 100 100)).
Proof.
  intros k _. pose proof fireballFrom_100_100_distance as [Hlo Hhi].
  unfold rounding.
  destruct (Z_le_gt_dec k 47) as [Hk|Hk].
  - apply IZR_le in Hk. rewrite Rabs_pos_eq; lra.
  - assert (Hk' : (48 <= k)%Z) by lia. apply IZR_le in Hk'.
    rewrite Rabs_left; lra.
Qed.

(** The fireball cast from (700, 400) starts 50 away, level with its
    target. *)
Lemma fireballFrom_700_400_distance : distToTarget (fireballFrom 700 400) = 50.
Proof.
  unfold distToTarget, hypot. simpl.
  replace ((1000 * 0.75 - 700) * (1000 * 0.75 - 700)
           + (800 / 2 - 400) * (800 / 2 - 400)) with (50 * 50) by lra.
  apply sqrt_square. lra.
Qed.

(** C6, the count of the claim fails: the fireball that the first cast of
    the program sends from (700, 400) in a window of 1000 by 800 starts
    50 away from its target at speed 15, and [ceil (50 / 15)] is 4; it is
    in flight after two frames, at 35 and then at 20, and the third frame
    resolves it as a hit and removes it.  The flight is level, so that the
    doubles of the program take exactly these values. *)
Lemma ceil_frame_count_refuted :
  let w := afterCastAt 700 400 in
  run (castAt 700 400) (initialWorld 1000 800) = Some w /\
  projectiles w = [fireballFrom 700 400] /\
  SpellProjectile.speed (fireballFrom 700 400) = 15 /\
  distToTarget (fireballFrom 700 400) = 50 /\
  ceilZ (50 / 15) = 4%Z /\
  (exists p', projectiles (animate (quietFrames 2) w) = [p']) /\
  projectiles (animate (quietFrames 3) w) = [] /\
  hitCount (animate (quietFrames 3) w) = (hitCount w + 1)%Z.
Proof.
  cbv zeta.
  destruct hitFrame_45_50 as (_ & _ & H50 & Hceil).
  pose proof fireballFrom_700_400_distance as HD.
  split; [reflexivity|]. split; [reflexivity|]. split; [reflexivity|].
  split; [exact HD|]. split; [exact Hceil|].
  destruct (animate_single (quietFrames 2) (afterCastAt 700 400)
              (fireballFrom 700 400) eq_refl eq_refl) as [Hin _].
  destruct (animate_single (quietFrames 3) (afterCastAt 700 400)
              (fireballFrom 700 400) eq_refl eq_refl) as [_ Hout].
  rewrite HD, H50 in Hin, Hout.
  split.
  - destruct Hin as (p' & Hp & _); [simpl; lia|]. now exists p'.
  - apply Hout. reflexivity.
Qed.

(** C6, amended: a projectile with the speed it is spawned with, 15, at
    coordinates of the size of a screen and at a distance [D] from its
    target that is clear of 30, 45, 60, ..., is still in flight after
    every run of fewer than [n = max 1 (floor (D / 15))] simulation
    frames, and frame number [n] resolves it as a hit and takes it out of
    the list of the state.  From 30 on, [n] is [ceil (D / 15) - 1]: the
    hit radius is two steps wide.  Below 30 the first frame resolves
    it. *)
Theorem projectile_hits_at_hitFrame (p : SpellProjectile.t) :
  SpellProjectile.speed p = 15 ->
  screenSized p ->
  clearOfBoundary (distToTarget p) ->
  let D := distToTarget p in
  let n := hitFrame D in
  (forall frames,
     (List.length frames < n)%nat -> flight frames p <> None) /\
  (forall frames,
     (n <= List.length frames)%nat -> flight frames p = None) /\
  (forall frames p' rnd k combo,
     S (List.length frames) = n -> flight frames p = Some p' ->
     exists d, updateProjectile rnd k combo p' = Hit d) /\
  (forall w rnds,
     projectiles w = [p] ->
     ((List.length rnds < n)%nat ->
      exists p', projectiles (animate rnds w) = [p'] /\
                 hitCount (animate rnds w) = hitCount w) /\
     (List.length rnds = n ->
      projectiles (animate rnds w) = [] /\
      hitCount (animate rnds w) = (hitCount w + 1)%Z)) /\
  Z.of_nat n = Z.max 1 (Int_part (D / 15)) /\
  (30 <= D -> Z.of_nat n = (ceilZ (D / 15) - 1)%Z) /\
  (D < 30 -> n = 1%nat).
Proof.
  intros Hs _ Hclear D n.
  split; [|split; [|split; [|split; [|split; [|split]]]]].
  - intros frames Hlt Hnone.
    apply (flight_hitFrame frames p Hs) in Hnone.
    fold D in Hnone. fold n in Hnone. lia.
  - intros frames Hle. apply (flight_hitFrame frames p Hs). exact Hle.
  - intros frames p' rnd k combo Hlen Hfl.
    assert (Hnext : flight (frames ++ [(rnd, k, combo)]) p = None).
    { apply (flight_hitFrame _ p Hs). rewrite length_app. simpl.
      fold D. fold n. lia. }
    clear Hlen Hclear. revert p Hs D n Hfl Hnext.
    induction frames as [|[[r1 k1] c1] rest IH]; intros p Hs D n Hfl Hnext.
    + simpl in Hfl. injection Hfl as <-. simpl in Hnext.
      destruct (updateProjectile rnd k combo p) as [d|q]; [now exists d|].
      discriminate.
    + simpl in Hfl, Hnext.
      destruct (updateProjectile r1 k1 c1 p) as [d|q] eqn:E; [discriminate|].
      assert (Hq : SpellProjectile.speed q = 15)
        by now rewrite (updateProjectile_speed _ _ _ _ _ E).
      exact (IH q Hq Hfl Hnext).
  - intros w rnds Hp. exact (animate_single rnds w p Hp Hs).
  - unfold n, hitFrame. rewrite Z2Nat.id by lia. reflexivity.
  - intros Hge. exact (hitFrame_ceil D Hge Hclear).
  - intros Hlt. exact (hitFrame_near D (distToTarget_nonneg p) Hlt).
Qed.

(** An instance: the fireball cast from (100, 100) in a window of 1000 by
    800, between 715 and 716 away. *)
Lemma projectile_hits_at_hitFrame_witness :
  let D := distToTarget (fireballFrom 100 100) in
  let n := hitFrame D in
  (forall frames,
     (List.length frames < n)%nat ->
     flight frames (fireballFrom 100 100) <> None) /\
  (forall frames,
     (n <= List.length frames)%nat ->
     flight frames (fireballFrom 100 100) = None) /\
  (forall frames p' rnd k combo,
     S (List.length frames) = n ->
     flight frames (fireballFrom 100 100) = Some p' ->
     exists d, updateProjectile rnd k combo p' = Hit d) /\
  (forall w rnds,
     projectiles w = [fireballFrom 100 100] ->
     ((List.length rnds < n)%nat ->
      exists p', projectiles (animate rnds w) = [p'] /\
                 hitCount (animate rnds w) = hitCount w) /\
     (List.length rnds = n ->
      projectiles (animate rnds w) = [] /\
      hitCount (animate rnds w) = (hitCount w + 1)%Z)) /\
  Z.of_nat n = Z.max 1 (Int_part (D / 15)) /\
  (30 <= D -> Z.of_nat n = (ceilZ (D / 15) - 1)%Z) /\
  (D < 30 -> n = 1%nat).
Proof.
  apply (projectile_hits_at_hitFrame (fireballFrom 100 100)).
  - reflexivity.
  - repeat split; simpl; lra.
  - exact fireballFrom_100_100_clear.
Defined.

(** ** Hits *)

Lemma colliding_true (p : SpellProjectile.t) :
  colliding p = true <-> distToTarget p < 30.
Proof.
  unfold colliding. destruct (Rlt_dec (distToTarget p) 30); split;
    intros; try assumption; try reflexivity; try discriminate; contradiction.
Qed.

(** The damages a frame queues are those of the colliding projectiles, in
    order, each at the combo value read in this frame. *)
Lemma damages_updateEach (rnd : nat -> R) (combo : Z)
    (ps : list SpellProjectile.t) (k : nat) :
  damages (updateEach rnd k combo ps) =
  map (fun p => Spell.damage (SpellProjectile.spell p)
                * (1 + IZR combo * 0.1))
      (filter colliding ps).
Proof.
  revert k. induction ps as [|p ps IH]; intros k; simpl; [reflexivity|].
  unfold colliding at 1. unfold updateProjectile at 1 2.
  fold (distToTarget p).
  destruct (Rlt_dec (distToTarget p) 30); simpl; rewrite IH; reflexivity.
Qed.

Lemma scarecrow_applyHit (w : World) (d : R) :
  scarecrow (applyHit w d) =
  Target.mk (Target.x (scarecrow w)) (Target.y (scarecrow w))
    (Rmax 0 (Target.health (scarecrow w) - d))
    (Target.maxHealth (scarecrow w)).
Proof.
  unfold applyHit. cbv zeta.
  match goal with |- context [handleExperienceGain 5 ?v] =>
    destruct (handleExperienceGain_frame 5 v) as (_ & -> & _) end.
  reflexivity.
Qed.

Lemma health_fold_applyHit (ds : list R) (w : World) :
  Target.health (scarecrow (fold_left applyHit ds w)) =
  fold_left (fun h d => Rmax 0 (h - d)) ds (Target.health (scarecrow w)).
Proof.
  revert w. induction ds as [|d ds IH]; intros w; simpl; [reflexivity|].
  rewrite IH, scarecrow_applyHit. reflexivity.
Qed.

(** The health a frame leaves behind. *)
Lemma updateProjectiles_health (rnd : nat -> R) (w : World) :
  Target.health (scarecrow (updateProjectiles rnd w)) =
  fold_left (fun h d => Rmax 0 (h - d))
    (map (fun p => Spell.damage (SpellProjectile.spell p)
                   * (1 + IZR (comboCountRef w) * 0.1))
         (filter colliding (projectiles w)))
    (Target.health (scarecrow w)).
Proof.
  unfold updateProjectiles.
  destruct (projectiles w) as [|p ps] eqn:E; [reflexivity|].
  cbn [scarecrow setProjectiles].
  rewrite health_fold_applyHit, damages_updateEach. reflexivity.
Qed.

Lemma fireballAtTarget_collides : distToTarget fireballAtTarget < 30.
Proof.
  unfold distToTarget, hypot, fireballAtTarget. simpl.
  replace ((1000 * 0.75 - 750) * (1000 * 0.75 - 750)
           + (800 / 2 - 400) * (800 / 2 - 400)) with 0 by lra.
  rewrite sqrt_0. lra.
Qed.

(** C4: when a projectile of the current state is closer than 30 to its
    target, the frame resolves it with the damage
    [spell.damage * (1 + 0.1 * comboCount)], where [comboCount] is
    [comboCountRef.current] of the state the frame runs in; the projectile
    carries no combo value from the time of its cast.  This damage is
    among those the frame queues, and the health after the frame is the
    health before it with the queued damages subtracted one after the
    other, never below 0. *)
Theorem hit_damage_uses_current_combo
    (rnd : nat -> R) (k : nat) (w : World) (p : SpellProjectile.t) :
  In p (projectiles w) ->
  distToTarget p < 30 ->
  let damageNow q :=
    Spell.damage (SpellProjectile.spell q)
    * (1 + 0.1 * IZR (comboCountRef w)) in
  updateProjectile rnd k (comboCountRef w) p = Hit (damageNow p) /\
  In (damageNow p)
     (damages (updateEach rnd 0 (comboCountRef w) (projectiles w))) /\
  damages (updateEach rnd 0 (comboCountRef w) (projectiles w)) =
    map damageNow (filter colliding (projectiles w)) /\
  Target.health (scarecrow (updateProjectiles rnd w)) =
    fold_left (fun h d => Rmax 0 (h - d))
      (map damageNow (filter colliding (projectiles w)))
      (Target.health (scarecrow w)).
Proof.
  intros Hin Hlt damageNow.
  assert (Hd : forall q,
            Spell.damage (SpellProjectile.spell q)
            * (1 + IZR (comboCountRef w) * 0.1) = damageNow q)
    by (intros q; unfold damageNow; ring).
  assert (Hmap : damages (updateEach rnd 0 (comboCountRef w) (projectiles w))
                 = map damageNow (filter colliding (projectiles w))).
  { rewrite damages_updateEach. apply map_ext. exact Hd. }
  split; [|split; [|split]].
  - rewrite updateProjectile_hit by exact Hlt. now rewrite Hd.
  - rewrite Hmap. apply in_map. apply filter_In. split; [exact Hin|].
    now apply colliding_true.
  - exact Hmap.
  - rewrite updateProjectiles_health. f_equal. apply map_ext. exact Hd.
Qed.

(** An instance: the fireball cast with the hand on the scarecrow, landing
    while the combo is 1. *)
Lemma hit_damage_uses_current_combo_witness :
  let damageNow q :=
    Spell.damage (SpellProjectile.spell q)
    * (1 + 0.1 * IZR (comboCountRef (afterCastAt 750 400))) in
  updateProjectile (fun _ => 0) 0 (comboCountRef (afterCastAt 750 400))
                   fireballAtTarget
    = Hit (damageNow fireballAtTarget) /\
  In (damageNow fireballAtTarget)
     (damages (updateEach (fun _ => 0) 0
                 (comboCountRef (afterCastAt 750 400))
                 (projectiles (afterCastAt 750 400)))) /\
  damages (updateEach (fun _ => 0) 0
             (comboCountRef (afterCastAt 750 400))
             (projectiles (afterCastAt 750 400))) =
    map damageNow (filter colliding (projectiles (afterCastAt 750 400))) /\
  Target.health
    (scarecrow (updateProjectiles (fun _ => 0) (afterCastAt 750 400))) =
    fold_left (fun h d => Rmax 0 (h - d))
      (map damageNow (filter colliding (projectiles (afterCastAt 750 400))))
      (Target.health (scarecrow (afterCastAt 750 400))).
Proof.
  apply (hit_damage_uses_current_combo (fun _ => 0) 0%nat
           (afterCastAt 750 400) fireballAtTarget).
  - left. reflexivity.
  - exact fireballAtTarget_collides.
Defined.

(** The same fireball, cast when the combo went from 0 to 1, takes 33 off
    the scarecrow if it lands while the combo is still 1, and 30 if the
    combo has decayed to 0 before it lands. *)
Example combo_read_at_collision :
  run (castAt 750 400) (initialWorld 1000 800) = Some (afterCastAt 750 400) /\
  projectiles (afterCastAt 750 400) = [fireballAtTarget] /\
  comboCountRef (afterCastAt 750 400) = 1%Z /\
  Target.health
    (scarecrow (updateProjectiles (fun _ => 0) (afterCastAt 750 400))) = 467 /\
  comboCountRef (comboTimeout (afterCastAt 750 400)) = 0%Z /\
  Target.health
    (scarecrow (updateProjectiles (fun _ => 0)
                  (comboTimeout (afterCastAt 750 400)))) = 470.
Proof.
  split; [reflexivity|]. split; [reflexivity|]. split; [reflexivity|].
  split; [|split; [reflexivity|]].
  - rewrite updateProjectiles_health.
    change (projectiles (afterCastAt 750 400)) with [fireballAtTarget].
    cbn [filter].
    rewrite (proj2 (colliding_true _) fireballAtTarget_collides).
    simpl. unfold Rmax. destruct (Rle_dec _ _); lra.
  - rewrite updateProjectiles_health.
    change (projectiles (comboTimeout (afterCastAt 750 400)))
      with [fireballAtTarget].
    cbn [filter].
    rewrite (proj2 (colliding_true _) fireballAtTarget_collides).
    simpl. change (Z.max 0 0) with 0%Z.
    unfold Rmax. destruct (Rle_dec _ _); lra.
Qed.

(** ** Health, defeat and respawn *)

Lemma act_health_nonneg (a : Action) (w w' : World) :
  0 <= Target.health (scarecrow w) -> act a w = Some w' ->
  0 <= Target.health (scarecrow w').
Proof.
  intros Hinv.
  destruct a; simpl; intros H; try (injection H as <-); try exact Hinv.
  - unfold commit, respawnEffect.
    destruct (sameDeps _ _); [exact Hinv|]. simpl.
    destruct (Rle_dec _ 0); exact Hinv.
  - apply gestureEffect_Transition in H. destruct H; exact Hinv.
  - rewrite updateProjectiles_health.
    generalize (map (fun p => Spell.damage (SpellProjectile.spell p)
                              * (1 + IZR (comboCountRef w) * 0.1))
                    (filter colliding (projectiles w))).
    intros ds. revert Hinv. generalize (Target.health (scarecrow w)).
    induction ds as [|d ds IH]; intros h Hh; simpl; [exact Hh|].
    apply IH. apply Rmax_l.
  - unfold comboTimeout. destruct (comboTimers w); exact Hinv.
  - unfold respawnTimeout. destruct (respawnTimers w); [exact Hinv|].
    match goal with |- context [handleExperienceGain 50 ?v] =>
      destruct (handleExperienceGain_frame 50 v) as (_ & -> & _) end.
    simpl. lra.
Qed.

(** The health of the scarecrow is never negative, whatever happens. *)
Lemma run_health_nonneg (actions : list Action) (w w' : World) :
  0 <= Target.health (scarecrow w) -> run actions w = Some w' ->
  0 <= Target.health (scarecrow w').
Proof.
  revert w. induction actions as [|a rest IH]; intros w Hinv; simpl.
  - intros H. injection H as <-. exact Hinv.
  - destruct (act a w) as [w1|] eqn:Ha; [|discriminate].
    apply IH. exact (act_health_nonneg a w w1 Hinv Ha).
Qed.

(** A render of [App] always makes the respawn effect run again at the
    next commit: the closure in its dependency array is a new one. *)
Lemma commit_after_renderApp (w : World) (h : R) :
  respawnDeps w = Some (h, onExperienceGain w) ->
  commit (renderApp w) =
  respawnEffect
    (setRespawnDeps
       (Some (Target.health (scarecrow w), S (onExperienceGain w)))
       (renderApp w)).
Proof.
  intros Hd. unfold commit.
  replace (sameDeps (respawnDeps (renderApp w))
             (Target.health (scarecrow (renderApp w)),
              onExperienceGain (renderApp w))) with false; [reflexivity|].
  simpl. rewrite Hd. simpl.
  replace (Nat.eqb (onExperienceGain w) (S (onExperienceGain w))) with false.
  - now rewrite Bool.andb_false_r.
  - symmetry. apply Nat.eqb_neq. lia.
Qed.

(** While the scarecrow is down, every render of [App] followed by a
    commit schedules one more respawn, whether or not one is pending. *)
Lemma rerender_while_down (w : World) (h : R) :
  respawnDeps w = Some (h, onExperienceGain w) ->
  Target.health (scarecrow w) <= 0 ->
  respawnTimers (commit (renderApp w)) = S (respawnTimers w).
Proof.
  intros Hd Hdown. rewrite (commit_after_renderApp w h Hd).
  unfold respawnEffect. simpl.
  destruct (Rle_dec (Target.health (scarecrow w)) 0); [reflexivity|].
  contradiction.
Qed.

(** Runs compose. *)
Lemma run_app (xs ys : list Action) (w : World) :
  run (xs ++ ys) w =
  match run xs w with
  | Some w1 => run ys w1
  | None => None
  end.
Proof.
  revert w. induction xs as [|a xs IH]; intros w; simpl; [reflexivity|].
  destruct (act a w); [apply IH|reflexivity].
Qed.

(** One action of a run at a time. *)
Lemma run_step (a : Action) (rest : list Action) (w w1 : World)
    (r : option World) :
  act a w = Some w1 -> run rest w1 = r -> run (a :: rest) w = r.
Proof. intros Ha Hr. simpl. now rewrite Ha. Qed.

(** [step tac]: evaluate the first action of the run with [tac] and leave
    the state as one record. *)
Ltac step tac :=
  eapply run_step; [cbn [act]; tac; flat; reflexivity|].

(** Decides a comparison of integer literals. *)
Ltac decide_geb :=
  match goal with
  | |- context [(?a >=? ?b)%Z] =>
      let v := eval vm_compute in (a >=? b)%Z in
      change (a >=? b)%Z with v
  end.

(** The steps of an exchange. *)
Ltac fist_seen :=
  rewrite gestureEffect_no_release by (left; reflexivity);
  cbn [HandData.gesture handAt]; rewrite startCharge_fist.

Ltac fireball_charged :=
  rewrite gestureEffect_no_release by (right; discriminate);
  cbn [HandData.gesture handAt];
  rewrite startCharge_point by (try reflexivity; cbn; lia).

Ltac fireball_cast :=
  rewrite (gestureEffect_release 2 _ _ fireball) by reflexivity;
  rewrite (castSpell_cast 2 _ (HandKeypoint.mk 750 400 0 "keypoint"))
    by (try reflexivity; cbn; lia);
  unfold cast; flat; cbn [HandKeypoint.x HandKeypoint.y].

Ltac fireball_lands :=
  match goal with |- context [updateProjectiles ?r ?v] =>
    rewrite (updateProjectiles_single_hit r v fireballAtTarget
               eq_refl fireballAtTarget_collides)
  end;
  unfold applyHit; flat.

(** A dependency array noted under another closure is never the same. *)
Lemma sameDeps_stale (deps : option (R * nat)) (h : R) (f : nat) :
  (forall h0 f0, deps = Some (h0, f0) -> f0 <> f) ->
  sameDeps deps (h, f) = false.
Proof.
  intros H. unfold sameDeps. destruct deps as [[h0 f0]|]; [|reflexivity].
  cbn [fst snd]. replace (Nat.eqb f0 f) with false.
  - apply Bool.andb_false_r.
  - symmetry. apply Nat.eqb_neq. now apply (H h0).
Qed.

(** One exchange takes 33 health and gives 5 experience; mana is back at
    100 when it ends, and the commit has noted the new health. *)
Lemma volley_step (e hits start : Z) (h : R) (last : string)
    (f : nat) (deps : option (R * nat)) :
  33 < h -> (e + 5 < 100)%Z ->
  (forall h0 f0, deps = Some (h0, f0) -> f0 = f) ->
  run volley
    (mkWorld 100 e 1 (Target.mk (1000 * 0.75) (800 / 2) h 500)
       [] None false 0 0 hits start last 0 0 0 f deps 1000 800)
  = Some
      (mkWorld 100 (e + 5) 1 (Target.mk (1000 * 0.75) (800 / 2) (h - 33) 500)
         [] None false 0 0 (hits + 1) 1 "palm" 0 0 0
         (S f) (Some (h - 33, S f)) 1000 800).
Proof.
  intros Hh He Hdeps. unfold volley, castAt. cbn [app repeat].
  step fist_seen. step fireball_charged. step fireball_cast.
  step ltac:(fireball_lands; unfold handleExperienceGain; flat;
             replace (e + 5 >=? 100)%Z with false
               by (symmetry; rewrite Z.geb_leb; apply Z.leb_gt; lia);
             match goal with |- context [Rmax 0 ?d] =>
               replace (Rmax 0 d) with (h - 33)
                 by (simpl; unfold Rmax; destruct (Rle_dec _ _); lra)
             end).
  do 5 step ltac:(unfold manaRegeneration).
  step ltac:(unfold comboTimeout).
  do 3 step ltac:(unfold manaRegeneration).
  step ltac:(unfold renderApp).
  step ltac:(unfold commit; flat;
             rewrite sameDeps_stale
               by (intros h0 f0 E; rewrite (Hdeps h0 f0 E); lia);
             unfold respawnEffect; flat;
             destruct (Rle_dec (h - 33) 0); [exfalso; lra|]).
  reflexivity.
Qed.

(** Fifteen exchanges leave the scarecrow standing, at 5 health. *)
Lemma volleys_run (n : nat) :
  (n <= 15)%nat ->
  run (volleys n) (initialWorld 1000 800) = Some (afterVolleys n).
Proof.
  induction n as [|n IH]; intros Hn.
  - unfold afterVolleys, initialWorld. simpl.
    replace (500 - 33 * 0) with 500 by lra. reflexivity.
  - cbn [volleys]. rewrite run_app, IH by lia.
    assert (Hr : INR n <= 14).
    { replace 14 with (INR 14) by (simpl; lra). apply le_INR. lia. }
    unfold afterVolleys at 1.
    rewrite volley_step; try lra; try lia.
    + unfold afterVolleys. rewrite S_INR, Nat2Z.inj_succ.
      replace (5 * Z.succ (Z.of_nat n))%Z with (5 * Z.of_nat n + 5)%Z by lia.
      replace (500 - 33 * (INR n + 1)) with (500 - 33 * INR n - 33) by lra.
      replace (Z.succ (Z.of_nat n)) with (Z.of_nat n + 1)%Z by lia.
      reflexivity.
    + intros h0 f0. destruct n; [discriminate|].
      intros E. now injection E.
Qed.

(** The state the double reward is shown from is one the program reaches:
    fifteen exchanges and a sixteenth fireball on its way. *)
Lemma worn_reachable :
  run (volleys 15 ++ castAt 750 400) (initialWorld 1000 800) = Some worn.
Proof.
  rewrite run_app, volleys_run by lia.
  unfold afterVolleys.
  replace (500 - 33 * INR 15) with 5 by (simpl; lra).
  unfold castAt.
  step fist_seen. step fireball_charged. step fireball_cast.
  reflexivity.
Qed.

(** C3, evaluated where it fails.  Fifteen exchanges and a sixteenth cast
    take the freshly mounted program to a scarecrow with 5 health and a
    fireball about to land.  The frame lands it: health is clamped to 0,
    5 experience is granted, [App] re-renders and the commit schedules the
    respawn.  One second later the mana tick re-renders [App]; the respawn
    effect runs again, because [onExperienceGain] in its dependencies is a
    new closure, and schedules a second respawn.  Both timeouts fire: the
    defeat is rewarded with 50 + 50 experience, where the claim has one
    reward of 50. *)
Theorem defeat_rewarded_twice :
  run (volleys 15 ++ castAt 750 400) (initialWorld 1000 800) = Some worn /\
  run [AnimationFrame (fun _ => 0); AppRender; Commit] worn = Some defeated /\
  Target.health (scarecrow defeated) = 0 /\
  respawnTimers defeated = 1%nat /\
  run [ManaTick; AppRender; Commit] defeated = Some defeatedAndTicked /\
  Target.health (scarecrow defeatedAndTicked) = 0 /\
  respawnTimers defeatedAndTicked = 2%nat /\
  run [RespawnTimeout; AppRender; Commit;
       RespawnTimeout; AppRender; Commit] defeatedAndTicked = Some respawned /\
  (level respawned * 100 + experience respawned
   = (level defeated * 100 + experience defeated) + 50 + 50)%Z.
Proof.
  split; [exact worn_reachable|].
  split; [|split; [reflexivity|split; [reflexivity|
           split; [|split; [reflexivity|split; [reflexivity|
           split; [|reflexivity]]]]]]].
  - unfold worn.
    step ltac:(fireball_lands; unfold handleExperienceGain; flat;
               decide_geb; flat;
               match goal with |- context [Rmax 0 ?d] =>
                 replace (Rmax 0 d) with 0
                   by (simpl; unfold Rmax; destruct (Rle_dec _ _); lra)
               end).
    step ltac:(unfold renderApp).
    step ltac:(unfold commit; flat;
               rewrite sameDeps_stale
                 by (intros h0 f0 E; injection E as _ <-; lia);
               unfold respawnEffect; flat;
               destruct (Rle_dec 0 0); [|exfalso; lra]).
    reflexivity.
  - unfold defeated.
    step ltac:(unfold manaRegeneration).
    step ltac:(unfold renderApp).
    step ltac:(unfold commit; flat;
               rewrite sameDeps_stale
                 by (intros h0 f0 E; injection E as _ <-; lia);
               unfold respawnEffect; flat;
               destruct (Rle_dec 0 0); [|exfalso; lra]).
    reflexivity.
  - unfold defeatedAndTicked.
    step ltac:(unfold respawnTimeout; flat; unfold handleExperienceGain; flat;
               decide_geb).
    step ltac:(unfold renderApp).
    step ltac:(unfold commit; flat;
               rewrite sameDeps_stale
                 by (intros h0 f0 E; injection E as _ <-; lia);
               unfold respawnEffect; flat;
               destruct (Rle_dec 500 0); [exfalso; lra|]).
    step ltac:(unfold respawnTimeout; flat; unfold handleExperienceGain; flat;
               decide_geb).
    step ltac:(unfold renderApp).
    step ltac:(unfold commit; flat;
               rewrite sameDeps_stale
                 by (intros h0 f0 E; injection E as _ <-; lia);
               unfold respawnEffect; flat;
               destruct (Rle_dec 500 0); [exfalso; lra|]).
    reflexivity.
Qed.

(** * Further properties of the code *)

(** ** The classifier on every input *)

Lemma coordY_Some (ls : Landmarks) (i : nat) :
  (i < List.length ls)%nat -> exists v, coordY ls i = Some v.
Proof.
  intros H. unfold coordY.
  destruct (nth_error ls i) as [row|] eqn:E.
  - now exists (nth_error row 1).
  - apply nth_error_None in E. lia.
Qed.

Lemma coordY_None (ls : Landmarks) (i : nat) :
  (List.length ls <= i)%nat -> coordY ls i = None.
Proof.
  intros H. unfold coordY. apply nth_error_None in H. now rewrite H.
Qed.

Lemma isExtended_Some (ls : Landmarks) (tip joint : nat) :
  (tip < List.length ls)%nat -> (joint < List.length ls)%nat ->
  exists b, isExtended ls tip joint = Some b.
Proof.
  intros Ht Hj. unfold isExtended.
  destruct (coordY_Some ls tip Ht) as [a ->].
  destruct (coordY_Some ls joint Hj) as [b ->].
  now exists (js_lt a b).
Qed.

Lemma classify_GESTURES (t i m r p : bool) : In (classify t i m r p) GESTURES.
Proof. destruct t, i, m, r, p; vm_compute; tauto. Qed.

(** With 21 rows or more every row the classifier reads exists. *)
Lemma detectGesture_Some (ls : Landmarks) :
  (21 <= List.length ls)%nat ->
  exists t i m r p,
    isExtended ls 4 2 = Some t /\ isExtended ls 8 6 = Some i /\
    isExtended ls 12 10 = Some m /\ isExtended ls 16 14 = Some r /\
    isExtended ls 20 18 = Some p /\
    detectGesture ls = Some (classify t i m r p).
Proof.
  intros H.
  destruct (isExtended_Some ls 4 2) as [t Ht]; [lia|lia|].
  destruct (isExtended_Some ls 8 6) as [i Hi]; [lia|lia|].
  destruct (isExtended_Some ls 12 10) as [m Hm]; [lia|lia|].
  destruct (isExtended_Some ls 16 14) as [r Hr]; [lia|lia|].
  destruct (isExtended_Some ls 20 18) as [p Hp]; [lia|lia|].
  exists t, i, m, r, p. repeat (split; [assumption|]).
  now apply detectGesture_classify.
Qed.

(** With fewer, but at least one, [landmarks[20]] is [undefined] and
    reading its [[1]] throws. *)
Lemma detectGesture_short (ls : Landmarks) :
  (0 < List.length ls <= 20)%nat -> detectGesture ls = None.
Proof.
  intros [H0 H]. unfold detectGesture.
  replace (Nat.eqb (List.length ls) 0) with false
    by (symmetry; apply Nat.eqb_neq; lia).
  replace (isExtended ls 20 18) with (@None bool).
  - destruct (isExtended ls 4 2), (isExtended ls 8 6),
      (isExtended ls 12 10), (isExtended ls 16 14); reflexivity.
  - unfold isExtended. now rewrite (coordY_None ls 20) by lia.
Qed.

(** X1: [detectGesture] throws exactly on a landmark array that has
    between 1 and 20 rows, and answers [none] exactly on the empty
    array. *)
Theorem detectGesture_throws_iff (ls : Landmarks) :
  (detectGesture ls = None <-> (0 < List.length ls < 21)%nat) /\
  (detectGesture ls = Some "none" <-> ls = []).
Proof.
  destruct (Nat.eq_dec (List.length ls) 0) as [E0|E0].
  - apply length_zero_iff_nil in E0. subst ls. split; split; intros H;
      try reflexivity; try discriminate. simpl in H. lia.
  - destruct (Nat.le_gt_cases 21 (List.length ls)) as [Hl|Hl].
    + destruct (detectGesture_Some ls Hl)
        as (t & i & m & r & p & _ & _ & _ & _ & _ & ->).
      split; split; intros H; try discriminate; try lia.
      * injection H as H. pose proof (classify_GESTURES t i m r p) as Hin.
        rewrite H in Hin. simpl in Hin.
        repeat (destruct Hin as [Hin|Hin]; [discriminate|]). contradiction.
      * subst ls. simpl in E0. lia.
    + rewrite detectGesture_short by lia.
      split; split; intros H; try discriminate; try lia; try reflexivity.
      subst ls. simpl in E0. lia.
Qed.

(** X2: a landmark array of 21 rows or more always gets an answer, and
    the answer is one of fist, palm, point, peace, rock and unknown,
    whatever the rows hold. *)
Theorem detectGesture_full_hand (ls : Landmarks) :
  (21 <= List.length ls)%nat ->
  exists g, detectGesture ls = Some g /\ In g GESTURES.
Proof.
  intros H.
  destruct (detectGesture_Some ls H)
    as (t & i & m & r & p & _ & _ & _ & _ & _ & ->).
  eexists. split; [reflexivity|apply classify_GESTURES].
Qed.

(** An instance: the hand with thumb and index raised. *)
Lemma detectGesture_full_hand_witness :
  exists g, detectGesture thumbAndIndex = Some g /\ In g GESTURES.
Proof. apply (detectGesture_full_hand thumbAndIndex). simpl. lia. Defined.

Lemma classify_rules (t i m r p : bool) :
  let g := classify t i m r p in
  let fistTest := i = false /\ m = false /\ r = false /\ p = false in
  let palmTest :=
    t = true /\ i = true /\ m = true /\ r = true /\ p = true in
  let pointTest := i = true /\ m = false /\ r = false /\ p = false in
  let peaceTest := i = true /\ m = true /\ r = false /\ p = false in
  let rockTest :=
    t = true /\ i = true /\ m = false /\ r = false /\ p = true in
  (g = "fist" <-> fistTest) /\
  (g = "palm" <-> palmTest) /\
  (g = "point" <-> pointTest) /\
  (g = "peace" <-> peaceTest) /\
  (g = "rock" <-> rockTest) /\
  (g = "unknown" <->
   ~ fistTest /\ ~ palmTest /\ ~ pointTest /\ ~ peaceTest /\ ~ rockTest).
Proof.
  destruct t, i, m, r, p; vm_compute;
    repeat split; try discriminate; try reflexivity;
    try (intros; repeat match goal with H : _ /\ _ |- _ => destruct H end;
         discriminate);
    try (intros (H1 & H2 & H3 & H4 & H5); exfalso;
         first [ apply H1; repeat split; reflexivity
               | apply H2; repeat split; reflexivity
               | apply H3; repeat split; reflexivity
               | apply H4; repeat split; reflexivity
               | apply H5; repeat split; reflexivity ]).
Qed.

(** X3: the tests of [detectGesture] exclude each other, so every answer
    is given exactly when its own test holds and the order of the [if]s
    plays no part: fist when index, middle, ring and pinky are folded;
    palm when all five digits are extended; point, peace and rock on
    their patterns; unknown in every other case.  Only the palm and the
    rock test read the thumb. *)
Theorem detectGesture_rules (ls : Landmarks) (t i m r p : bool) :
  isExtended ls 4 2 = Some t ->
  isExtended ls 8 6 = Some i ->
  isExtended ls 12 10 = Some m ->
  isExtended ls 16 14 = Some r ->
  isExtended ls 20 18 = Some p ->
  let fistTest := i = false /\ m = false /\ r = false /\ p = false in
  let palmTest :=
    t = true /\ i = true /\ m = true /\ r = true /\ p = true in
  let pointTest := i = true /\ m = false /\ r = false /\ p = false in
  let peaceTest := i = true /\ m = true /\ r = false /\ p = false in
  let rockTest :=
    t = true /\ i = true /\ m = false /\ r = false /\ p = true in
  (detectGesture ls = Some "fist" <-> fistTest) /\
  (detectGesture ls = Some "palm" <-> palmTest) /\
  (detectGesture ls = Some "point" <-> pointTest) /\
  (detectGesture ls = Some "peace" <-> peaceTest) /\
  (detectGesture ls = Some "rock" <-> rockTest) /\
  (detectGesture ls = Some "unknown" <->
   ~ fistTest /\ ~ palmTest /\ ~ pointTest /\ ~ peaceTest /\ ~ rockTest).
Proof.
  intros Ht Hi Hm Hr Hp.
  rewrite (detectGesture_classify ls t i m r p Ht Hi Hm Hr Hp).
  assert (E : forall g, Some (classify t i m r p) = Some g
                        <-> classify t i m r p = g)
    by (intros g; split; [now intros [= ->]|now intros ->]).
  cbv zeta. rewrite !E. exact (classify_rules t i m r p).
Qed.

(** An instance: the hand with thumb and index raised. *)
Lemma detectGesture_rules_witness :
  let fistTest :=
    true = false /\ false = false /\ false = false /\ false = false in
  let palmTest :=
    true = true /\ true = true /\ false = true /\ false = true
    /\ false = true in
  let pointTest :=
    true = true /\ false = false /\ false = false /\ false = false in
  let peaceTest :=
    true = true /\ false = true /\ false = false /\ false = false in
  let rockTest :=
    true = true /\ true = true /\ false = false /\ false = false
    /\ false = true in
  (detectGesture thumbAndIndex = Some "fist" <-> fistTest) /\
  (detectGesture thumbAndIndex = Some "palm" <-> palmTest) /\
  (detectGesture thumbAndIndex = Some "point" <-> pointTest) /\
  (detectGesture thumbAndIndex = Some "peace" <-> peaceTest) /\
  (detectGesture thumbAndIndex = Some "rock" <-> rockTest) /\
  (detectGesture thumbAndIndex = Some "unknown" <->
   ~ fistTest /\ ~ palmTest /\ ~ pointTest /\ ~ peaceTest /\ ~ rockTest).
Proof.
  apply (detectGesture_rules thumbAndIndex true true false false false);
    vm_compute; reflexivity.
Defined.

Lemma Qlt_bool_iff (u v : Q) : Qlt_bool u v = true <-> (u < v)%Q.
Proof.
  unfold Qlt_bool. rewrite negb_true_iff, <- not_true_iff_false, Qle_bool_iff.
  split; [apply Qnot_le_lt|apply Qlt_not_le].
Qed.

Lemma coordY_map (g : list Q -> list Q) (fy : Q -> Q) (ls : Landmarks)
    (i : nat) :
  (forall row, nth_error (g row) 1 = option_map fy (nth_error row 1)) ->
  coordY (map g ls) i = option_map (option_map fy) (coordY ls i).
Proof.
  intros Hg. unfold coordY. rewrite nth_error_map.
  destruct (nth_error ls i) as [row|]; cbn [option_map]; [|reflexivity].
  now rewrite Hg.
Qed.

Lemma moveRow_y (fx fy : Q -> Q) (row : list Q) :
  nth_error (moveRow fx fy row) 1 = option_map fy (nth_error row 1).
Proof. destruct row as [|x [|y rest]]; reflexivity. Qed.

(** X4: the classifier reads the order of the y coordinates and nothing
    else.  Change every row in any way that sends its y through a
    function [fy], whatever happens to x, z and the rest.  If [fy] keeps
    the strict order both ways, [detectGesture] answers the same, errors
    included.  If [fy] only never puts a value strictly below one it was
    not below, as a rounded multiplication by a positive factor does, a
    digit that is extended after the change was extended before it; the
    converse can fail, see [rounding_can_fold_a_digit]. *)
Theorem detectGesture_reads_order_of_y
    (g : list Q -> list Q) (fy : Q -> Q) (ls : Landmarks) :
  (forall row, nth_error (g row) 1 = option_map fy (nth_error row 1)) ->
  ((forall u v, (fy u < fy v)%Q <-> (u < v)%Q) ->
   detectGesture (map g ls) = detectGesture ls) /\
  ((forall u v, (fy u < fy v)%Q -> (u < v)%Q) ->
   forall tip joint,
     isExtended (map g ls) tip joint = Some true ->
     isExtended ls tip joint = Some true).
Proof.
  intros Hg. split.
  - intros Hord.
    assert (E : forall tip joint,
              isExtended (map g ls) tip joint = isExtended ls tip joint).
    { intros tip joint. unfold isExtended.
      rewrite !(coordY_map g fy) by exact Hg.
      destruct (coordY ls tip) as [[u|]|], (coordY ls joint) as [[v|]|];
        simpl; try reflexivity.
      f_equal. apply Bool.eq_true_iff_eq. rewrite !Qlt_bool_iff. apply Hord. }
    unfold detectGesture. now rewrite length_map, !E.
  - intros Hord tip joint. unfold isExtended.
    rewrite !(coordY_map g fy) by exact Hg.
    destruct (coordY ls tip) as [[u|]|], (coordY ls joint) as [[v|]|];
      simpl; try discriminate.
    intros E. injection E as E. apply Qlt_bool_iff, Hord in E.
    apply Qlt_bool_iff in E. now rewrite E.
Qed.

(** An instance: the hand with thumb and index raised, mirrored in a frame
    640 wide, twice as tall and moved up. *)
Lemma detectGesture_reads_order_of_y_witness :
  detectGesture (map mirrored thumbAndIndex) = detectGesture thumbAndIndex /\
  (forall tip joint,
     isExtended (map mirrored thumbAndIndex) tip joint = Some true ->
     isExtended thumbAndIndex tip joint = Some true).
Proof.
  assert (Hord : forall u v, (2 * u - 7 < 2 * v - 7)%Q <-> (u < v)%Q).
  { intros u v. unfold Qminus. rewrite Qplus_lt_l.
    apply Qmult_lt_l. reflexivity. }
  destruct (detectGesture_reads_order_of_y mirrored
              (fun y => (2 * y - 7)%Q) thumbAndIndex) as [H1 H2].
  - intros row. apply moveRow_y.
  - split.
    + apply H1. exact Hord.
    + apply H2. intros u v. apply Hord.
Defined.

(** Rounding can fold a digit: thumb and index of [nearlyLevel] are raised
    by four tenths of a pixel, and with every y rounded down to a whole
    number the tips are level with their joints; the pointing hand is
    read as a fist. *)
Example rounding_can_fold_a_digit :
  detectGesture nearlyLevel = Some "point" /\
  detectGesture (map wholePixels nearlyLevel) = Some "fist".
Proof. split; vm_compute; reflexivity. Qed.

(** A row without a y coordinate yields [undefined], the comparison with
    it is false, and the digit counts as folded. *)
Lemma isExtended_missing_y (ls : Landmarks) (tip joint : nat)
    (rowT rowJ : list Q) :
  nth_error ls tip = Some rowT -> nth_error ls joint = Some rowJ ->
  (List.length rowT < 2)%nat \/ (List.length rowJ < 2)%nat ->
  isExtended ls tip joint = Some false.
Proof.
  intros Ht Hj Hshort. unfold isExtended, coordY. rewrite Ht, Hj.
  destruct Hshort as [Hs|Hs].
  - replace (nth_error rowT 1) with (@None Q)
      by (symmetry; apply nth_error_None; lia). reflexivity.
  - replace (nth_error rowJ 1) with (@None Q)
      by (symmetry; apply nth_error_None; lia).
    now destruct (nth_error rowT 1).
Qed.

(** X5: when the rows of the four finger tips (8, 12, 16, 20) carry no y
    coordinate, the hand is read as a fist, whatever the other rows hold:
    missing data arms the cast state machine like a real fist does. *)
Theorem missing_y_reads_as_fist (ls : Landmarks) :
  (21 <= List.length ls)%nat ->
  (forall i row, In i [8; 12; 16; 20]%nat -> nth_error ls i = Some row ->
                 (List.length row < 2)%nat) ->
  detectGesture ls = Some "fist".
Proof.
  intros Hlen Htips.
  assert (Hflag : forall tip joint,
            In tip [8; 12; 16; 20]%nat -> (joint < 21)%nat ->
            isExtended ls tip joint = Some false).
  { intros tip joint Hin Hj.
    destruct (nth_error ls tip) as [rowT|] eqn:ET.
    2:{ apply nth_error_None in ET. simpl in Hin.
        destruct Hin as [<-|[<-|[<-|[<-|[]]]]]; lia. }
    destruct (nth_error ls joint) as [rowJ|] eqn:EJ.
    2:{ apply nth_error_None in EJ. lia. }
    apply (isExtended_missing_y ls tip joint rowT rowJ ET EJ).
    left. exact (Htips tip rowT Hin ET). }
  destruct (isExtended_Some ls 4 2) as [t Ht]; [lia|lia|].
  rewrite (detectGesture_classify ls t false false false false Ht);
    try (apply Hflag; [simpl; tauto|lia]).
  now destruct t.
Qed.

(** An instance: 21 rows that hold an x coordinate only. *)
Lemma missing_y_reads_as_fist_witness : detectGesture flatHand = Some "fist".
Proof.
  apply (missing_y_reads_as_fist flatHand).
  - simpl. lia.
  - intros i row Hin. simpl in Hin.
    destruct Hin as [<-|[<-|[<-|[<-|[]]]]]; intros E; injection E as <-;
      simpl; lia.
Defined.

(** ** Sessions of the cast state machine *)

(** X6: the only way from Idle into Charging.  When a run of the gesture
    effect takes the machine from Idle to charging a spell, a hand was
    present, the gesture noted before was a fist, the new gesture is the
    one of the spell (point for the fireball, peace for the water wave,
    rock for the lightning), mana covers the cost, the start time is the
    current time, and nothing was spent or spawned. *)
Theorem charge_starts_only_after_fist
    (now : Z) (handData : option HandData.t) (w w' : World) (spell : Spell.t) :
  castState w = Idle ->
  gestureEffect now handData w = Some w' ->
  castState w' = Charging spell ->
  exists hd,
    handData = Some hd /\
    lastGestureRef w = "fist" /\
    ((HandData.gesture hd = "point" /\ spell = fireball) \/
     (HandData.gesture hd = "peace" /\ spell = waterwave) \/
     (HandData.gesture hd = "rock" /\ spell = lightning)) /\
    (Spell.manaCost spell <= mana w)%Z /\
    chargeStartTime w' = now /\
    mana w' = mana w /\
    projectiles w' = projectiles w.
Proof.
  intros Hidle H Hst. apply gestureEffect_Transition in H.
  destruct H as [|hd E Hrel|hd sp Hl Hf Hle
                 |hd sp Hst0 Hg Hlt|hd sp tip Hst0 Hg Hle Htip];
    try congruence.
  - unfold castState in Hst. simpl in Hst.
    destruct (currentSpell w); discriminate.
  - change (castState (setLastGestureRef (HandData.gesture hd) w))
      with (castState w) in Hst. congruence.
  - unfold castState in Hst. simpl in Hst. injection Hst as <-.
    exists hd. destruct (find_SPELLS_gesture _ _ Hf) as [Hin Heq].
    repeat split; try assumption.
    rewrite <- Heq. simpl in Hin.
    destruct Hin as [<-|[<-|[<-|[]]]]; simpl; tauto.
Qed.

(** An instance: a point after a fist, with full mana. *)
Lemma charge_starts_only_after_fist_witness :
  exists hd,
    Some (handAt 0 0 "point") = Some hd /\
    lastGestureRef (setLastGestureRef "fist" (initialWorld 1000 800))
      = "fist" /\
    ((HandData.gesture hd = "point" /\ fireball = fireball) \/
     (HandData.gesture hd = "peace" /\ fireball = waterwave) \/
     (HandData.gesture hd = "rock" /\ fireball = lightning)) /\
    (Spell.manaCost fireball
     <= mana (setLastGestureRef "fist" (initialWorld 1000 800)))%Z /\
    chargeStartTime chargingFireball = 1%Z /\
    mana chargingFireball
      = mana (setLastGestureRef "fist" (initialWorld 1000 800)) /\
    projectiles chargingFireball
      = projectiles (setLastGestureRef "fist" (initialWorld 1000 800)).
Proof.
  apply (charge_starts_only_after_fist 1 (Some (handAt 0 0 "point"))
           (setLastGestureRef "fist" (initialWorld 1000 800))
           chargingFireball fireball); reflexivity.
Defined.

(** X7: a session survives every gesture but the palm.  While a spell is
    being charged and a hand is in view, a gesture other than palm leaves
    the machine charging and costs nothing; the spell stays the same
    unless the gesture before was a fist and the new one selects a spell
    that mana can pay for, which then replaces it and restarts the
    charge. *)
Theorem charging_persists
    (now : Z) (hd : HandData.t) (w : World) (spell : Spell.t) :
  castState w = Charging spell ->
  HandData.gesture hd <> "palm" ->
  exists w' spell',
    gestureEffect now (Some hd) w = Some w' /\
    castState w' = Charging spell' /\
    mana w' = mana w /\
    projectiles w' = projectiles w /\
    comboCountRef w' = comboCountRef w /\
    (spell' = spell \/
     (lastGestureRef w = "fist" /\
      Spell.gesture spell' = HandData.gesture hd /\
      (Spell.manaCost spell' <= mana w)%Z /\
      chargeStartTime w' = now)).
Proof.
  intros Hst Hg.
  rewrite gestureEffect_no_release by (right; exact Hg).
  destruct (startCharge_cases now (HandData.gesture hd) w)
    as [E|(sp & Hl & _ & _ & Hf & Hm & E)]; rewrite E.
  - eexists. exists spell. split; [reflexivity|].
    repeat split; try exact Hst. now left.
  - eexists. exists sp. split; [reflexivity|].
    repeat split. right.
    destruct (find_SPELLS_gesture _ _ Hf) as [_ Heq]. now repeat split.
Qed.

(** An instance: an unknown gesture while the fireball is charged. *)
Lemma charging_persists_witness :
  exists w' spell',
    gestureEffect 5 (Some (handAt 0 0 "unknown")) chargingFireball = Some w' /\
    castState w' = Charging spell' /\
    mana w' = mana chargingFireball /\
    projectiles w' = projectiles chargingFireball /\
    comboCountRef w' = comboCountRef chargingFireball /\
    (spell' = fireball \/
     (lastGestureRef chargingFireball = "fist" /\
      Spell.gesture spell' = HandData.gesture (handAt 0 0 "unknown") /\
      (Spell.manaCost spell' <= mana chargingFireball)%Z /\
      chargeStartTime w' = 5%Z)).
Proof.
  apply (charging_persists 5 (handAt 0 0 "unknown") chargingFireball fireball).
  - reflexivity.
  - discriminate.
Defined.

Lemma startCharge_same_gesture (now : Z) (g : string) (w : World) :
  lastGestureRef w = g -> startCharge now g w = w.
Proof.
  intros <-. unfold startCharge.
  now destruct (lastGestureRef w =? "fist")%string.
Qed.

(** Nothing is left to do for a hand whose gesture is the one noted last,
    unless it is a palm during a session. *)
Lemma gestureEffect_settled (now : Z) (hd : HandData.t) (w : World) :
  lastGestureRef w = HandData.gesture hd ->
  castState w = Idle \/ HandData.gesture hd <> "palm" ->
  gestureEffect now (Some hd) w = Some w.
Proof.
  intros Hl Hrel. rewrite gestureEffect_no_release by exact Hrel.
  rewrite startCharge_same_gesture by exact Hl.
  now rewrite setLastGestureRef_same.
Qed.

(** Every transition with a hand leaves such a state behind. *)
Lemma Transition_settles (now : Z) (hd : HandData.t) (w w' : World) :
  Transition now w (Some hd) w' ->
  lastGestureRef w' = HandData.gesture hd /\
  (castState w' = Idle \/ HandData.gesture hd <> "palm").
Proof.
  intros T. inversion T as [|hd0 E Hrel|hd0 sp Hl Hf Hle
                 |hd0 sp Hst0 Hg Hlt|hd0 sp tip Hst0 Hg Hle Htip]; subst.
  - split; [reflexivity|]. exact Hrel.
  - split; [reflexivity|]. right.
    destruct (find_SPELLS_gesture _ _ Hf) as [Hin Heq].
    rewrite <- Heq. simpl in Hin.
    destruct Hin as [<-|[<-|[<-|[]]]]; discriminate.
  - split; [now rewrite Hg|]. left. unfold castState. simpl.
    now destruct (currentSpell w).
  - split; [now rewrite Hg|]. left. reflexivity.
Qed.

Lemma sessionUntouched_trans (w1 w2 w3 : World) :
  sessionUntouched w1 w2 -> sessionUntouched w2 w3 -> sessionUntouched w1 w3.
Proof.
  unfold sessionUntouched.
  intros (-> & -> & -> & -> & ->) (-> & -> & -> & -> & ->). repeat split.
Qed.

Lemma handleExperienceGain_session (exp : Z) (w : World) :
  sessionUntouched w (handleExperienceGain exp w).
Proof.
  unfold handleExperienceGain, sessionUntouched.
  destruct (experience w + exp >=? 100)%Z; repeat split.
Qed.

Lemma applyHit_session (w : World) (d : R) : sessionUntouched w (applyHit w d).
Proof.
  unfold applyHit. cbv zeta.
  match goal with |- context [handleExperienceGain 5 ?v] =>
    apply (sessionUntouched_trans w v _);
      [repeat split|apply handleExperienceGain_session]
  end.
Qed.

Lemma fold_applyHit_session (ds : list R) (w : World) :
  sessionUntouched w (fold_left applyHit ds w).
Proof.
  revert w. induction ds as [|d ds IH]; intros w; simpl; [repeat split|].
  exact (sessionUntouched_trans _ _ _ (applyHit_session w d) (IH _)).
Qed.

(** Only the gesture effect writes the session. *)
Lemma act_sessionUntouched (a : Action) (w w' : World) :
  isGestureEffect a = false -> act a w = Some w' -> sessionUntouched w w'.
Proof.
  destruct a; simpl; intros Hg H; try discriminate; injection H as <-.
  - repeat split.
  - repeat split.
  - unfold commit, respawnEffect. destruct (sameDeps _ _); [repeat split|].
    destruct (Rle_dec _ 0); repeat split.
  - unfold updateProjectiles. destruct (projectiles w); [repeat split|].
    match goal with |- context [fold_left applyHit ?ds w] =>
      apply (sessionUntouched_trans w (fold_left applyHit ds w) _);
        [apply fold_applyHit_session|repeat split]
    end.
  - unfold comboTimeout. destruct (comboTimers w); repeat split.
  - unfold respawnTimeout. destruct (respawnTimers w); [repeat split|].
    match goal with |- context [handleExperienceGain 50 ?v] =>
      apply (sessionUntouched_trans w v _);
        [repeat split|apply handleExperienceGain_session]
    end.
Qed.

Lemma run_sessionUntouched (actions : list Action) (w w' : World) :
  Forall (fun a => isGestureEffect a = false) actions ->
  run actions w = Some w' -> sessionUntouched w w'.
Proof.
  intros Hall. revert w. induction Hall as [|a rest Ha _ IH]; intros w; simpl.
  - intros H. injection H as <-. repeat split.
  - destruct (act a w) as [w1|] eqn:E; [|discriminate]. intros H.
    exact (sessionUntouched_trans _ _ _
             (act_sessionUntouched a w w1 Ha E) (IH w1 H)).
Qed.

Lemma sessionUntouched_castState (w w' : World) :
  sessionUntouched w w' -> castState w' = castState w.
Proof. unfold castState. now intros (_ & -> & -> & _). Qed.

Lemma sessionKept_trans (w1 w2 w3 : World) :
  sessionKept w1 w2 -> sessionKept w2 w3 -> sessionKept w1 w3.
Proof.
  unfold sessionKept.
  intros (-> & -> & -> & ->) (-> & -> & -> & ->). repeat split.
Qed.

(** Nothing but the gesture effect writes what the gesture effect reads,
    and only a frame of the charge ring writes [chargeProgress] besides. *)
Lemma happen_sessionKept (h : Happening) (w w' : World) :
  isRerun h = false -> happen h w = Some w' ->
  sessionKept w w' /\
  (isChargeFrame h = false -> chargeProgress w' = chargeProgress w).
Proof.
  destruct h as [a|now spell]; simpl; intros Hr H.
  - destruct (act_sessionUntouched a w w' Hr H) as (H1 & H2 & H3 & H4 & H5).
    split; [now repeat split|]. intros _. exact H4.
  - injection H as <-. split; [repeat split|discriminate].
Qed.

Lemma happenings_sessionKept (hs : list Happening) (w w' : World) :
  Forall (fun h => isRerun h = false) hs ->
  happenings hs w = Some w' ->
  sessionKept w w' /\
  (Forall (fun h => isChargeFrame h = false) hs ->
   chargeProgress w' = chargeProgress w).
Proof.
  intros Hall. revert w. induction Hall as [|h rest Hh _ IH]; intros w; simpl.
  - intros E. injection E as <-. split; [repeat split|reflexivity].
  - destruct (happen h w) as [w1|] eqn:E; [|discriminate]. intros Hrest.
    destruct (happen_sessionKept h w w1 Hh E) as [K1 C1].
    destruct (IH w1 Hrest) as [K2 C2].
    split; [exact (sessionKept_trans _ _ _ K1 K2)|].
    intros Hc. inversion Hc; subst. rewrite C2, C1; auto.
Qed.

(** X8: what a re-run of the gesture effect does.  The effect lists
    [handData], [isCharging], [currentSpell], [mana] and [castSpell] as
    dependencies, so React runs it again after it has written any of them
    and after every mana tick, with the hand data it has already seen.
    Whatever ticks, simulation frames, timeouts, renders, commits and
    frames of the charge ring came in between: with a hand the re-run
    changes nothing (no second cast, no second charge, no retried charge
    once mana has regenerated); without a hand it writes 0 to
    [chargeProgress], which a charge loop that is still running may have
    set again, and nothing else.  With no frame of the charge ring in
    between the re-run changes nothing in either case. *)
Theorem gestureEffect_rerun
    (now now' : Z) (handData : option HandData.t) (between : list Happening)
    (w w1 w2 : World) :
  gestureEffect now handData w = Some w1 ->
  Forall (fun h => isRerun h = false) between ->
  happenings between w1 = Some w2 ->
  gestureEffect now' handData w2
  = Some (match handData with
          | Some _ => w2
          | None => setChargeProgress 0 w2
          end) /\
  (Forall (fun h => isChargeFrame h = false) between ->
   gestureEffect now' handData w2 = Some w2).
Proof.
  intros H Hall Hrun.
  destruct (happenings_sessionKept between w1 w2 Hall Hrun)
    as [(Hl & Hc & Hi & _) Hp].
  destruct handData as [hd|].
  - apply gestureEffect_Transition in H.
    destruct (Transition_settles now hd w w1 H) as [Hl1 Hrel].
    assert (E : gestureEffect now' (Some hd) w2 = Some w2).
    { apply gestureEffect_settled; [congruence|].
      destruct Hrel as [Hidle|Hg]; [left|now right].
      unfold castState in *. now rewrite Hc, Hi. }
    split; [exact E|intros _; exact E].
  - injection H as <-. simpl in Hi.
    assert (E : setIsCharging false w2 = w2).
    { rewrite <- (world_eta w2) at 2. unfold setIsCharging.
      now rewrite Hi. }
    unfold gestureEffect. rewrite E. split; [reflexivity|].
    intros Hcf. specialize (Hp Hcf). simpl in Hp.
    f_equal. rewrite <- (world_eta w2) at 2. unfold setChargeProgress.
    now rewrite Hp.
Qed.

(** An instance: the hand is lost while the fireball is charged, the
    charge loop runs one more frame, and the effect runs again. *)
Lemma gestureEffect_rerun_witness :
  let w1 := setChargeProgress 0 (setIsCharging false chargingFireball) in
  let w2 := fst (updateCharge 600 fireball w1) in
  gestureEffect 700 None w2 = Some (setChargeProgress 0 w2) /\
  (Forall (fun h => isChargeFrame h = false) [ChargeFrame 600 fireball] ->
   gestureEffect 700 None w2 = Some w2).
Proof.
  apply (gestureEffect_rerun 502 700 None [ChargeFrame 600 fireball]
           chargingFireball
           (setChargeProgress 0 (setIsCharging false chargingFireball))).
  - reflexivity.
  - repeat constructor.
  - reflexivity.
Defined.

(** In that run the ring is not empty when the effect runs again: the
    stale frame has filled it to 599 / 1000. *)
Example stale_charge_frame_fills_ring :
  chargeProgress
    (fst (updateCharge 600 fireball
            (setChargeProgress 0 (setIsCharging false chargingFireball))))
  = 599 / 1000.
Proof.
  unfold updateCharge. cbv zeta. cbn [fst chargeProgress setChargeProgress].
  change (chargeStartTime
            (setChargeProgress 0 (setIsCharging false chargingFireball)))
    with 1%Z.
  change (Spell.chargeTime fireball) with 1000%Z.
  change (600 - 1)%Z with 599%Z.
  apply Rmin_left. lra.
Qed.

(** X9: the gesture effect throws in one situation only: a palm releases
    a charged spell that mana can pay for, and the hand has fewer than
    nine keypoints, so that [handData.keypoints[8]] is [undefined]. *)
Theorem gestureEffect_throws_iff
    (now : Z) (handData : option HandData.t) (w : World) :
  gestureEffect now handData w = None <->
  exists hd spell,
    handData = Some hd /\
    castState w = Charging spell /\
    HandData.gesture hd = "palm" /\
    (Spell.manaCost spell <= mana w)%Z /\
    (List.length (HandData.keypoints hd) <= 8)%nat.
Proof.
  split.
  - destruct handData as [hd|]; [|discriminate].
    destruct (castState w) as [|spell] eqn:Hst.
    { rewrite gestureEffect_no_release by (left; exact Hst). discriminate. }
    destruct (string_dec (HandData.gesture hd) "palm") as [Hg|Hg].
    2:{ rewrite gestureEffect_no_release by (right; exact Hg). discriminate. }
    destruct (proj1 (castState_Charging w spell) Hst) as [Hc Hs].
    rewrite (gestureEffect_release now hd w spell Hc Hs Hg).
    destruct (Z_lt_le_dec (mana w) (Spell.manaCost spell)) as [Hm|Hm].
    { rewrite castSpell_guard by (right; exact Hm). discriminate. }
    destruct (nth_error (HandData.keypoints hd) 8) as [tip|] eqn:Htip.
    { rewrite (castSpell_cast now hd tip _ _ _ _ Hm Htip). discriminate. }
    intros _. exists hd, spell. apply nth_error_None in Htip.
    now repeat split.
  - intros (hd & spell & -> & Hst & Hg & Hm & Hlen).
    destruct (proj1 (castState_Charging w spell) Hst) as [Hc Hs].
    rewrite (gestureEffect_release now hd w spell Hc Hs Hg).
    unfold castSpell.
    replace (mana w <? Spell.manaCost spell)%Z with false
      by (symmetry; apply Z.ltb_ge; exact Hm).
    apply nth_error_None in Hlen. now rewrite Hlen.
Qed.

(** With a hand that has its ninth keypoint the gesture effect returns. *)
Lemma gestureEffect_returns (now : Z) (hd : HandData.t) (w : World) :
  (8 < List.length (HandData.keypoints hd))%nat ->
  exists w', gestureEffect now (Some hd) w = Some w'.
Proof.
  intros Hlen.
  destruct (nth_error (HandData.keypoints hd) 8) as [tip|] eqn:Htip.
  2:{ apply nth_error_None in Htip. lia. }
  destruct (castState w) as [|spell] eqn:Hst.
  - rewrite gestureEffect_no_release by (left; exact Hst). now eexists.
  - destruct (string_dec (HandData.gesture hd) "palm") as [Hg|Hg].
    + apply castState_Charging in Hst. destruct Hst as [Hc Hs].
      rewrite (gestureEffect_release now hd w spell Hc Hs Hg).
      destruct (Z_lt_le_dec (mana w) (Spell.manaCost spell)) as [Hm|Hm].
      * rewrite castSpell_guard by (right; exact Hm). now eexists.
      * rewrite (castSpell_cast now hd tip _ _ _ _ Hm Htip). now eexists.
    + rewrite gestureEffect_no_release by (right; exact Hg). now eexists.
Qed.

(** ** The shape of what the other callbacks write *)

(** Each of these callbacks writes a fixed set of cells: the state after
    it is the state before it with those cells replaced. *)
Lemma handleExperienceGain_shape (exp : Z) (w : World) :
  handleExperienceGain exp w =
  setExperience (experience (handleExperienceGain exp w))
    (setLevel (level (handleExperienceGain exp w)) w).
Proof.
  unfold handleExperienceGain.
  destruct (experience w + exp >=? 100)%Z; [reflexivity|].
  destruct w; reflexivity.
Qed.

Lemma applyHit_shape (w : World) (d : R) :
  applyHit w d =
  setExperience (experience (applyHit w d))
    (setLevel (level (applyHit w d))
       (setHitCount (hitCount w + 1)
          (setScarecrow
             (Target.mk (Target.x (scarecrow w)) (Target.y (scarecrow w))
                (Rmax 0 (Target.health (scarecrow w) - d))
                (Target.maxHealth (scarecrow w))) w))).
Proof.
  unfold applyHit. cbv zeta.
  match goal with |- context [handleExperienceGain 5 ?v] =>
    rewrite (handleExperienceGain_shape 5 v) at 1 end.
  reflexivity.
Qed.

Lemma fold_applyHit_shape (ds : list R) (w : World) :
  fold_left applyHit ds w =
  setExperience (experience (fold_left applyHit ds w))
    (setLevel (level (fold_left applyHit ds w))
       (setHitCount (hitCount (fold_left applyHit ds w))
          (setScarecrow (scarecrow (fold_left applyHit ds w)) w))).
Proof.
  revert w. induction ds as [|d ds IH]; intros w; simpl.
  - destruct w; reflexivity.
  - rewrite (IH (applyHit w d)) at 1. rewrite (applyHit_shape w d) at 5.
    reflexivity.
Qed.

Lemma updateProjectiles_shape (rnd : nat -> R) (w : World) :
  let w' := updateProjectiles rnd w in
  w' =
  setProjectiles (projectiles w')
    (setExperience (experience w')
       (setLevel (level w')
          (setHitCount (hitCount w') (setScarecrow (scarecrow w') w)))).
Proof.
  cbv zeta. unfold updateProjectiles.
  destruct (projectiles w) as [|p ps] eqn:E.
  - destruct w; simpl in *. now subst.
  - match goal with |- context [fold_left applyHit ?ds w] =>
      rewrite (fold_applyHit_shape ds w) at 1 end.
    reflexivity.
Qed.

Lemma respawnTimeout_shape (w : World) :
  let w' := respawnTimeout w in
  w' =
  setExperience (experience w')
    (setLevel (level w')
       (setScarecrow (scarecrow w') (setRespawnTimers (respawnTimers w') w))).
Proof.
  cbv zeta. unfold respawnTimeout. destruct (respawnTimers w) as [|n] eqn:E.
  - destruct w; simpl in *. now subst.
  - cbv zeta. unfold handleExperienceGain.
    match goal with |- context [if ?c then _ else _] => destruct c end;
      reflexivity.
Qed.

Lemma commit_shape (w : World) :
  let w' := commit w in
  w' = setRespawnDeps (respawnDeps w') (setRespawnTimers (respawnTimers w') w).
Proof.
  cbv zeta. unfold commit, respawnEffect.
  destruct (sameDeps _ _); [destruct w; reflexivity|].
  destruct (Rle_dec _ 0); [reflexivity|]. destruct w; reflexivity.
Qed.

(** ** Combo *)

Lemma act_comboCounted (a : Action) (w w' : World) :
  comboCounted w -> act a w = Some w' -> comboCounted w'.
Proof.
  unfold comboCounted. intros [Hr Hc].
  destruct a; simpl; intros H; try (injection H as <-); try (now split).
  - rewrite (commit_shape w). now split.
  - apply gestureEffect_Transition in H.
    destruct H as [|hd E Hrel|hd spell Hl Hf Hle
                   |hd spell Hst Hg Hlt|hd spell tip Hst Hg Hle Htip];
      try (now split).
    simpl. split; [|reflexivity]. rewrite Hr. lia.
  - rewrite (updateProjectiles_shape rnd w). now split.
  - unfold comboTimeout. destruct (comboTimers w) as [|n] eqn:E.
    + rewrite E. now split.
    + simpl. split; [|reflexivity]. rewrite Hr. lia.
  - rewrite (respawnTimeout_shape w). now split.
Qed.

Lemma run_comboCounted (actions : list Action) (w w' : World) :
  comboCounted w -> run actions w = Some w' -> comboCounted w'.
Proof.
  revert w. induction actions as [|a rest IH]; intros w Hinv; simpl.
  - intros H. injection H as <-. exact Hinv.
  - destruct (act a w) as [w1|] eqn:Ha; [|discriminate].
    apply IH. exact (act_comboCounted a w w1 Hinv Ha).
Qed.

Lemma initialWorld_comboCounted (width height : R) :
  comboCounted (initialWorld width height).
Proof. split; reflexivity. Qed.

(** X10: in every state the program reaches, the combo shown equals the
    combo ref, and both equal the number of casts whose 5000 ms decay has
    not fired yet; so the combo is never negative, every decay that fires
    takes exactly one off (the clamp [Math.max(0, ...)] never applies),
    and every release of a charged spell adds exactly one. *)
Theorem combo_counts_pending_casts
    (width height : R) (actions : list Action) (w : World) :
  run actions (initialWorld width height) = Some w ->
  comboCount w = comboCountRef w /\
  comboCountRef w = Z.of_nat (comboTimers w) /\
  (forall n, comboTimers w = S n ->
     comboCountRef (comboTimeout w) = (comboCountRef w - 1)%Z /\
     comboTimers (comboTimeout w) = n) /\
  (forall now hd spell w',
     castState w = Charging spell -> HandData.gesture hd = "palm" ->
     gestureEffect now (Some hd) w = Some w' ->
     comboCountRef w' = (comboCountRef w + 1)%Z /\
     comboTimers w' = S (comboTimers w)).
Proof.
  intros Hrun.
  destruct (run_comboCounted _ _ _ (initialWorld_comboCounted width height)
              Hrun) as [Hr Hc].
  split; [exact Hc|]. split; [exact Hr|]. split.
  - intros n Hn. unfold comboTimeout. rewrite Hn. simpl.
    split; [lia|reflexivity].
  - intros now hd spell w' Hst Hg H.
    pose proof (release_never_rejected width height actions w spell Hrun Hst)
      as Hle.
    apply gestureEffect_Transition in H.
    inversion H as [|hd0 E Hrel|hd0 sp Hl Hf Hle0
                   |hd0 sp Hst0 Hg0 Hlt|hd0 sp tip Hst0 Hg0 Hle0 Htip]; subst.
    + destruct Hrel as [Hidle|Hne]; congruence.
    + destruct (find_SPELLS_gesture _ _ Hf) as [Hin Heq].
      rewrite Hg in Heq. simpl in Hin.
      destruct Hin as [<-|[<-|[<-|[]]]]; discriminate.
    + assert (sp = spell) by congruence. subst sp. lia.
    + split; reflexivity.
Qed.

(** An instance: the state after the first cast, with combo 1. *)
Lemma combo_counts_pending_casts_witness :
  comboCount (afterCastAt 100 100) = comboCountRef (afterCastAt 100 100) /\
  comboCountRef (afterCastAt 100 100)
    = Z.of_nat (comboTimers (afterCastAt 100 100)) /\
  (forall n, comboTimers (afterCastAt 100 100) = S n ->
     comboCountRef (comboTimeout (afterCastAt 100 100))
       = (comboCountRef (afterCastAt 100 100) - 1)%Z /\
     comboTimers (comboTimeout (afterCastAt 100 100)) = n) /\
  (forall now hd spell w',
     castState (afterCastAt 100 100) = Charging spell ->
     HandData.gesture hd = "palm" ->
     gestureEffect now (Some hd) (afterCastAt 100 100) = Some w' ->
     comboCountRef w' = (comboCountRef (afterCastAt 100 100) + 1)%Z /\
     comboTimers w' = S (comboTimers (afterCastAt 100 100))).
Proof.
  apply (combo_counts_pending_casts 1000 800 (castAt 100 100)
           (afterCastAt 100 100)).
  reflexivity.
Defined.

(** ** Experience *)

(** A gain never gets lost in a level-up. *)
Lemma handleExperienceGain_total (exp : Z) (w : World) :
  totalExperience (handleExperienceGain exp w) = (totalExperience w + exp)%Z.
Proof.
  unfold handleExperienceGain, totalExperience.
  destruct (experience w + exp >=? 100)%Z; flat; lia.
Qed.

Lemma handleExperienceGain_range (exp : Z) (w : World) :
  (0 <= exp <= 100)%Z -> (0 <= experience w < 100)%Z ->
  (0 <= experience (handleExperienceGain exp w) < 100)%Z /\
  (level w <= level (handleExperienceGain exp w) <= level w + 1)%Z.
Proof.
  intros He Hx. unfold handleExperienceGain.
  destruct (experience w + exp >=? 100)%Z eqn:E; simpl.
  - rewrite Z.geb_leb in E. apply Z.leb_le in E. lia.
  - rewrite Z.geb_leb in E. apply Z.leb_gt in E. lia.
Qed.

Lemma handleExperienceGain_hitCount (exp : Z) (w : World) :
  hitCount (handleExperienceGain exp w) = hitCount w.
Proof. now rewrite handleExperienceGain_shape. Qed.

Lemma applyHit_experienceInRange (w : World) (d : R) :
  experienceInRange w -> experienceInRange (applyHit w d).
Proof.
  intros (Hx & Hl & Hh & Ht). unfold experienceInRange.
  rewrite applyHit_hitCount. unfold applyHit. cbv zeta.
  match goal with |- context [handleExperienceGain 5 ?v] =>
    rewrite (handleExperienceGain_total 5 v);
    destruct (handleExperienceGain_range 5 v) as [Hx' Hl'];
      [lia|exact Hx|];
    change (level v) with (level w) in Hl';
    change (totalExperience v) with (totalExperience w)
  end.
  repeat split; lia.
Qed.

Lemma fold_applyHit_experienceInRange (ds : list R) (w : World) :
  experienceInRange w -> experienceInRange (fold_left applyHit ds w).
Proof.
  revert w. induction ds as [|d ds IH]; intros w H; simpl; [exact H|].
  apply IH. now apply applyHit_experienceInRange.
Qed.

Lemma act_experienceInRange (a : Action) (w w' : World) :
  experienceInRange w -> act a w = Some w' -> experienceInRange w'.
Proof.
  intros Hinv.
  destruct a; simpl; intros H; try (injection H as <-); try exact Hinv.
  - rewrite (commit_shape w). exact Hinv.
  - apply gestureEffect_Transition in H. destruct H; exact Hinv.
  - unfold updateProjectiles. destruct (projectiles w); [exact Hinv|].
    now apply fold_applyHit_experienceInRange.
  - unfold comboTimeout. destruct (comboTimers w); exact Hinv.
  - unfold respawnTimeout. destruct (respawnTimers w); [exact Hinv|].
    cbv zeta. destruct Hinv as (Hx & Hl & Hh & Ht). unfold experienceInRange.
    match goal with |- context [handleExperienceGain 50 ?v] =>
      rewrite (handleExperienceGain_total 50 v);
      rewrite (handleExperienceGain_hitCount 50 v);
      destruct (handleExperienceGain_range 50 v) as [Hx' Hl'];
        [lia|exact Hx|];
      change (level v) with (level w) in Hl';
      change (totalExperience v) with (totalExperience w);
      change (hitCount v) with (hitCount w)
    end.
    repeat split; lia.
Qed.

Lemma run_experienceInRange (actions : list Action) (w w' : World) :
  experienceInRange w -> run actions w = Some w' -> experienceInRange w'.
Proof.
  revert w. induction actions as [|a rest IH]; intros w Hinv; simpl.
  - intros H. injection H as <-. exact Hinv.
  - destruct (act a w) as [w1|] eqn:Ha; [|discriminate].
    apply IH. exact (act_experienceInRange a w w1 Hinv Ha).
Qed.

Lemma initialWorld_experienceInRange (width height : R) :
  experienceInRange (initialWorld width height).
Proof. unfold experienceInRange, totalExperience. simpl. lia. Qed.

(** X11: in every state the program reaches, experience lies in [0, 100)
    and the level is at least 1: the gains are 5 and 50, so one level-up
    per call is always enough.  Hence the condition [experience >= 100]
    of the "Level Up!" notification in [App] never holds.  And every hit
    counted has been paid: the experience earned in all is at least five
    times the hit count. *)
Theorem level_up_never_shown
    (width height : R) (actions : list Action) (w : World) :
  run actions (initialWorld width height) = Some w ->
  (0 <= experience w < 100)%Z /\
  (1 <= level w)%Z /\
  (0 <= 5 * hitCount w <= totalExperience w)%Z /\
  levelUpShown w = false.
Proof.
  intros Hrun.
  destruct (run_experienceInRange _ _ _
              (initialWorld_experienceInRange width height) Hrun)
    as (Hx & Hl & Hh & Ht).
  repeat split; try lia.
  unfold levelUpShown. rewrite Z.geb_leb. apply Z.leb_gt. lia.
Qed.

(** An instance: the state after the first cast. *)
Lemma level_up_never_shown_witness :
  (0 <= experience (afterCastAt 100 100) < 100)%Z /\
  (1 <= level (afterCastAt 100 100))%Z /\
  (0 <= 5 * hitCount (afterCastAt 100 100)
     <= totalExperience (afterCastAt 100 100))%Z /\
  levelUpShown (afterCastAt 100 100) = false.
Proof.
  apply (level_up_never_shown 1000 800 (castAt 100 100) (afterCastAt 100 100)).
  reflexivity.
Defined.

(** ** What a frame does to the counts *)

Lemma outcomes_length (rnd : nat -> R) (combo : Z)
    (ps : list SpellProjectile.t) (k : nat) :
  (List.length (survivors (updateEach rnd k combo ps))
   + List.length (damages (updateEach rnd k combo ps))
   = List.length ps)%nat.
Proof.
  revert k. induction ps as [|p ps IH]; intros k; simpl; [reflexivity|].
  destruct (updateProjectile rnd k combo p); simpl;
    match goal with |- context [updateEach rnd ?j combo ps] =>
      pose proof (IH j) end; lia.
Qed.

Lemma fold_applyHit_hitCount (ds : list R) (w : World) :
  hitCount (fold_left applyHit ds w)
  = (hitCount w + Z.of_nat (List.length ds))%Z.
Proof.
  revert w. induction ds as [|d ds IH]; intros w; simpl fold_left.
  - simpl. lia.
  - rewrite IH, applyHit_hitCount. simpl List.length. lia.
Qed.

Lemma applyHit_total (w : World) (d : R) :
  totalExperience (applyHit w d) = (totalExperience w + 5)%Z /\
  (level w <= level (applyHit w d))%Z.
Proof.
  unfold applyHit. cbv zeta.
  match goal with |- context [handleExperienceGain 5 ?v] =>
    rewrite (handleExperienceGain_total 5 v);
    change (totalExperience v) with (totalExperience w);
    change (level w) with (level v)
  end.
  split; [reflexivity|].
  unfold handleExperienceGain.
  match goal with |- context [if ?c then _ else _] => destruct c end;
    flat; lia.
Qed.

Lemma fold_applyHit_total (ds : list R) (w : World) :
  totalExperience (fold_left applyHit ds w)
  = (totalExperience w + 5 * Z.of_nat (List.length ds))%Z /\
  (level w <= level (fold_left applyHit ds w))%Z.
Proof.
  revert w. induction ds as [|d ds IH]; intros w; simpl fold_left.
  - simpl. lia.
  - destruct (IH (applyHit w d)) as [-> Hl].
    destruct (applyHit_total w d) as [-> Hl']. simpl List.length. lia.
Qed.

Lemma updateProjectiles_counts (rnd : nat -> R) (w : World) :
  let w' := updateProjectiles rnd w in
  let hits := List.length (filter colliding (projectiles w)) in
  hitCount w' = (hitCount w + Z.of_nat hits)%Z /\
  totalExperience w' = (totalExperience w + 5 * Z.of_nat hits)%Z /\
  (level w <= level w')%Z.
Proof.
  cbv zeta. unfold updateProjectiles.
  destruct (projectiles w) as [|p ps] eqn:E.
  - simpl. lia.
  - cbn [hitCount level setProjectiles].
    change (totalExperience (setProjectiles ?a ?b)) with (totalExperience b).
    rewrite fold_applyHit_hitCount.
    destruct (fold_applyHit_total
                (damages (updateEach rnd 0 (comboCountRef w) (p :: ps))) w)
      as [-> Hl].
    rewrite damages_updateEach, length_map in *. repeat split; lia.
Qed.

(** X12: the books of one frame.  With [hits] the number of projectiles
    closer than 30 to their target, a frame removes exactly [hits]
    projectiles and adds none, raises the hit count by [hits] and the
    experience earned by [5 * hits], and leaves mana and the combo as
    they are; several projectiles landing in the same frame are all
    counted. *)
Theorem frame_accounting (rnd : nat -> R) (w : World) :
  let w' := updateProjectiles rnd w in
  let hits := List.length (filter colliding (projectiles w)) in
  (List.length (projectiles w') + hits = List.length (projectiles w))%nat /\
  hitCount w' = (hitCount w + Z.of_nat hits)%Z /\
  totalExperience w' = (totalExperience w + 5 * Z.of_nat hits)%Z /\
  mana w' = mana w /\
  comboCountRef w' = comboCountRef w.
Proof.
  cbv zeta.
  destruct (updateProjectiles_counts rnd w) as (Hh & Ht & _).
  split; [|split; [exact Hh|split; [exact Ht|]]].
  - unfold updateProjectiles.
    destruct (projectiles w) as [|p ps] eqn:E; [rewrite E; reflexivity|].
    cbn [projectiles setProjectiles].
    pose proof (outcomes_length rnd (comboCountRef w) (p :: ps) 0) as Hlen.
    rewrite damages_updateEach, length_map in Hlen. exact Hlen.
  - rewrite (updateProjectiles_shape rnd w). split; reflexivity.
Qed.

Ltac ledger :=
  unfold totalExperience, manaRegeneration, renderApp; flat; lia.

(** X13: where experience comes from.  Whatever the state, an action
    changes the experience earned in all by exactly what
    [experienceGained] says: 5 per projectile that lands in a frame, 50
    for a respawn timeout that fires, nothing otherwise; a level-up moves
    100 of it from [experience] into [level] and loses nothing.  Neither
    the level nor the hit count ever goes down. *)
Theorem experience_sources (a : Action) (w w' : World) :
  act a w = Some w' ->
  totalExperience w' = (totalExperience w + experienceGained a w)%Z /\
  (level w <= level w')%Z /\
  (hitCount w <= hitCount w')%Z.
Proof.
  destruct a; cbn [act experienceGained]; intros H; try (injection H as <-).
  - ledger.
  - ledger.
  - rewrite (commit_shape w). ledger.
  - apply gestureEffect_Transition in H. destruct H; unfold cast; ledger.
  - destruct (updateProjectiles_counts rnd w) as (Hh & Ht & Hl).
    rewrite Hh, Ht. lia.
  - unfold comboTimeout. destruct (comboTimers w); ledger.
  - unfold respawnTimeout. destruct (respawnTimers w) as [|n].
    + lia.
    + cbv zeta.
      match goal with |- context [handleExperienceGain 50 ?v] =>
        rewrite (handleExperienceGain_total 50 v);
        rewrite (handleExperienceGain_hitCount 50 v);
        change (totalExperience v) with (totalExperience w);
        change (hitCount v) with (hitCount w);
        change (level w) with (level v)
      end.
      repeat split; try lia.
      unfold handleExperienceGain.
      match goal with |- context [if ?c then _ else _] => destruct c end;
        flat; lia.
Qed.

(** An instance: the respawn of the defeated scarecrow, worth 50. *)
Lemma experience_sources_witness :
  totalExperience (respawnTimeout defeated)
    = (totalExperience defeated
       + experienceGained RespawnTimeout defeated)%Z /\
  (level defeated <= level (respawnTimeout defeated))%Z /\
  (hitCount defeated <= hitCount (respawnTimeout defeated))%Z.
Proof.
  apply (experience_sources RespawnTimeout defeated (respawnTimeout defeated)).
  reflexivity.
Defined.

(** ** Health of the scarecrow, damage and aim *)

Lemma updateProjectile_keeps (rnd : nat -> R) (k : nat) (combo : Z)
    (p p' : SpellProjectile.t) :
  updateProjectile rnd k combo p = Moved p' ->
  SpellProjectile.spell p' = SpellProjectile.spell p /\
  SpellProjectile.targetX p' = SpellProjectile.targetX p /\
  SpellProjectile.targetY p' = SpellProjectile.targetY p /\
  SpellProjectile.id p' = SpellProjectile.id p.
Proof.
  unfold updateProjectile. destruct (Rlt_dec _ 30); [discriminate|].
  intros E. injection E as <-. repeat split.
Qed.

(** What a move preserves holds of all projectiles a frame keeps. *)
Lemma survivors_Forall (P : SpellProjectile.t -> Prop) (rnd : nat -> R)
    (combo : Z) (ps : list SpellProjectile.t) (k : nat) :
  (forall j p p', updateProjectile rnd j combo p = Moved p' -> P p -> P p') ->
  Forall P ps -> Forall P (survivors (updateEach rnd k combo ps)).
Proof.
  intros HP H. revert k. induction H as [|p ps Hp _ IH]; intros k; simpl.
  - constructor.
  - destruct (updateProjectile rnd k combo p) as [d|p'] eqn:E.
    + apply IH.
    + constructor; [exact (HP k p p' E Hp)|apply IH].
Qed.

Lemma act_projectilesFromCatalogue (a : Action) (w w' : World) :
  spellFromCatalogue w -> projectilesFromCatalogue w ->
  act a w = Some w' -> projectilesFromCatalogue w'.
Proof.
  unfold projectilesFromCatalogue. intros Hc Hinv.
  destruct a; simpl; intros H; try (injection H as <-); try exact Hinv.
  - rewrite (commit_shape w). exact Hinv.
  - apply gestureEffect_Transition in H.
    destruct H as [|hd E Hrel|hd spell Hl Hf Hle
                   |hd spell Hst Hg Hlt|hd spell tip Hst Hg Hle Htip];
      try exact Hinv.
    simpl. apply Forall_app. split; [exact Hinv|].
    constructor; [|constructor].
    exact (Charging_from_catalogue w spell Hc Hst).
  - unfold updateProjectiles.
    destruct (projectiles w) as [|p ps] eqn:E; [now rewrite E|].
    cbn [projectiles setProjectiles].
    apply survivors_Forall; [|exact Hinv].
    intros j q q' Hq Hin.
    destruct (updateProjectile_keeps _ _ _ _ _ Hq) as (-> & _). exact Hin.
  - unfold comboTimeout. destruct (comboTimers w); exact Hinv.
  - rewrite (respawnTimeout_shape w). exact Hinv.
Qed.

Lemma SPELLS_damage (spell : Spell.t) :
  In spell SPELLS -> 20 <= Spell.damage spell <= 40.
Proof. simpl. intros [<-|[<-|[<-|[]]]]; simpl; lra. Qed.

Lemma damage_at_least_base (spell : Spell.t) (combo : Z) :
  In spell SPELLS -> (0 <= combo)%Z ->
  Spell.damage spell <= Spell.damage spell * (1 + IZR combo * 0.1).
Proof.
  intros Hin Hc. pose proof (SPELLS_damage spell Hin) as Hd.
  apply IZR_le in Hc. nra.
Qed.

Lemma fold_health_range (ds : list R) (h top : R) :
  Forall (fun d => 0 <= d) ds -> 0 <= h <= top ->
  0 <= fold_left (fun h d => Rmax 0 (h - d)) ds h <= top.
Proof.
  intros Hds. revert h. induction Hds as [|d ds Hd _ IH]; intros h Hh; simpl.
  - exact Hh.
  - apply IH. split; [apply Rmax_l|]. apply Rmax_lub; lra.
Qed.

Lemma scarecrow_fold_applyHit (ds : list R) (w : World) :
  Target.x (scarecrow (fold_left applyHit ds w)) = Target.x (scarecrow w) /\
  Target.y (scarecrow (fold_left applyHit ds w)) = Target.y (scarecrow w) /\
  Target.maxHealth (scarecrow (fold_left applyHit ds w))
    = Target.maxHealth (scarecrow w).
Proof.
  revert w. induction ds as [|d ds IH]; intros w; simpl; [repeat split|].
  destruct (IH (applyHit w d)) as (-> & -> & ->).
  rewrite scarecrow_applyHit. repeat split.
Qed.

(** A frame moves the scarecrow nowhere. *)
Lemma scarecrow_updateProjectiles (rnd : nat -> R) (w : World) :
  Target.x (scarecrow (updateProjectiles rnd w)) = Target.x (scarecrow w) /\
  Target.y (scarecrow (updateProjectiles rnd w)) = Target.y (scarecrow w) /\
  Target.maxHealth (scarecrow (updateProjectiles rnd w))
    = Target.maxHealth (scarecrow w).
Proof.
  unfold updateProjectiles. destruct (projectiles w); [repeat split|].
  cbn [scarecrow setProjectiles]. apply scarecrow_fold_applyHit.
Qed.

Lemma act_healthInRange (a : Action) (w w' : World) :
  comboCounted w -> projectilesFromCatalogue w -> healthInRange w ->
  act a w = Some w' -> healthInRange w'.
Proof.
  unfold healthInRange. intros [Hcombo _] Hcat Hinv.
  destruct a; simpl; intros H; try (injection H as <-); try exact Hinv.
  - rewrite (commit_shape w). exact Hinv.
  - apply gestureEffect_Transition in H. destruct H; exact Hinv.
  - destruct (scarecrow_updateProjectiles rnd w) as (_ & _ & ->).
    split; [|apply Hinv]. rewrite updateProjectiles_health.
    apply fold_health_range; [|apply Hinv].
    apply Forall_map. apply Forall_forall. intros p Hp.
    apply filter_In in Hp. destruct Hp as [Hp _].
    unfold projectilesFromCatalogue in Hcat.
    rewrite Forall_forall in Hcat.
    pose proof (damage_at_least_base _ (comboCountRef w) (Hcat p Hp)) as Hd.
    pose proof (SPELLS_damage _ (Hcat p Hp)).
    assert (Hcombo' : (0 <= comboCountRef w)%Z) by lia.
    cbv beta. apply Hd in Hcombo'. lra.
  - unfold comboTimeout. destruct (comboTimers w); exact Hinv.
  - unfold respawnTimeout. destruct (respawnTimers w); [exact Hinv|].
    match goal with |- context [handleExperienceGain 50 ?v] =>
      destruct (handleExperienceGain_frame 50 v) as (_ & -> & _) end.
    simpl. lra.
Qed.

(** The invariants of a fight, together. *)
Lemma run_fight (actions : list Action) (w w' : World) :
  manaInRange w -> comboCounted w -> projectilesFromCatalogue w ->
  healthInRange w -> run actions w = Some w' ->
  comboCounted w' /\ projectilesFromCatalogue w' /\ healthInRange w'.
Proof.
  revert w. induction actions as [|a rest IH]; intros w Hm Hc Hp Hh; simpl.
  - intros H. injection H as <-.
    split; [exact Hc|split; [exact Hp|exact Hh]].
  - destruct (act a w) as [w1|] eqn:Ha; [|discriminate].
    apply IH.
    + exact (act_manaInRange a w w1 Hm Ha).
    + exact (act_comboCounted a w w1 Hc Ha).
    + exact (act_projectilesFromCatalogue a w w1 (proj2 Hm) Hp Ha).
    + exact (act_healthInRange a w w1 Hc Hp Hh Ha).
Qed.

Lemma initialWorld_fight (width height : R) (actions : list Action)
    (w : World) :
  run actions (initialWorld width height) = Some w ->
  comboCounted w /\ projectilesFromCatalogue w /\ healthInRange w.
Proof.
  apply run_fight.
  - apply initialWorld_manaInRange.
  - apply initialWorld_comboCounted.
  - constructor.
  - unfold healthInRange. simpl. lra.
Qed.

(** X14: in every state the program reaches, the health of the scarecrow
    lies between 0 and its maximum, and the maximum is 500: no hit heals
    (damage is never negative, because the combo never is), so the width
    [healthPercentage] of the health bar that [Scarecrow] draws lies
    between 0 and 100 percent. *)
Theorem health_bar_in_range
    (width height : R) (actions : list Action) (w : World) :
  run actions (initialWorld width height) = Some w ->
  0 <= Target.health (scarecrow w) <= 500 /\
  Target.maxHealth (scarecrow w) = 500 /\
  0 <= healthPercentage (Target.health (scarecrow w))
                        (Target.maxHealth (scarecrow w)) <= 100.
Proof.
  intros Hrun.
  destruct (initialWorld_fight _ _ _ _ Hrun) as (_ & _ & [Hh Hm]).
  rewrite Hm in *. unfold healthPercentage. repeat split; lra.
Qed.

(** An instance: the state after the first cast. *)
Lemma health_bar_in_range_witness :
  0 <= Target.health (scarecrow (afterCastAt 100 100)) <= 500 /\
  Target.maxHealth (scarecrow (afterCastAt 100 100)) = 500 /\
  0 <= healthPercentage (Target.health (scarecrow (afterCastAt 100 100)))
         (Target.maxHealth (scarecrow (afterCastAt 100 100))) <= 100.
Proof.
  apply (health_bar_in_range 1000 800 (castAt 100 100) (afterCastAt 100 100)).
  reflexivity.
Defined.

(** X15: in every state the program reaches, a projectile that lands
    deals its spell's base damage or more, and never less than 20 (the
    base damage of the weakest spell): the combo multiplier
    [1 + 0.1 * combo] is at least 1, and it is the combo the player sees
    on screen. *)
Theorem hit_deals_at_least_base_damage
    (width height : R) (actions : list Action) (w : World)
    (rnd : nat -> R) (k : nat) (p : SpellProjectile.t) :
  run actions (initialWorld width height) = Some w ->
  In p (projectiles w) ->
  distToTarget p < 30 ->
  exists damage,
    updateProjectile rnd k (comboCountRef w) p = Hit damage /\
    20 <= Spell.damage (SpellProjectile.spell p) <= damage /\
    damage = Spell.damage (SpellProjectile.spell p)
             * (1 + IZR (comboCount w) * 0.1).
Proof.
  intros Hrun Hin Hlt.
  destruct (initialWorld_fight _ _ _ _ Hrun) as ([Hr Hc] & Hcat & _).
  unfold projectilesFromCatalogue in Hcat. rewrite Forall_forall in Hcat.
  eexists. split; [apply updateProjectile_hit; exact Hlt|].
  pose proof (SPELLS_damage _ (Hcat p Hin)).
  pose proof (damage_at_least_base _ (comboCountRef w) (Hcat p Hin)
                ltac:(lia)).
  rewrite Hc. repeat split; lra.
Qed.

(** An instance: the fireball cast with the hand on the scarecrow. *)
Lemma hit_deals_at_least_base_damage_witness :
  exists damage,
    updateProjectile (fun _ => 0) 0 (comboCountRef (afterCastAt 750 400))
                     fireballAtTarget = Hit damage /\
    20 <= Spell.damage (SpellProjectile.spell fireballAtTarget) <= damage /\
    damage = Spell.damage (SpellProjectile.spell fireballAtTarget)
             * (1 + IZR (comboCount (afterCastAt 750 400)) * 0.1).
Proof.
  apply (hit_deals_at_least_base_damage 1000 800 (castAt 750 400)
           (afterCastAt 750 400) (fun _ => 0) 0%nat fireballAtTarget).
  - reflexivity.
  - left. reflexivity.
  - exact fireballAtTarget_collides.
Defined.

Lemma act_aimedAtScarecrow (width height : R) (a : Action) (w w' : World) :
  aimedAtScarecrow width height w -> act a w = Some w' ->
  aimedAtScarecrow width height w'.
Proof.
  unfold aimedAtScarecrow. intros (Hw & Hh & Hx & Hy & Hp).
  destruct a; simpl; intros H; try (injection H as <-);
    try (repeat split; assumption).
  - rewrite (commit_shape w). repeat split; assumption.
  - apply gestureEffect_Transition in H.
    destruct H as [|hd E Hrel|hd spell Hl Hf Hle
                   |hd spell Hst Hg Hlt|hd spell tip Hst Hg Hle Htip];
      try (repeat split; assumption).
    repeat split; try assumption. simpl.
    apply Forall_app. split; [exact Hp|].
    constructor; [|constructor]. simpl. now split.
  - destruct (scarecrow_updateProjectiles rnd w) as (-> & -> & _).
    rewrite (updateProjectiles_shape rnd w) at 1 2.
    repeat split; try assumption.
    unfold updateProjectiles.
    destruct (projectiles w) as [|p ps] eqn:E; [now rewrite E|].
    cbn [projectiles setProjectiles].
    apply survivors_Forall; [|exact Hp].
    intros j q q' Hq Hin.
    destruct (updateProjectile_keeps _ _ _ _ _ Hq) as (_ & -> & -> & _).
    exact Hin.
  - unfold comboTimeout. destruct (comboTimers w); repeat split; assumption.
  - unfold respawnTimeout.
    destruct (respawnTimers w); [repeat split; assumption|]. cbv zeta.
    match goal with |- context [handleExperienceGain 50 ?v] =>
      rewrite (handleExperienceGain_shape 50 v) end.
    simpl. rewrite Hw, Hh. repeat split; assumption.
Qed.

Lemma run_aimedAtScarecrow (width height : R) (actions : list Action)
    (w w' : World) :
  aimedAtScarecrow width height w -> run actions w = Some w' ->
  aimedAtScarecrow width height w'.
Proof.
  revert w. induction actions as [|a rest IH]; intros w Hinv; simpl.
  - intros H. injection H as <-. exact Hinv.
  - destruct (act a w) as [w1|] eqn:Ha; [|discriminate].
    apply IH. exact (act_aimedAtScarecrow width height a w w1 Hinv Ha).
Qed.

(** X16: in a window that keeps its size, every projectile the program
    holds flies at the place where the scarecrow stands, three quarters
    across the window and half way down: the target a projectile was
    given at its cast is still the position of the scarecrow after any
    number of hits and respawns, so the hit test of a frame measures the
    distance to the scarecrow. *)
Theorem projectiles_fly_at_the_scarecrow
    (width height : R) (actions : list Action) (w : World)
    (p : SpellProjectile.t) :
  run actions (initialWorld width height) = Some w ->
  In p (projectiles w) ->
  SpellProjectile.targetX p = Target.x (scarecrow w) /\
  SpellProjectile.targetY p = Target.y (scarecrow w) /\
  Target.x (scarecrow w) = width * 0.75 /\
  Target.y (scarecrow w) = height / 2 /\
  distToTarget p
    = hypot (Target.x (scarecrow w) - SpellProjectile.x p)
            (Target.y (scarecrow w) - SpellProjectile.y p).
Proof.
  intros Hrun Hin.
  assert (Hinit : aimedAtScarecrow width height (initialWorld width height))
    by (repeat split; constructor).
  destruct (run_aimedAtScarecrow _ _ _ _ _ Hinit Hrun)
    as (_ & _ & Hx & Hy & Hp).
  rewrite Forall_forall in Hp. destruct (Hp p Hin) as [Htx Hty].
  unfold distToTarget. rewrite Htx, Hty, Hx, Hy. repeat split.
Qed.

(** An instance: the fireball of the first cast. *)
Lemma projectiles_fly_at_the_scarecrow_witness :
  SpellProjectile.targetX (fireballFrom 100 100)
    = Target.x (scarecrow (afterCastAt 100 100)) /\
  SpellProjectile.targetY (fireballFrom 100 100)
    = Target.y (scarecrow (afterCastAt 100 100)) /\
  Target.x (scarecrow (afterCastAt 100 100)) = 1000 * 0.75 /\
  Target.y (scarecrow (afterCastAt 100 100)) = 800 / 2 /\
  distToTarget (fireballFrom 100 100)
    = hypot (Target.x (scarecrow (afterCastAt 100 100))
             - SpellProjectile.x (fireballFrom 100 100))
            (Target.y (scarecrow (afterCastAt 100 100))
             - SpellProjectile.y (fireballFrom 100 100)).
Proof.
  apply (projectiles_fly_at_the_scarecrow 1000 800 (castAt 100 100)
           (afterCastAt 100 100) (fireballFrom 100 100)).
  - reflexivity.
  - left. reflexivity.
Defined.

(** ** Particle trails *)

Lemma ages_grow (m : nat) :
  (map S (ages m) ++ [1; 1; 1])%list%nat = ages (S m).
Proof.
  induction m as [|n IH]; [reflexivity|].
  change (ages (S n)) with ([S n; S n; S n] ++ ages n)%list at 1.
  rewrite map_app, <- app_assoc, IH. reflexivity.
Qed.

Lemma ages_bounds (m j : nat) : In j (ages m) -> (1 <= j <= m)%nat.
Proof.
  induction m as [|n IH]; simpl; [contradiction|].
  intros [<-|[<-|[<-|H]]]; try lia. apply IH in H. lia.
Qed.

Lemma ages_length (m : nat) : List.length (ages m) = (3 * m)%nat.
Proof. induction m as [|n IH]; simpl; [reflexivity|]. rewrite IH. lia. Qed.

Lemma lifeAfter_S (j : nat) : lifeAfter j - 0.02 = lifeAfter (S j).
Proof. unfold lifeAfter. rewrite S_INR. lra. Qed.

Lemma lifeAfter_range (j : nat) :
  (1 <= j <= 49)%nat -> 0 < lifeAfter j < 1.
Proof.
  intros [H1 H49]. unfold lifeAfter.
  apply le_INR in H1, H49.
  replace (INR 1) with 1 in H1 by reflexivity.
  replace (INR 49) with 49 in H49
    by (rewrite INR_IZR_INZ; reflexivity).
  lra.
Qed.

(** The fiftieth step takes the life to 0, and the filter keeps only
    [life > 0]. *)
Lemma lifeAfter_50 : lifeAfter 50 = 0.
Proof.
  unfold lifeAfter.
  replace (INR 50) with 50 by (rewrite INR_IZR_INZ; reflexivity). lra.
Qed.

Lemma life_filter_alive (qs : list Particle.t) :
  map Particle.life (filter alive qs) =
  filter (fun l => if Rgt_dec l 0 then true else false)
         (map Particle.life qs).
Proof.
  induction qs as [|q qs IH]; simpl; [reflexivity|].
  unfold alive at 1. destruct (Rgt_dec (Particle.life q) 0); simpl;
    now rewrite IH.
Qed.

Lemma filter_all {A : Type} (f : A -> bool) (xs : list A) :
  (forall x, In x xs -> f x = true) -> filter f xs = xs.
Proof.
  induction xs as [|x xs IH]; intros H; simpl; [reflexivity|].
  rewrite (H x (or_introl eq_refl)). f_equal. apply IH.
  intros y Hy. apply H. now right.
Qed.

Lemma live_trail (m : nat) :
  (m <= 49)%nat ->
  filter (fun l => if Rgt_dec l 0 then true else false)
         (map lifeAfter (ages m)) = map lifeAfter (ages m).
Proof.
  intros Hm. apply filter_all. intros l Hl.
  apply in_map_iff in Hl. destruct Hl as (j & <- & Hj).
  apply ages_bounds in Hj.
  destruct (lifeAfter_range j ltac:(lia)) as [Hpos _].
  destruct (Rgt_dec (lifeAfter j) 0); [reflexivity|lra].
Qed.

(** One frame of a trail: the particles age, three join, and those of the
    fiftieth frame back are gone. *)
Lemma trail_step (m : nat) (qs : list Particle.t) (n1 n2 n3 : Particle.t) :
  (m <= 49)%nat ->
  map Particle.life qs = map lifeAfter (ages m) ->
  Particle.life n1 = 1 -> Particle.life n2 = 1 -> Particle.life n3 = 1 ->
  map Particle.life
      (filter alive (map ageParticle (qs ++ [n1; n2; n3])%list))
  = map lifeAfter (ages (Nat.min (S m) 49)).
Proof.
  intros Hm Hqs H1 H2 H3.
  rewrite life_filter_alive, map_map.
  assert (E : map (fun q => Particle.life (ageParticle q))
                  (qs ++ [n1; n2; n3])%list
              = map lifeAfter (ages (S m))).
  { rewrite <- ages_grow, !map_app, map_map.
    f_equal.
    - change (fun q => Particle.life (ageParticle q))
        with (fun q => Particle.life q - 0.02).
      rewrite <- (map_map Particle.life (fun l => l - 0.02)), Hqs, map_map.
      apply map_ext. intros j. apply lifeAfter_S.
    - simpl. rewrite H1, H2, H3.
      replace (1 - 0.02) with (lifeAfter 1)
        by (unfold lifeAfter; simpl; lra).
      reflexivity. }
  rewrite E. destruct (Nat.eq_dec m 49) as [->|Hne].
  - change (Nat.min 50 49) with 49%nat.
    change (ages 50) with ([50; 50; 50] ++ ages 49)%list%nat.
    rewrite map_app, filter_app, live_trail by lia.
    simpl map at 1. simpl filter. rewrite lifeAfter_50.
    destruct (Rgt_dec 0 0); [lra|]. reflexivity.
  - replace (Nat.min (S m) 49) with (S m) by lia. apply live_trail. lia.
Qed.

Lemma updateProjectile_trail (rnd : nat -> R) (k : nat) (combo : Z)
    (m : nat) (p p' : SpellProjectile.t) :
  (m <= 49)%nat -> trailOf m p ->
  updateProjectile rnd k combo p = Moved p' ->
  trailOf (Nat.min (S m) 49) p'.
Proof.
  intros Hm Ht. unfold updateProjectile.
  destruct (Rlt_dec _ 30); [discriminate|].
  intros E. injection E as <-. unfold trailOf.
  cbn [SpellProjectile.particles].
  now apply trail_step.
Qed.

Lemma flight_trail (frames : list ((nat -> R) * nat * Z)) (m : nat)
    (p p' : SpellProjectile.t) :
  (m <= 49)%nat -> trailOf m p -> flight frames p = Some p' ->
  trailOf (Nat.min (m + List.length frames) 49) p'.
Proof.
  revert m p. induction frames as [|[[rnd k] combo] rest IH];
    intros m p Hm Ht; simpl.
  - intros E. injection E as <-.
    now replace (Nat.min (m + 0) 49) with m by lia.
  - destruct (updateProjectile rnd k combo p) as [d|p1] eqn:E; [discriminate|].
    intros H.
    pose proof (updateProjectile_trail rnd k combo m p p1 Hm Ht E) as Ht1.
    pose proof (IH (Nat.min (S m) 49) p1 ltac:(lia) Ht1 H) as Ht2.
    replace (Nat.min (m + S (List.length rest)) 49)
      with (Nat.min (Nat.min (S m) 49 + List.length rest) 49) by lia.
    exact Ht2.
Qed.

Lemma trailOf_facts (m : nat) (p : SpellProjectile.t) :
  (m <= 49)%nat -> trailOf m p ->
  List.length (SpellProjectile.particles p) = (3 * m)%nat /\
  Forall (fun q => 0 < Particle.life q < 1) (SpellProjectile.particles p).
Proof.
  intros Hm Ht. unfold trailOf in Ht. split.
  - rewrite <- (length_map Particle.life), Ht, length_map. apply ages_length.
  - apply Forall_forall. intros q Hq.
    apply (in_map Particle.life) in Hq. rewrite Ht in Hq.
    apply in_map_iff in Hq. destruct Hq as (j & <- & Hj).
    apply ages_bounds in Hj. apply lifeAfter_range. lia.
Qed.

(** X17: the trail of a projectile.  A projectile that starts without
    particles and is still in flight after [n] frames carries exactly
    [3 * min(n, 49)] particles, each with a life strictly between 0 and
    1: every frame adds three and ages all by 0.02, and a particle is
    dropped in the frame that takes its life to 0, its fiftieth.
    (Real arithmetic; in doubles the fiftieth value is slightly below 0
    and the same particles are dropped.) *)
Theorem trail_length_in_flight (frames : list ((nat -> R) * nat * Z))
    (p p' : SpellProjectile.t) :
  SpellProjectile.particles p = [] ->
  flight frames p = Some p' ->
  List.length (SpellProjectile.particles p')
    = (3 * Nat.min (List.length frames) 49)%nat /\
  Forall (fun q => 0 < Particle.life q < 1) (SpellProjectile.particles p').
Proof.
  intros Hp Hf.
  assert (Ht : trailOf 0 p) by (unfold trailOf; now rewrite Hp).
  pose proof (flight_trail frames 0 p p' ltac:(lia) Ht Hf) as Ht'.
  simpl in Ht'. apply trailOf_facts; [lia|exact Ht'].
Qed.

Lemma fireballFrom_far : 30 <= distToTarget (fireballFrom 100 400).
Proof.
  unfold distToTarget, hypot, fireballFrom. simpl.
  replace 30 with (sqrt (30 * 30)) at 1 by (apply sqrt_square; lra).
  apply sqrt_le_1_alt. lra.
Qed.

(** An instance: the first frame of the fireball cast from (100, 400). *)
Lemma trail_length_in_flight_witness :
  exists p',
    flight oneFrame (fireballFrom 100 400) = Some p' /\
    List.length (SpellProjectile.particles p')
      = (3 * Nat.min (List.length oneFrame) 49)%nat /\
    Forall (fun q => 0 < Particle.life q < 1) (SpellProjectile.particles p').
Proof.
  destruct (updateProjectile_moved (fun _ => 0.5) 0 1 (fireballFrom 100 400)
              fireballFrom_far) as (p' & E & _).
  assert (Hf : flight oneFrame (fireballFrom 100 400) = Some p')
    by (simpl; now rewrite E).
  exists p'. split; [exact Hf|].
  exact (trail_length_in_flight _ (fireballFrom 100 400) p' eq_refl Hf).
Defined.

Lemma act_trails (a : Action) (w w' : World) :
  trails w -> act a w = Some w' -> trails w'.
Proof.
  unfold trails. intros Hinv.
  destruct a; simpl; intros H; try (injection H as <-); try exact Hinv.
  - rewrite (commit_shape w). exact Hinv.
  - apply gestureEffect_Transition in H.
    destruct H as [|hd E Hrel|hd spell Hl Hf Hle
                   |hd spell Hst Hg Hlt|hd spell tip Hst Hg Hle Htip];
      try exact Hinv.
    simpl. apply Forall_app. split; [exact Hinv|].
    constructor; [|constructor]. exists 0%nat. split; [lia|reflexivity].
  - unfold updateProjectiles.
    destruct (projectiles w) as [|p ps] eqn:E; [now rewrite E|].
    cbn [projectiles setProjectiles].
    apply survivors_Forall; [|exact Hinv].
    intros j q q' Hq (m & Hm & Ht). exists (Nat.min (S m) 49).
    split; [lia|]. exact (updateProjectile_trail _ _ _ m q q' Hm Ht Hq).
  - unfold comboTimeout. destruct (comboTimers w); exact Hinv.
  - rewrite (respawnTimeout_shape w). exact Hinv.
Qed.

Lemma run_trails (actions : list Action) (w w' : World) :
  trails w -> run actions w = Some w' -> trails w'.
Proof.
  revert w. induction actions as [|a rest IH]; intros w Hinv; simpl.
  - intros H. injection H as <-. exact Hinv.
  - destruct (act a w) as [w1|] eqn:Ha; [|discriminate].
    apply IH. exact (act_trails a w w1 Hinv Ha).
Qed.

(** X18: in every state the program reaches, no projectile carries more
    than 147 particles, however many projectiles are in flight and
    however long they fly, and no stored particle has a life outside
    (0, 1): the canvas never draws a particle with an alpha of 0 or
    less. *)
Theorem particles_bounded
    (width height : R) (actions : list Action) (w : World)
    (p : SpellProjectile.t) :
  run actions (initialWorld width height) = Some w ->
  In p (projectiles w) ->
  (List.length (SpellProjectile.particles p) <= 147)%nat /\
  Forall (fun q => 0 < Particle.life q < 1) (SpellProjectile.particles p).
Proof.
  intros Hrun Hin.
  assert (Hinit : trails (initialWorld width height)) by constructor.
  pose proof (run_trails _ _ _ Hinit Hrun) as Ht. unfold trails in Ht.
  rewrite Forall_forall in Ht. destruct (Ht p Hin) as (m & Hm & Hp).
  destruct (trailOf_facts m p Hm Hp) as [Hlen Hlife].
  split; [lia|exact Hlife].
Qed.

(** An instance: the fireball of the first cast. *)
Lemma particles_bounded_witness :
  (List.length (SpellProjectile.particles (fireballFrom 100 100))
   <= 147)%nat /\
  Forall (fun q => 0 < Particle.life q < 1)
         (SpellProjectile.particles (fireballFrom 100 100)).
Proof.
  apply (particles_bounded 1000 800 (castAt 100 100) (afterCastAt 100 100)
           (fireballFrom 100 100)).
  - reflexivity.
  - left. reflexivity.
Defined.

(** ** The charge ring *)

Lemma SPELLS_chargeTime (spell : Spell.t) :
  In spell SPELLS -> (0 < Spell.chargeTime spell)%Z.
Proof. simpl. intros [<-|[<-|[<-|[]]]]; simpl; lia. Qed.

(** X19: the charge ring fills in exactly [chargeTime] milliseconds.  For
    a spell of the catalogue and a clock that has not gone back behind
    the start of the charge, [updateCharge] writes only [chargeProgress];
    the value lies between 0 and 1; before [chargeTime] has elapsed it is
    [elapsed / chargeTime], below 1, and the callback asks for another
    frame; from then on it is 1 and the callback stops.  The charge
    effect runs this callback exactly when a spell is being charged, and
    does nothing otherwise. *)
Theorem charge_fills_in_chargeTime (now : Z) (w : World) (spell : Spell.t) :
  In spell SPELLS ->
  (chargeStartTime w <= now)%Z ->
  let elapsed := (now - chargeStartTime w)%Z in
  let w' := fst (updateCharge now spell w) in
  let again := snd (updateCharge now spell w) in
  w' = setChargeProgress (chargeProgress w') w /\
  0 <= chargeProgress w' <= 1 /\
  ((elapsed < Spell.chargeTime spell)%Z ->
   chargeProgress w' = IZR elapsed / IZR (Spell.chargeTime spell) /\
   chargeProgress w' < 1 /\ again = true) /\
  ((Spell.chargeTime spell <= elapsed)%Z ->
   chargeProgress w' = 1 /\ again = false) /\
  (castState w = Charging spell ->
   chargeEffect now w = updateCharge now spell w) /\
  (castState w = Idle -> chargeEffect now w = (w, false)).
Proof.
  intros Hin Hnow. cbv zeta.
  unfold updateCharge. cbv zeta.
  cbn [fst snd chargeProgress setChargeProgress].
  pose proof (SPELLS_chargeTime spell Hin) as Hpos.
  set (elapsed := (now - chargeStartTime w)%Z).
  set (T := Spell.chargeTime spell) in *.
  assert (HT : 0 < IZR T) by (apply IZR_lt; exact Hpos).
  assert (He : 0 <= IZR elapsed) by (apply IZR_le; unfold elapsed; lia).
  assert (Hq : 0 <= IZR elapsed / IZR T)
    by (apply Rmult_le_pos; [exact He|left; now apply Rinv_0_lt_compat]).
  split; [reflexivity|]. split; [|split; [|split; [|split]]].
  - split; [apply Rmin_glb; lra|apply Rmin_r].
  - intros Hlt.
    assert (Hq1 : IZR elapsed / IZR T < 1).
    { apply Rmult_lt_reg_r with (IZR T); [exact HT|].
      replace (IZR elapsed / IZR T * IZR T) with (IZR elapsed)
        by (field; lra).
      rewrite Rmult_1_l. now apply IZR_lt. }
    rewrite Rmin_left by lra. repeat split; [exact Hq1|].
    destruct (Rlt_dec _ 1); [reflexivity|contradiction].
  - intros Hge.
    assert (Hq1 : 1 <= IZR elapsed / IZR T).
    { apply Rmult_le_reg_r with (IZR T); [exact HT|].
      replace (IZR elapsed / IZR T * IZR T) with (IZR elapsed)
        by (field; lra).
      rewrite Rmult_1_l. now apply IZR_le. }
    rewrite Rmin_right by lra. split; [reflexivity|].
    destruct (Rlt_dec 1 1); [lra|reflexivity].
  - intros Hst. apply castState_Charging in Hst. destruct Hst as [Hc Hs].
    unfold chargeEffect. now rewrite Hs, Hc.
  - unfold castState, chargeEffect. destruct (currentSpell w); [|reflexivity].
    destruct (isCharging w); [discriminate|reflexivity].
Qed.

(** An instance: the fireball, charged since time 1, at time 501. *)
Lemma charge_fills_in_chargeTime_witness :
  let elapsed := (501 - chargeStartTime chargingFireball)%Z in
  let w' := fst (updateCharge 501 fireball chargingFireball) in
  let again := snd (updateCharge 501 fireball chargingFireball) in
  w' = setChargeProgress (chargeProgress w') chargingFireball /\
  0 <= chargeProgress w' <= 1 /\
  ((elapsed < Spell.chargeTime fireball)%Z ->
   chargeProgress w' = IZR elapsed / IZR (Spell.chargeTime fireball) /\
   chargeProgress w' < 1 /\ again = true) /\
  ((Spell.chargeTime fireball <= elapsed)%Z ->
   chargeProgress w' = 1 /\ again = false) /\
  (castState chargingFireball = Charging fireball ->
   chargeEffect 501 chargingFireball
     = updateCharge 501 fireball chargingFireball) /\
  (castState chargingFireball = Idle ->
   chargeEffect 501 chargingFireball = (chargingFireball, false)).
Proof.
  apply (charge_fills_in_chargeTime 501 chargingFireball fireball).
  - left. reflexivity.
  - vm_compute. discriminate.
Defined.

(** ** Hand detection *)

Lemma toKeypoint_Some (W sx sy : R) (index : nat) (landmark : list Q) :
  (exists kp, toKeypoint W sx sy index landmark = Some kp) <->
  (2 <= List.length landmark)%nat /\ (index < 21)%nat.
Proof.
  unfold toKeypoint. split.
  - intros [kp E].
    destruct landmark as [|lx [|ly rest]]; try discriminate.
    destruct (nth_error KEYPOINT_NAMES index) eqn:En; [|discriminate].
    split; [simpl; lia|].
    change 21%nat with (List.length KEYPOINT_NAMES).
    apply nth_error_Some. congruence.
  - intros [Hl Hi].
    destruct landmark as [|lx [|ly rest]]; try (simpl in Hl; lia).
    destruct (nth_error KEYPOINT_NAMES index) eqn:En.
    + eexists. reflexivity.
    + apply nth_error_None in En. simpl in En. lia.
Qed.

Lemma toKeypoints_Some (W sx sy : R) (ls : Landmarks) (index : nat) :
  (exists kps, toKeypoints W sx sy index ls = Some kps) <->
  Forall (fun row => (2 <= List.length row)%nat) ls /\
  (ls = [] \/ (index + List.length ls <= 21)%nat).
Proof.
  revert index. induction ls as [|l ls IH]; intros index; simpl.
  - split; [intros _; split; [constructor|now left]|intros _; now eexists].
  - split.
    + intros [kps E].
      destruct (toKeypoint W sx sy index l) as [kp|] eqn:Ek; [|discriminate].
      destruct (toKeypoints W sx sy (S index) ls) as [kps'|] eqn:Ek';
        [|discriminate].
      destruct (proj1 (toKeypoint_Some W sx sy index l)
                  (ex_intro _ kp Ek)) as [Hl Hi].
      destruct (proj1 (IH (S index)) (ex_intro _ kps' Ek')) as [Hall Hn].
      split; [now constructor|]. right.
      destruct Hn as [->|Hn]; simpl; lia.
    + intros [Hall [Hn|Hn]]; [discriminate|].
      inversion Hall as [|? ? Hl Hall']; subst.
      destruct (proj2 (toKeypoint_Some W sx sy index l)) as [kp ->];
        [split; [exact Hl|lia]|].
      destruct (proj2 (IH (S index))) as [kps' ->].
      * split; [exact Hall'|]. right. lia.
      * now eexists.
Qed.

Lemma toKeypoints_length (W sx sy : R) (ls : Landmarks) (index : nat)
    (kps : list HandKeypoint.t) :
  toKeypoints W sx sy index ls = Some kps ->
  List.length kps = List.length ls.
Proof.
  revert index kps. induction ls as [|l ls IH]; intros index kps; simpl.
  - intros E. now injection E as <-.
  - destruct (toKeypoint W sx sy index l) as [kp|]; [|discriminate].
    destruct (toKeypoints W sx sy (S index) ls) as [kps'|] eqn:Ek';
      [|discriminate].
    intros E. injection E as <-. simpl. f_equal. now apply (IH (S index)).
Qed.

(** Keypoint [i] comes from landmark [i]. *)
Lemma toKeypoints_nth (W sx sy : R) (ls : Landmarks) (index i : nat)
    (kps : list HandKeypoint.t) (kp : HandKeypoint.t) :
  toKeypoints W sx sy index ls = Some kps ->
  nth_error kps i = Some kp ->
  exists landmark,
    nth_error ls i = Some landmark /\
    toKeypoint W sx sy (index + i) landmark = Some kp.
Proof.
  revert index i kps. induction ls as [|l ls IH]; intros index i kps; simpl.
  - intros E. injection E as <-. destruct i; discriminate.
  - destruct (toKeypoint W sx sy index l) as [kp0|] eqn:Ek; [|discriminate].
    destruct (toKeypoints W sx sy (S index) ls) as [kps'|] eqn:Ek';
      [|discriminate].
    intros E. injection E as <-. destruct i as [|i]; simpl.
    + intros E. injection E as <-. exists l. split; [reflexivity|].
      now rewrite Nat.add_0_r.
    + intros Hi. destruct (IH (S index) i kps' Ek' Hi) as (lm & Hlm & Hk).
      exists lm. split; [exact Hlm|].
      now replace (index + S i)%nat with (S index + i)%nat by lia.
Qed.

Lemma skipn_nth_error {A : Type} (l : list A) (n : nat) (x : A) :
  nth_error l n = Some x -> skipn n l = x :: skipn (S n) l.
Proof.
  revert l. induction n as [|n IH]; intros [|y l]; simpl; try discriminate.
  - intros E. now injection E as ->.
  - intros E. now rewrite (IH l E).
Qed.

(** The keypoints are named after [KEYPOINT_NAMES], in order. *)
Lemma toKeypoints_names (W sx sy : R) (ls : Landmarks) (index : nat)
    (kps : list HandKeypoint.t) :
  toKeypoints W sx sy index ls = Some kps ->
  map HandKeypoint.name kps
  = firstn (List.length ls) (skipn index KEYPOINT_NAMES).
Proof.
  revert index kps. induction ls as [|l ls IH]; intros index kps.
  - simpl. intros E. now injection E as <-.
  - cbn [toKeypoints List.length].
    destruct (toKeypoint W sx sy index l) as [kp|] eqn:Ek; [|discriminate].
    destruct (toKeypoints W sx sy (S index) ls) as [kps'|] eqn:Ek';
      [|discriminate].
    intros E. injection E as <-.
    unfold toKeypoint in Ek.
    destruct (nth_error l 0), (nth_error l 1); try discriminate.
    destruct (nth_error KEYPOINT_NAMES index) as [name|] eqn:En;
      [|discriminate].
    injection Ek as <-.
    rewrite (skipn_nth_error _ _ _ En). cbn [map firstn HandKeypoint.name].
    f_equal. exact (IH (S index) kps' Ek').
Qed.

Lemma fold_Rmin_spec (rest : list R) (x : R) :
  Forall (fun y => fold_left Rmin rest x <= y) (x :: rest) /\
  In (fold_left Rmin rest x) (x :: rest).
Proof.
  revert x. induction rest as [|y rest IH]; intros x; simpl.
  - split; [constructor; [lra|constructor]|now left].
  - destruct (IH (Rmin x y)) as [Hall Hin].
    inversion Hall as [|? ? Hm Hrest]; subst. split.
    + constructor; [pose proof (Rmin_l x y); lra|].
      constructor; [pose proof (Rmin_r x y); lra|exact Hrest].
    + destruct Hin as [Hin|Hin]; [|now right; right].
      rewrite <- Hin. unfold Rmin. destruct (Rle_dec x y); [now left|].
      right. now left.
Qed.

Lemma fold_Rmax_spec (rest : list R) (x : R) :
  Forall (fun y => y <= fold_left Rmax rest x) (x :: rest) /\
  In (fold_left Rmax rest x) (x :: rest).
Proof.
  revert x. induction rest as [|y rest IH]; intros x; simpl.
  - split; [constructor; [lra|constructor]|now left].
  - destruct (IH (Rmax x y)) as [Hall Hin].
    inversion Hall as [|? ? Hm Hrest]; subst. split.
    + constructor; [pose proof (Rmax_l x y); lra|].
      constructor; [pose proof (Rmax_r x y); lra|exact Hrest].
    + destruct Hin as [Hin|Hin]; [|now right; right].
      rewrite <- Hin. unfold Rmax. destruct (Rle_dec x y); [|now left].
      right. now left.
Qed.

Lemma spreadMin_spec (xs : list R) (m : R) :
  spreadMin xs = Some m -> Forall (fun y => m <= y) xs /\ In m xs.
Proof.
  destruct xs as [|x rest]; [discriminate|]. simpl.
  intros E. injection E as <-. apply fold_Rmin_spec.
Qed.

Lemma spreadMax_spec (xs : list R) (m : R) :
  spreadMax xs = Some m -> Forall (fun y => y <= m) xs /\ In m xs.
Proof.
  destruct xs as [|x rest]; [discriminate|]. simpl.
  intros E. injection E as <-. apply fold_Rmax_spec.
Qed.

(** What a reported hand was computed from. *)
Lemma detectHands_Hand_inv (W H vw vh : R)
    (predictions : list HandPoseAnnotation.t) (hd : HandData.t) :
  detectHands W H vw vh predictions = Hand hd ->
  exists hand others,
    predictions = hand :: others /\ vw <> 0 /\ vh <> 0 /\
    detectGesture (HandPoseAnnotation.landmarks hand)
      = Some (HandData.gesture hd) /\
    toKeypoints W (W / vw) (H / vh) 0 (HandPoseAnnotation.landmarks hand)
      = Some (HandData.keypoints hd) /\
    spreadMin (map HandKeypoint.x (HandData.keypoints hd))
      = Some (fst (HandData.topLeft hd)) /\
    spreadMin (map HandKeypoint.y (HandData.keypoints hd))
      = Some (snd (HandData.topLeft hd)) /\
    spreadMax (map HandKeypoint.x (HandData.keypoints hd))
      = Some (fst (HandData.bottomRight hd)) /\
    spreadMax (map HandKeypoint.y (HandData.keypoints hd))
      = Some (snd (HandData.bottomRight hd)) /\
    HandData.confidence hd =
      match HandPoseAnnotation.handInViewConfidence hand with
      | Some c => if Qeq_bool c 0 then 1 else Q2R c
      | None => 1
      end.
Proof.
  unfold detectHands. destruct predictions as [|hand others]; [discriminate|].
  cbv zeta.
  destruct (detectGesture (HandPoseAnnotation.landmarks hand))
    as [g|] eqn:Eg; [|discriminate].
  destruct (Req_dec_T vw 0) as [|Hvw]; [discriminate|].
  destruct (Req_dec_T vh 0) as [|Hvh]; [discriminate|].
  destruct (toKeypoints _ _ _ 0 _) as [kps|] eqn:Ek; [|discriminate].
  destruct (spreadMin (map HandKeypoint.x kps)) as [minX|] eqn:E1;
    [|discriminate].
  destruct (spreadMax (map HandKeypoint.x kps)) as [maxX|] eqn:E2;
    [|discriminate].
  destruct (spreadMin (map HandKeypoint.y kps)) as [minY|] eqn:E3;
    [|discriminate].
  destruct (spreadMax (map HandKeypoint.y kps)) as [maxY|] eqn:E4;
    [|discriminate].
  intros E. injection E as <-. exists hand, others. simpl.
  repeat split; assumption || reflexivity.
Qed.

(** The hands that are reported: 21 landmarks with x and y each, from a
    video that has a width and a height. *)
Lemma detectHands_Hand_intro (W H vw vh : R) (hand : HandPoseAnnotation.t)
    (others : list HandPoseAnnotation.t) :
  List.length (HandPoseAnnotation.landmarks hand) = 21%nat ->
  Forall (fun row => (2 <= List.length row)%nat)
         (HandPoseAnnotation.landmarks hand) ->
  vw <> 0 -> vh <> 0 ->
  exists hd, detectHands W H vw vh (hand :: others) = Hand hd.
Proof.
  intros Hlen Hrows Hvw Hvh. unfold detectHands. cbv zeta.
  destruct (detectGesture_Some (HandPoseAnnotation.landmarks hand))
    as (t & i & m & r & p & _ & _ & _ & _ & _ & ->); [lia|].
  destruct (Req_dec_T vw 0) as [|_]; [contradiction|].
  destruct (Req_dec_T vh 0) as [|_]; [contradiction|].
  destruct (proj2 (toKeypoints_Some W (W / vw) (H / vh)
                     (HandPoseAnnotation.landmarks hand) 0))
    as [kps Ek]; [split; [exact Hrows|right; lia]|].
  rewrite Ek. pose proof (toKeypoints_length _ _ _ _ _ _ Ek) as Hk.
  destruct kps as [|kp kps]; [simpl in Hk; lia|]. simpl.
  eexists. reflexivity.
Qed.

Lemma detectHands_Hand_shape (W H vw vh : R) (hand : HandPoseAnnotation.t)
    (others : list HandPoseAnnotation.t) (hd : HandData.t) :
  detectHands W H vw vh (hand :: others) = Hand hd ->
  List.length (HandPoseAnnotation.landmarks hand) = 21%nat /\
  Forall (fun row => (2 <= List.length row)%nat)
         (HandPoseAnnotation.landmarks hand) /\
  List.length (HandData.keypoints hd) = 21%nat.
Proof.
  intros E. destruct (detectHands_Hand_inv _ _ _ _ _ _ E)
    as (hand' & others' & Ep & _ & _ & Hg & Hk & Hmin & _).
  injection Ep as <- <-.
  pose proof (toKeypoints_length _ _ _ _ _ _ Hk) as Hlen.
  destruct (proj1 (toKeypoints_Some _ _ _ _ _) (ex_intro _ _ Hk))
    as [Hrows Hn].
  assert (Hne : HandPoseAnnotation.landmarks hand <> []).
  { intros E0. rewrite E0 in Hlen.
    destruct (HandData.keypoints hd); discriminate. }
  destruct Hn as [Hn|Hn]; [contradiction|].
  assert (H21 : List.length (HandPoseAnnotation.landmarks hand) = 21%nat).
  { destruct (Nat.le_gt_cases 21
                (List.length (HandPoseAnnotation.landmarks hand))); [lia|].
    rewrite detectGesture_short in Hg; [discriminate|].
    split; [|lia].
    destruct (HandPoseAnnotation.landmarks hand); [contradiction|simpl; lia]. }
  repeat split; [exact H21|exact Hrows|congruence].
Qed.

(** The hand of the sample is reported. *)
Lemma thumbAndIndexHand_reported :
  exists hd, detectHands 1000 800 640 480 [thumbAndIndexHand] = Hand hd.
Proof.
  apply detectHands_Hand_intro.
  - reflexivity.
  - repeat constructor.
  - lra.
  - lra.
Qed.

(** X20: what a pass of [detectHands] can do.  Without a prediction it
    clears the hand data.  With predictions only the first counts; the
    pass never clears the hand data then; it throws (and leaves the hand
    data as it was) exactly when the first hand has between 1 and 20
    landmarks; and it reports a hand with real coordinates and named
    keypoints exactly when the first hand has 21 landmarks, each with an
    x and a y, and the video has a width and a height. *)
Theorem detectHands_outcomes (W H vw vh : R) :
  detectHands W H vw vh [] = NoHand /\
  forall hand others,
    let landmarks := HandPoseAnnotation.landmarks hand in
    detectHands W H vw vh (hand :: others) = detectHands W H vw vh [hand] /\
    detectHands W H vw vh (hand :: others) <> NoHand /\
    (detectHands W H vw vh (hand :: others) = Thrown <->
     (0 < List.length landmarks < 21)%nat) /\
    ((exists hd, detectHands W H vw vh (hand :: others) = Hand hd) <->
     List.length landmarks = 21%nat /\
     Forall (fun row => (2 <= List.length row)%nat) landmarks /\
     vw <> 0 /\ vh <> 0).
Proof.
  split; [reflexivity|]. intros hand others. cbv zeta.
  split; [reflexivity|]. split; [|split].
  - unfold detectHands. cbv zeta.
    repeat match goal with
           | |- context [match ?x with _ => _ end] => destruct x
           end; discriminate.
  - split.
    + intros E.
      assert (Hg : detectGesture (HandPoseAnnotation.landmarks hand) = None).
      { revert E. unfold detectHands. cbv zeta.
        destruct (detectGesture _); [|reflexivity].
        repeat match goal with
               | |- context [match ?x with _ => _ end] => destruct x
               end; discriminate. }
      destruct (HandPoseAnnotation.landmarks hand) as [|l ls] eqn:El;
        [discriminate|].
      destruct (Nat.le_gt_cases 21 (List.length (l :: ls))) as [H21|H21].
      * destruct (detectGesture_Some (l :: ls) H21)
          as (t & i & m & r & p & _ & _ & _ & _ & _ & Eg).
        congruence.
      * simpl in *. lia.
    + intros Hlen. unfold detectHands. cbv zeta.
      rewrite detectGesture_short by lia. reflexivity.
  - split.
    + intros [hd E].
      destruct (detectHands_Hand_shape _ _ _ _ _ _ _ E) as (H21 & Hrows & _).
      destruct (detectHands_Hand_inv _ _ _ _ _ _ E)
        as (_ & _ & _ & Hvw & Hvh & _).
      now repeat split.
    + intros (H21 & Hrows & Hvw & Hvh).
      now apply detectHands_Hand_intro.
Qed.

(** X21: a hand that [detectHands] reports is safe to use.  It has
    exactly 21 keypoints, named after [KEYPOINT_NAMES] in order; its
    gesture is the answer of [detectGesture] on the landmarks, one of the
    six of [GESTURES] and never [none]; and the gesture effect never
    throws on it, in whatever state: [handData.keypoints[8]] exists. *)
Theorem detected_hand_is_safe (W H vw vh : R) (hand : HandPoseAnnotation.t)
    (others : list HandPoseAnnotation.t) (hd : HandData.t) :
  detectHands W H vw vh (hand :: others) = Hand hd ->
  List.length (HandData.keypoints hd) = 21%nat /\
  map HandKeypoint.name (HandData.keypoints hd) = KEYPOINT_NAMES /\
  detectGesture (HandPoseAnnotation.landmarks hand)
    = Some (HandData.gesture hd) /\
  In (HandData.gesture hd) GESTURES /\
  (forall now w, exists w', gestureEffect now (Some hd) w = Some w').
Proof.
  intros E.
  destruct (detectHands_Hand_shape _ _ _ _ _ _ _ E) as (H21 & Hrows & Hk21).
  destruct (detectHands_Hand_inv _ _ _ _ _ _ E)
    as (hand' & others' & Ep & _ & _ & Hg & Hk & _).
  injection Ep as <- <-.
  split; [exact Hk21|]. split; [|split; [exact Hg|split]].
  - rewrite (toKeypoints_names _ _ _ _ _ _ Hk), H21. reflexivity.
  - destruct (detectGesture_Some (HandPoseAnnotation.landmarks hand))
      as (t & i & m & r & p & _ & _ & _ & _ & _ & Eg); [lia|].
    rewrite Eg in Hg. injection Hg as <-. apply classify_GESTURES.
  - intros now w. apply gestureEffect_returns. lia.
Qed.

(** An instance: the hand of the sample, in a window of 1000 by 800. *)
Lemma detected_hand_is_safe_witness :
  exists hd,
    detectHands 1000 800 640 480 [thumbAndIndexHand] = Hand hd /\
    List.length (HandData.keypoints hd) = 21%nat /\
    map HandKeypoint.name (HandData.keypoints hd) = KEYPOINT_NAMES /\
    detectGesture (HandPoseAnnotation.landmarks thumbAndIndexHand)
      = Some (HandData.gesture hd) /\
    In (HandData.gesture hd) GESTURES /\
    (forall now w, exists w', gestureEffect now (Some hd) w = Some w').
Proof.
  destruct thumbAndIndexHand_reported as [hd E].
  exists hd. split; [exact E|].
  exact (detected_hand_is_safe 1000 800 640 480 thumbAndIndexHand [] hd E).
Defined.

(** X22: the bounding box of a reported hand is the tightest one: every
    keypoint lies inside it, each of its four sides passes through a
    keypoint, and its corners are in order. *)
Theorem boundingBox_encloses (W H vw vh : R)
    (predictions : list HandPoseAnnotation.t) (hd : HandData.t) :
  detectHands W H vw vh predictions = Hand hd ->
  let left := fst (HandData.topLeft hd) in
  let top := snd (HandData.topLeft hd) in
  let right := fst (HandData.bottomRight hd) in
  let bottom := snd (HandData.bottomRight hd) in
  Forall (fun kp => left <= HandKeypoint.x kp <= right /\
                    top <= HandKeypoint.y kp <= bottom)
         (HandData.keypoints hd) /\
  (exists kp, In kp (HandData.keypoints hd) /\ HandKeypoint.x kp = left) /\
  (exists kp, In kp (HandData.keypoints hd) /\ HandKeypoint.x kp = right) /\
  (exists kp, In kp (HandData.keypoints hd) /\ HandKeypoint.y kp = top) /\
  (exists kp, In kp (HandData.keypoints hd) /\ HandKeypoint.y kp = bottom) /\
  left <= right /\ top <= bottom.
Proof.
  intros E. cbv zeta.
  destruct (detectHands_Hand_inv _ _ _ _ _ _ E)
    as (_ & _ & _ & _ & _ & _ & _ & Hl & Ht & Hr & Hb & _).
  destruct (spreadMin_spec _ _ Hl) as [Hl1 Hl2].
  destruct (spreadMin_spec _ _ Ht) as [Ht1 Ht2].
  destruct (spreadMax_spec _ _ Hr) as [Hr1 Hr2].
  destruct (spreadMax_spec _ _ Hb) as [Hb1 Hb2].
  rewrite Forall_forall in Hl1, Ht1, Hr1, Hb1.
  assert (Hx : forall kp, In kp (HandData.keypoints hd) ->
                 In (HandKeypoint.x kp)
                    (map HandKeypoint.x (HandData.keypoints hd)))
    by (intros kp; apply in_map).
  assert (Hy : forall kp, In kp (HandData.keypoints hd) ->
                 In (HandKeypoint.y kp)
                    (map HandKeypoint.y (HandData.keypoints hd)))
    by (intros kp; apply in_map).
  apply in_map_iff in Hl2, Ht2, Hr2, Hb2.
  split; [|split; [|split; [|split; [|split; [|split]]]]].
  - apply Forall_forall. intros kp Hin.
    pose proof (Hl1 _ (Hx kp Hin)). pose proof (Hr1 _ (Hx kp Hin)).
    pose proof (Ht1 _ (Hy kp Hin)). pose proof (Hb1 _ (Hy kp Hin)). lra.
  - destruct Hl2 as (kp & Ek & Hin). now exists kp.
  - destruct Hr2 as (kp & Ek & Hin). now exists kp.
  - destruct Ht2 as (kp & Ek & Hin). now exists kp.
  - destruct Hb2 as (kp & Ek & Hin). now exists kp.
  - destruct Hl2 as (kp & Ek & Hin). pose proof (Hr1 _ (Hx kp Hin)). lra.
  - destruct Ht2 as (kp & Ek & Hin). pose proof (Hb1 _ (Hy kp Hin)). lra.
Qed.

(** An instance: the hand of the sample, in a window of 1000 by 800. *)
Lemma boundingBox_encloses_witness :
  exists hd,
    detectHands 1000 800 640 480 [thumbAndIndexHand] = Hand hd /\
    let left := fst (HandData.topLeft hd) in
    let top := snd (HandData.topLeft hd) in
    let right := fst (HandData.bottomRight hd) in
    let bottom := snd (HandData.bottomRight hd) in
    Forall (fun kp => left <= HandKeypoint.x kp <= right /\
                      top <= HandKeypoint.y kp <= bottom)
           (HandData.keypoints hd) /\
    (exists kp, In kp (HandData.keypoints hd) /\ HandKeypoint.x kp = left) /\
    (exists kp, In kp (HandData.keypoints hd) /\ HandKeypoint.x kp = right) /\
    (exists kp, In kp (HandData.keypoints hd) /\ HandKeypoint.y kp = top) /\
    (exists kp, In kp (HandData.keypoints hd) /\ HandKeypoint.y kp = bottom) /\
    left <= right /\ top <= bottom.
Proof.
  destruct thumbAndIndexHand_reported as [hd E].
  exists hd. split; [exact E|].
  exact (boundingBox_encloses 1000 800 640 480 [thumbAndIndexHand] hd E).
Defined.

(** The coordinates [toKeypoint] computes. *)
Lemma toKeypoint_coordinates (W sx sy : R) (index : nat) (landmark : list Q)
    (kp : HandKeypoint.t) :
  toKeypoint W sx sy index landmark = Some kp ->
  exists lx ly,
    nth_error landmark 0 = Some lx /\
    nth_error landmark 1 = Some ly /\
    HandKeypoint.x kp = W - Q2R lx * sx /\
    HandKeypoint.y kp = Q2R ly * sy.
Proof.
  unfold toKeypoint.
  destruct (nth_error landmark 0) as [lx|]; [|discriminate].
  destruct (nth_error landmark 1) as [ly|]; [|discriminate].
  destruct (nth_error KEYPOINT_NAMES index); [|discriminate].
  intros E. injection E as <-. exists lx, ly. repeat split.
Qed.

(** X23: keypoints are the landmarks mirrored and scaled to the window,
    for a window of up to 1000000 pixels each way and a video of at least
    one pixel.  Keypoint [i] of a reported hand comes from landmark [i]:
    its x is [windowWidth - x * (windowWidth / videoWidth)], its y is
    [y * (windowHeight / videoHeight)].  A landmark right of the left edge
    of the video gives a keypoint left of the right edge of the window,
    and on the edge itself it is on that edge; a landmark left of the
    right edge of the video gives a keypoint that is right of the left
    edge of the window, up to rounding.  A landmark below the top edge
    gives a keypoint below the top edge of the window, on the edge if it
    is on it; a landmark above the bottom edge gives a keypoint above the
    bottom edge of the window, up to rounding.  Between two keypoints of
    the hand the order from left to right is reversed and the order from
    top to bottom is kept; two landmarks that differ may fall on the same
    place. *)
Theorem keypoints_mirrored_on_screen (W H vw vh : R)
    (hand : HandPoseAnnotation.t) (others : list HandPoseAnnotation.t)
    (hd : HandData.t) :
  0 <= W <= 1000000 -> 0 <= H <= 1000000 -> 1 <= vw -> 1 <= vh ->
  detectHands W H vw vh (hand :: others) = Hand hd ->
  forall i kp,
    nth_error (HandData.keypoints hd) i = Some kp ->
    exists landmark lx ly,
      nth_error (HandPoseAnnotation.landmarks hand) i = Some landmark /\
      nth_error landmark 0 = Some lx /\
      nth_error landmark 1 = Some ly /\
      HandKeypoint.x kp = W - Q2R lx * (W / vw) /\
      HandKeypoint.y kp = Q2R ly * (H / vh) /\
      (0 <= Q2R lx -> HandKeypoint.x kp <= W) /\
      (Q2R lx <= vw -> - rounding <= HandKeypoint.x kp) /\
      (0 <= Q2R ly -> 0 <= HandKeypoint.y kp) /\
      (Q2R ly <= vh -> HandKeypoint.y kp <= H + rounding) /\
      (Q2R lx = 0 -> HandKeypoint.x kp = W) /\
      (Q2R ly = 0 -> HandKeypoint.y kp = 0) /\
      (forall j kp' landmark' lx' ly',
         nth_error (HandData.keypoints hd) j = Some kp' ->
         nth_error (HandPoseAnnotation.landmarks hand) j = Some landmark' ->
         nth_error landmark' 0 = Some lx' ->
         nth_error landmark' 1 = Some ly' ->
         (Q2R lx <= Q2R lx' -> HandKeypoint.x kp' <= HandKeypoint.x kp) /\
         (Q2R ly <= Q2R ly' -> HandKeypoint.y kp <= HandKeypoint.y kp')).
Proof.
  intros [HW _] [HH _] Hvw1 Hvh1 E i kp Hi.
  assert (Hvw : 0 < vw) by lra. assert (Hvh : 0 < vh) by lra.
  destruct (detectHands_Hand_inv _ _ _ _ _ _ E)
    as (hand' & others' & Ep & _ & _ & _ & Hk & _).
  injection Ep as <- <-.
  destruct (toKeypoints_nth _ _ _ _ _ _ _ _ Hk Hi) as (landmark & Hl & Ekp).
  destruct (toKeypoint_coordinates _ _ _ _ _ _ Ekp)
    as (lx & ly & Ex & Ey & Hx & Hy).
  exists landmark, lx, ly.
  assert (Hsx : 0 <= W / vw)
    by (apply Rmult_le_pos; [exact HW|left; now apply Rinv_0_lt_compat]).
  assert (Hsy : 0 <= H / vh)
    by (apply Rmult_le_pos; [exact HH|left; now apply Rinv_0_lt_compat]).
  assert (Hvx : vw * (W / vw) = W) by (field; lra).
  assert (Hvy : vh * (H / vh) = H) by (field; lra).
  unfold rounding.
  split; [exact Hl|]. split; [exact Ex|]. split; [exact Ey|].
  split; [exact Hx|]. split; [exact Hy|].
  rewrite Hx, Hy.
  split; [intros; nra|]. split; [intros; nra|].
  split; [intros; nra|]. split; [intros; nra|].
  split; [intros ->; lra|]. split; [intros ->; lra|].
  intros j kp' landmark' lx' ly' Hj Hl' Ex' Ey'.
  destruct (toKeypoints_nth _ _ _ _ _ _ _ _ Hk Hj) as (lm & Hlm & Ekp').
  rewrite Hl' in Hlm. injection Hlm as <-.
  destruct (toKeypoint_coordinates _ _ _ _ _ _ Ekp')
    as (lx2 & ly2 & Ex2 & Ey2 & Hx2 & Hy2).
  rewrite Ex' in Ex2. rewrite Ey' in Ey2.
  injection Ex2 as <-. injection Ey2 as <-.
  rewrite Hx2, Hy2. split; intros; nra.
Qed.

(** An instance: the hand of the sample, in a window of 1000 by 800. *)
Lemma keypoints_mirrored_on_screen_witness :
  exists hd,
    detectHands 1000 800 640 480 [thumbAndIndexHand] = Hand hd /\
    forall i kp,
      nth_error (HandData.keypoints hd) i = Some kp ->
      exists landmark lx ly,
        nth_error (HandPoseAnnotation.landmarks thumbAndIndexHand) i
          = Some landmark /\
        nth_error landmark 0 = Some lx /\
        nth_error landmark 1 = Some ly /\
        HandKeypoint.x kp = 1000 - Q2R lx * (1000 / 640) /\
        HandKeypoint.y kp = Q2R ly * (800 / 480) /\
        (0 <= Q2R lx -> HandKeypoint.x kp <= 1000) /\
        (Q2R lx <= 640 -> - rounding <= HandKeypoint.x kp) /\
        (0 <= Q2R ly -> 0 <= HandKeypoint.y kp) /\
        (Q2R ly <= 480 -> HandKeypoint.y kp <= 800 + rounding) /\
        (Q2R lx = 0 -> HandKeypoint.x kp = 1000) /\
        (Q2R ly = 0 -> HandKeypoint.y kp = 0) /\
        (forall j kp' landmark' lx' ly',
           nth_error (HandData.keypoints hd) j = Some kp' ->
           nth_error (HandPoseAnnotation.landmarks thumbAndIndexHand) j
             = Some landmark' ->
           nth_error landmark' 0 = Some lx' ->
           nth_error landmark' 1 = Some ly' ->
           (Q2R lx <= Q2R lx' -> HandKeypoint.x kp' <= HandKeypoint.x kp) /\
           (Q2R ly <= Q2R ly' -> HandKeypoint.y kp <= HandKeypoint.y kp')).
Proof.
  destruct thumbAndIndexHand_reported as [hd E].
  exists hd. split; [exact E|].
  apply (keypoints_mirrored_on_screen 1000 800 640 480 thumbAndIndexHand []
           hd); try lra. exact E.
Defined.

(** ** Mana regeneration *)

(** X24: regeneration in closed form.  From a state with at most 100
    mana, [k] ticks in a row leave [min(100, mana + 2k)] mana and change
    nothing else: an empty pool is full again after 50 ticks. *)
Theorem mana_regeneration_closed_form (k : nat) (w : World) :
  (mana w <= 100)%Z ->
  run (repeat ManaTick k) w
  = Some (setMana (Z.min 100 (mana w + 2 * Z.of_nat k)) w).
Proof.
  revert w. induction k as [|k IH]; intros w Hm.
  - simpl. f_equal. replace (Z.min 100 (mana w + 0)) with (mana w) by lia.
    symmetry. apply world_eta.
  - cbn [repeat run act]. rewrite IH by (simpl; lia).
    f_equal. unfold manaRegeneration. flat. f_equal. lia.
Qed.

(** An instance: four ticks after the first cast. *)
Lemma mana_regeneration_closed_form_witness :
  run (repeat ManaTick 4) (afterCastAt 100 100)
  = Some (setMana (Z.min 100 (mana (afterCastAt 100 100) + 2 * Z.of_nat 4))
            (afterCastAt 100 100)).
Proof.
  apply (mana_regeneration_closed_form 4 (afterCastAt 100 100)).
  vm_compute. discriminate.
Defined.

(** ** The view of the scarecrow *)









(** X27: a heal cancels the end of the flash.  While [isHit] is set and
    its timeout is pending, the timeout would clear it.  If the health
    rises before that (a respawn), the cleanup of the effect cancels the
    timeout and the body starts none, so [isHit] stays set with no
    timeout pending, and the damage number stays with it, until a later
    loss of health starts the next timeout. *)
Theorem heal_leaves_flash_on (health : R) (v : ScarecrowView.t) :
  ScarecrowView.isHit v = true ->
  ScarecrowView.hitTimer v = true ->
  ScarecrowView.prevHealthRef v < health ->
  let v' := renderScarecrow health v in
  ScarecrowView.isHit (hitTimeout v) = false /\
  ScarecrowView.isHit v' = true /\
  ScarecrowView.hitTimer v' = false /\
  ScarecrowView.lastDamage v' = ScarecrowView.lastDamage v /\
  hitTimeout v' = v' /\
  (forall lower,
     lower < health ->
     ScarecrowView.hitTimer (renderScarecrow lower v') = true /\
     ScarecrowView.isHit (hitTimeout (renderScarecrow lower v')) = false).
Proof.
  intros Hhit Htimer Hlt. cbv zeta.
  unfold renderScarecrow at 1 2 3 4 5.
  destruct (Req_dec_T health (ScarecrowView.prevHealthRef v)); [lra|].
  unfold hitEffect at 1 2 3 4 5.
  destruct (Rlt_dec health (ScarecrowView.prevHealthRef v)); [lra|].
  split; [unfold hitTimeout; now rewrite Htimer|].
  split; [exact Hhit|]. split; [reflexivity|]. split; [reflexivity|].
  split; [reflexivity|].
  intros lower Hlow. unfold renderScarecrow.
  destruct (Req_dec_T health (ScarecrowView.prevHealthRef v)); [lra|].
  unfold hitEffect.
  destruct (Rlt_dec health (ScarecrowView.prevHealthRef v)); [lra|].
  cbn [ScarecrowView.prevHealthRef].
  destruct (Req_dec_T lower health); [lra|].
  destruct (Rlt_dec lower health); [|lra].
  split; reflexivity.
Qed.

(** An instance: a respawn to 500 right after a hit for 33. *)
Lemma heal_leaves_flash_on_witness :
  let v' := renderScarecrow 500 justHit in
  ScarecrowView.isHit (hitTimeout justHit) = false /\
  ScarecrowView.isHit v' = true /\
  ScarecrowView.hitTimer v' = false /\
  ScarecrowView.lastDamage v' = ScarecrowView.lastDamage justHit /\
  hitTimeout v' = v' /\
  (forall lower,
     lower < 500 ->
     ScarecrowView.hitTimer (renderScarecrow lower v') = true /\
     ScarecrowView.isHit (hitTimeout (renderScarecrow lower v')) = false).
Proof.
  apply (heal_leaves_flash_on 500 justHit).
  - reflexivity.
  - reflexivity.
  - simpl. lra.
Defined.
